(** * ScanRappel: the resilient-call executor, media ingestion, field
    extractor, analysis pipeline and history store

    A shallow embedding of [services/openai.ts] (cache, retry, upload,
    [extractFromResponse], [analyzeProductImage]), of
    [services/productService.ts] ([verifyProductRecall],
    [saveScanHistory], [getScanHistory]) and of the two functions of the
    screens that call them ([processImage], [loadScanHistory]), with
    the properties the specification states about them and further
    properties of the code.

    Conventions of the embedding.
    - A JavaScript string is a Rocq [string]; each [ascii] is one UTF-16
      code unit below 256 (Latin-1).  White space, case mapping and the
      [i] flag of regular expressions are the ECMAScript ones restricted
      to that alphabet.
    - A regular expression is a term of [Regex.regex], matched by a
      backtracking matcher; a key spliced into a pattern is the literal
      it is at every call site.
    - Numbers are integers ([Z]); the backoff time, a product with a
      random factor, is a rational ([Q]) computed exactly.
    - Asynchronous functions run to completion one after the other (the
      code awaits every promise), so an [async] function is a state
      transformer that returns a value or a thrown value; the effects
      made before a throw stay.
    - The results of external services (the clock, [Math.random], the
      network, the file system, the stores) are read from oracles. *)

From Stdlib Require Import String Ascii List ZArith QArith Qminmax Qround Lia Lqa Bool.
From Stdlib Require Import DecimalString Sorted Permutation.
From stdpp Require Import base option strings gmap.
Import ListNotations.

Local Open Scope string_scope.
Local Open Scope bool_scope.
Set Warnings "-register-all".

(* ===================================================================== *)
(** * JavaScript strings over Latin-1 code units *)
(* ===================================================================== *)

Module JsString.

Definition code (c : ascii) : N := N_of_ascii c.

Definition LF : ascii := ascii_of_N 10.

(** ECMAScript [WhiteSpace] and [LineTerminator] below 256: TAB, LF, VT,
    FF, CR, SP and NBSP.  [\s] and [String.prototype.trim] use this set. *)
Definition isWhiteSpace (c : ascii) : bool :=
  let n := code c in
  ((9 <=? n) && (n <=? 13) || (n =? 32) || (n =? 160))%N.

(** [LineTerminator]: what [^] looks behind for under the [m] flag. *)
Definition isLineTerminator (c : ascii) : bool :=
  let n := code c in ((n =? 10) || (n =? 13))%N.

Definition isDigit (c : ascii) : bool :=
  let n := code c in ((48 <=? n) && (n <=? 57))%N.

Definition isUpperAZ (c : ascii) : bool :=
  let n := code c in ((65 <=? n) && (n <=? 90))%N.

Definition isLowerAZ (c : ascii) : bool :=
  let n := code c in ((97 <=? n) && (n <=? 122))%N.

(** [toLowerCase] on one code unit: A-Z and the Latin-1 capitals
    (except the multiplication sign) move up by 32. *)
Definition lowerChar (c : ascii) : ascii :=
  let n := code c in
  if ((65 <=? n) && (n <=? 90) || (192 <=? n) && (n <=? 222) && negb (n =? 215))%N
  then ascii_of_N (n + 32) else c.

(** [Canonicalize] of the [i] flag (simple upper-casing): a-z and the
    Latin-1 small letters (except the division sign) move down by 32; the
    small letters whose capital lies outside Latin-1 or is not a single
    code unit keep their own class. *)
Definition canonChar (c : ascii) : ascii :=
  let n := code c in
  if ((97 <=? n) && (n <=? 122) || (224 <=? n) && (n <=? 254) && negb (n =? 247))%N
  then ascii_of_N (n - 32) else c.

Fixpoint toLowerCase (s : string) : string :=
  match s with
  | EmptyString => EmptyString
  | String c s' => String (lowerChar c) (toLowerCase s')
  end.

Fixpoint trimStart (s : string) : string :=
  match s with
  | EmptyString => EmptyString
  | String c s' => if isWhiteSpace c then trimStart s' else s
  end.

(** Drops the trailing white space: a character is kept when it is not
    white space or when something is kept after it. *)
Fixpoint trimEnd (s : string) : string :=
  match s with
  | EmptyString => EmptyString
  | String c s' =>
      match trimEnd s' with
      | EmptyString => if isWhiteSpace c then EmptyString else String c EmptyString
      | t => String c t
      end
  end.

Definition trim (s : string) : string := trimEnd (trimStart s).

(** [hay.includes(needle)]. *)
Fixpoint includes (hay needle : string) : bool :=
  if String.prefix needle hay then true
  else match hay with
       | EmptyString => false
       | String _ hay' => includes hay' needle
       end.

(** A string of white space only. *)
Fixpoint blank (s : string) : bool :=
  match s with
  | EmptyString => true
  | String c s' => isWhiteSpace c && blank s'
  end.

(** A string is truthy when it is not empty. *)
Definition nonEmpty (s : string) : bool :=
  match s with EmptyString => false | _ => true end.

(** [v] is a piece of [s]: some text, then [v], then some text. *)
Definition occursIn (v s : string) : Prop := exists pre post, s = pre +:+ v +:+ post.

(** Every code unit of the string is of the class. *)
Fixpoint every (cls : ascii -> bool) (s : string) : bool :=
  match s with
  | EmptyString => true
  | String c s' => cls c && every cls s'
  end.

(** The string is over, or goes on with a code unit outside the class. *)
Definition stopsAt (cls : ascii -> bool) (s : string) : Prop :=
  match s with
  | EmptyString => True
  | String c _ => cls c = false
  end.

(** The code unit before the position reached after reading [s]. *)
Fixpoint beforeAfter (b : option ascii) (s : string) : option ascii :=
  match s with
  | EmptyString => b
  | String c s' => beforeAfter (Some c) s'
  end.

(** A code unit that is not a line feed: the class [[^\n]]. *)
Definition notLineFeed (c : ascii) : bool := negb (Ascii.eqb c LF).

End JsString.

(* ===================================================================== *)
(** * Regular expressions: a backtracking matcher

    The fragment of ECMAScript regular expressions the two services use:
    classes, concatenation, alternation, greedy and lazy repetition, one
    capture group, [^] under the [m] flag, [$] without it and positive
    lookahead.  The matcher follows the ECMAScript backtracking semantics
    in continuation-passing style; a repetition refuses an iteration that
    consumes nothing, as the standard does. *)
(* ===================================================================== *)

Module Regex.
Import JsString.

Inductive regex : Type :=
| Empty
| Char (p : ascii -> bool)
| Cat (r1 r2 : regex)
| Alt (r1 r2 : regex)
| Rep (greedy : bool) (r : regex)
| Cap (r : regex)
| LineStart
| InputEnd
| Ahead (r : regex).

(** Where a match stands: the code unit before the position (none at the
    start of the input), the rest of the input, and group 1 so far. *)
Record pos : Type := Pos { before : option ascii; rest : string; group1 : option string }.

Definition atLineStart (p : pos) : bool :=
  match before p with
  | None => true
  | Some c => isLineTerminator c
  end.

Definition orElse {A} (x y : option A) : option A :=
  match x with Some _ => x | None => y end.

Definition consumed (from to : pos) : string :=
  substring 0 (String.length (rest from) - String.length (rest to)) (rest from).

(** A repetition of [step]: at most [fuel] iterations, each of which must
    consume something; the greedy one prefers one more iteration, the
    lazy one prefers to stop. *)
Fixpoint iterate (step : pos -> (pos -> option pos) -> option pos) (greedy : bool)
         (k : pos -> option pos) (fuel : nat) (p : pos) {struct fuel} : option pos :=
  match fuel with
  | O => k p
  | S fuel' =>
      let again :=
        step p (fun p1 =>
          if Nat.ltb (String.length (rest p1)) (String.length (rest p))
          then iterate step greedy k fuel' p1 else None) in
      if greedy then orElse again (k p) else orElse (k p) again
  end.

Fixpoint run (r : regex) (p : pos) (k : pos -> option pos) {struct r} : option pos :=
  match r with
  | Empty => k p
  | Char cls =>
      match rest p with
      | String c s' => if cls c then k (Pos (Some c) s' (group1 p)) else None
      | EmptyString => None
      end
  | Cat r1 r2 => run r1 p (fun p1 => run r2 p1 k)
  | Alt r1 r2 => orElse (run r1 p k) (run r2 p k)
  | Rep greedy r1 => iterate (run r1) greedy k (S (String.length (rest p))) p
  | Cap r1 =>
      run r1 p (fun p1 => k (Pos (before p1) (rest p1) (Some (consumed p p1))))
  | LineStart => if atLineStart p then k p else None
  | InputEnd => match rest p with EmptyString => k p | _ => None end
  | Ahead r1 =>
      match run r1 p Some with
      | Some p1 => k (Pos (before p) (rest p) (group1 p1))
      | None => None
      end
  end.

(** The result of [RegExp.prototype.exec]: the whole match and group 1. *)
Record matched : Type := Matched { whole : string; group : option string }.

Definition matchAt (r : regex) (p : pos) : option pos := run r p Some.

(** [text.match(r)] without the [g] flag: the leftmost start that matches. *)
Fixpoint searchFrom (r : regex) (prev : option ascii) (s : string) : option matched :=
  let p := Pos prev s None in
  match matchAt r p with
  | Some p1 => Some (Matched (consumed p p1) (group1 p1))
  | None =>
      match s with
      | EmptyString => None
      | String c s' => searchFrom r (Some c) s'
      end
  end.

Definition exec (r : regex) (s : string) : option matched := searchFrom r None s.

(** [text.split(r)] for a separator without capture groups: at each
    position the separator is tried; a match that ends where the current
    piece starts is skipped; [skip] counts the code units of a separator
    still to pass over. *)
Fixpoint splitGo (r : regex) (prev : option ascii) (s : string)
         (piece : string) (skip : nat) : list string :=
  match s with
  | EmptyString => [piece]
  | String c s' =>
      match skip with
      | S n => splitGo r (Some c) s' piece n
      | O =>
          let p := Pos prev s None in
          match matchAt r p with
          | Some p1 =>
              match String.length (consumed p p1) with
              | O =>
                  match piece with
                  | EmptyString => splitGo r (Some c) s' (String c EmptyString) 0
                  | _ => piece :: splitGo r (Some c) s' (String c EmptyString) 0
                  end
              | S n => piece :: splitGo r (Some c) s' EmptyString n
              end
          | None => splitGo r (Some c) s' (piece +:+ String c EmptyString) 0
          end
      end
  end.

Definition split (r : regex) (s : string) : list string :=
  match s with
  | EmptyString =>
      match matchAt r (Pos None EmptyString None) with
      | Some _ => []
      | None => [EmptyString]
      end
  | _ => splitGo r None s EmptyString 0
  end.

(** Every match of the expression starts with a code unit of the class. *)
Inductive leading (cls : ascii -> bool) : regex -> Prop :=
| leading_Char : leading cls (Char cls)
| leading_Cat r1 r2 : leading cls r1 -> leading cls (Cat r1 r2)
| leading_Cap r : leading cls r -> leading cls (Cap r).

(** ** Building patterns *)

Fixpoint seq (rs : list regex) : regex :=
  match rs with
  | [] => Empty
  | [r] => r
  | r :: rs' => Cat r (seq rs')
  end.

Fixpoint alt (rs : list regex) : regex :=
  match rs with
  | [] => Char (fun _ => false)
  | [r] => r
  | r :: rs' => Alt r (alt rs')
  end.

Definition star (r : regex) : regex := Rep true r.
Definition plus (r : regex) : regex := Cat r (Rep true r).
Definition lazyPlus (r : regex) : regex := Cat r (Rep false r).
Definition opt (r : regex) : regex := Alt r Empty.

(** One literal code unit, with and without the [i] flag. *)
Definition chr (c : ascii) : regex := Char (Ascii.eqb c).
Definition chrI (c : ascii) : regex :=
  Char (fun x => Ascii.eqb (canonChar x) (canonChar c)).

(** A literal string, with and without the [i] flag. *)
Fixpoint lit (s : string) : regex :=
  match s with
  | EmptyString => Empty
  | String c EmptyString => chr c
  | String c s' => Cat (chr c) (lit s')
  end.

Fixpoint litI (s : string) : regex :=
  match s with
  | EmptyString => Empty
  | String c EmptyString => chrI c
  | String c s' => Cat (chrI c) (litI s')
  end.

Definition oneOf (s : string) (c : ascii) : bool :=
  existsb (Ascii.eqb c) (list_ascii_of_string s).

Definition ws : regex := Char isWhiteSpace.
Definition digit : regex := Char isDigit.
Definition anyChar : regex := Char (fun _ => true).
(** [[^...]]: none of the listed code units. *)
Definition noneOf (s : string) : regex := Char (fun c => negb (oneOf s c)).
Definition notLF : regex := Char (fun c => negb (Ascii.eqb c LF)).

(** ** Vocabulary of the properties of the matcher *)

(** [p'] is further along the input than [p]. *)
Definition ahead (p p' : pos) : Prop := exists u, rest p = u +:+ rest p'.

(** Group 1 at [p'] is what it was at [p], or a piece of the input
    left at [p]. *)
Definition groupFrom (p p' : pos) : Prop :=
  group1 p' = group1 p \/ exists g, group1 p' = Some g /\ occursIn g (rest p).

End Regex.

(* ===================================================================== *)
(** * The field extractor: [extractFromResponse] (openai.ts)

    A key is spliced into the source of each pattern, so it is read as a
    regular expression; every call site passes words and spaces only.
    The embedding takes a key as the literal it is there: it is faithful
    for keys free of regular-expression syntax ([plainKey]). *)
(* ===================================================================== *)

Module Extract.
Import JsString Regex.

Definition regexSyntax : string := String (ascii_of_N 92) "^$.|?*+()[]{}".

Definition plainKey (key : string) : bool :=
  forallb (fun c => negb (oneOf regexSyntax c)) (list_ascii_of_string key).

(** [\s*] *)
Definition sp : regex := star ws.
(** [([^\n]+)] *)
Definition toEndOfLine : regex := Cap (plus notLF).

(** The nine formats tried first for a key, all under the [i] flag (the
    eighth under [im]). *)
Definition patterns (key : string) : list regex :=
  [ seq [litI key; sp; chr ":"; sp; toEndOfLine];
    seq [litI key; sp; chr "-"; sp; toEndOfLine];
    seq [litI key; sp; chr "="; sp; toEndOfLine];
    seq [litI key; sp; litI "content"; sp; chr ":"; sp; toEndOfLine];
    seq [litI key; sp; litI "information"; sp; chr ":"; sp; toEndOfLine];
    seq [lit "**"; litI key; lit "**"; sp; chr ":"; sp; toEndOfLine];
    seq [chr "<"; litI key; chr ">"; Cap (plus (noneOf "<")); lit "</"; litI key; chr ">"];
    seq [LineStart; sp; litI key; sp; chr ":"; sp; toEndOfLine];
    seq [chr "|"; sp; litI key; sp; chr "|"; sp;
         Cap (plus (Char (fun c => negb (Ascii.eqb c "|" || Ascii.eqb c LF))));
         sp; chr "|"] ].

(** The class [[•\-\*\d+\.]]: the bullet U+2022 lies outside the
    alphabet of the embedding, the other members are listed. *)
Definition bulletClass : regex :=
  Char (fun c => oneOf "-*+." c || isDigit c).

Definition bulletPatterns (key : string) : list regex :=
  [ seq [plus bulletClass; sp; litI key; sp; opt (chr ":"); sp; toEndOfLine];
    seq [Char (oneOf "-*"); sp; litI key; sp; chr ":"; sp; toEndOfLine];
    seq [plus digit; chr "."; sp; litI key; sp; chr ":"; sp; toEndOfLine] ].

(** [match && match[1].trim()] then [return match[1].trim()]: the group
    of every pattern above is mandatory, so a match always carries it. *)
Definition captured (m : option matched) : option string :=
  match m with
  | Some (Matched _ (Some g)) => if nonEmpty (trim g) then Some (trim g) else None
  | _ => None
  end.

(** [for (const pattern of ...) { const match = text.match(pattern); ... }] *)
Fixpoint firstCaptured (pats : list regex) (text : string) : option string :=
  match pats with
  | [] => None
  | pat :: pats' =>
      match captured (exec pat text) with
      | Some v => Some v
      | None => firstCaptured pats' text
      end
  end.

(** [\d+(?:\.\d+)?\s*] *)
Definition number : regex := seq [plus digit; opt (seq [chr "."; plus digit]); sp].

Definition numberWithUnit : list regex :=
  [ Cap (seq [number; alt [litI "g"; litI "mg"; litI "kcal"; litI "calories"; litI "cal"];
              opt (litI "/serving")]);
    Cap (seq [number; alt [litI "grams"; litI "gram"; litI "milligrams"; litI "milligram"]]);
    Cap (seq [number; alt [chr "%"; litI "percent"]]) ].

(** [if (match && match[0]) return match[0].trim()] over the three
    number-and-unit patterns, in order. *)
Fixpoint firstWhole (pats : list regex) (sentence : string) : option string :=
  match pats with
  | [] => None
  | pat :: pats' =>
      match exec pat sentence with
      | Some m => if nonEmpty (whole m) then Some (trim (whole m)) else firstWhole pats' sentence
      | None => firstWhole pats' sentence
      end
  end.

(** [/\.(?:\s+|\n)/] *)
Definition sentenceBreak : regex := seq [chr "."; alt [plus ws; chr LF]].

(** [for (const sentence of sentences) { ... }] *)
Fixpoint scanSentences (key : string) (sentences : list string) : option string :=
  match sentences with
  | [] => None
  | sentence :: sentences' =>
      if includes (toLowerCase sentence) (toLowerCase key) then
        match firstWhole numberWithUnit sentence with
        | Some v => Some v
        | None =>
            if Nat.ltb (String.length sentence) 100 then Some (trim sentence)
            else scanSentences key sentences'
        end
      else scanSentences key sentences'
  end.

(** The three pattern families, as the body of the loop over the keys
    tries them. *)
Definition structural (text key : string) : option string :=
  firstCaptured (patterns key) text.

Definition bulleted (text key : string) : option string :=
  firstCaptured (bulletPatterns key) text.

Definition inSentence (text key : string) : option string :=
  if includes (toLowerCase text) (toLowerCase key)
  then scanSentences key (split sentenceBreak text)
  else None.

(** One iteration of [for (const key of keys)]. *)
Definition extractKey (text key : string) : option string :=
  match structural text key with
  | Some v => Some v
  | None =>
      match bulleted text key with
      | Some v => Some v
      | None => inSentence text key
      end
  end.

Fixpoint extractKeys (text : string) (keys : list string) : option string :=
  match keys with
  | [] => None
  | key :: keys' =>
      match extractKey text key with
      | Some v => Some v
      | None => extractKeys text keys'
      end
  end.

(** [extractFromResponse(text, primaryKey, ...alternateKeys)]; [null] is
    [None]. *)
Definition extractFromResponse (text primaryKey : string) (alternateKeys : list string)
  : option string :=
  extractKeys text (primaryKey :: alternateKeys).

(** ** Vocabulary of the properties of the extractor *)

(** No family matches for the key. *)
Definition noMatch (text key : string) : Prop :=
  structural text key = None /\ bulleted text key = None /\ inSentence text key = None.

(** The value the three families give for a key, tried in order. *)
Definition matchOf (text key : string) (v : string) : Prop :=
  structural text key = Some v \/
  (structural text key = None /\ bulleted text key = Some v) \/
  (structural text key = None /\ bulleted text key = None /\ inSentence text key = Some v).

(** The first key, in order, for which [f] yields a value. *)
Fixpoint firstKey (f : string -> option string) (keys : list string) : option string :=
  match keys with
  | [] => None
  | key :: keys' =>
      match f key with
      | Some v => Some v
      | None => firstKey f keys'
      end
  end.

(** The tie-break in the words of the specification, family order and
    then key order: the structural patterns for every key, then the
    bullet patterns for every key, then the sentences for every key. *)
Definition extractFamilyFirst (text primaryKey : string) (alternateKeys : list string)
  : option string :=
  let keys := primaryKey :: alternateKeys in
  match firstKey (structural text) keys with
  | Some v => Some v
  | None =>
      match firstKey (bulleted text) keys with
      | Some v => Some v
      | None => firstKey (inSentence text) keys
      end
  end.

Definition tieBreakAsStated : Prop :=
  forall (text primaryKey : string) (alternateKeys : list string),
    extractFromResponse text primaryKey alternateKeys =
      extractFamilyFirst text primaryKey alternateKeys.

(** A key with a code unit that is not white space. *)
Definition nonBlank (key : string) : bool := nonEmpty (trim key).

End Extract.

(* ===================================================================== *)
(** * JavaScript values, thrown values and asynchronous code *)
(* ===================================================================== *)

Module Js.
Import JsString.

(** A value of type [any]: numbers are the integers and [NaN], objects
    and arrays are plain data. *)
Inductive value : Type :=
| VUndefined
| VNull
| VBool (b : bool)
| VNum (n : Z)
| VNaN
| VStr (s : string)
| VObj (fields : list (string * value))
| VArr (items : list value).

(** What [if (v)], [!v] and [v || w] test. *)
Definition truthy (v : value) : bool :=
  match v with
  | VUndefined | VNull | VNaN => false
  | VBool b => b
  | VNum n => negb (n =? 0)%Z
  | VStr s => nonEmpty s
  | VObj _ | VArr _ => true
  end.

Definition nullish (v : value) : bool :=
  match v with VUndefined | VNull => true | _ => false end.

(** [new Error(message)] and the [TypeError] of a failed property read
    or call. *)
Definition newError (message : string) : value :=
  VObj [("name", VStr "Error"); ("message", VStr message)].

Definition typeError (message : string) : value :=
  VObj [("name", VStr "TypeError"); ("message", VStr message)].

Fixpoint field (fields : list (string * value)) (name : string) : value :=
  match fields with
  | [] => VUndefined
  | (n, v) :: fields' => if String.eqb n name then v else field fields' name
  end.

(** [x.name] of a value that is not [null] or [undefined]: a primitive
    and an array have no property of these names. *)
Definition optionalField (v : value) (name : string) : value :=
  match v with
  | VObj fields => field fields name
  | _ => VUndefined
  end.

(** How a statement completes: normally with a value, or abruptly with a
    thrown value. *)
Inductive result (A : Type) : Type :=
| Ok (a : A)
| Throw (e : value).
Arguments Ok {A} a.
Arguments Throw {A} e.

(** An [async] function over a state [S]: a state transformer; [None] is
    a run that does not come back (the fuel of a loop ran out). *)
Definition M (S A : Type) : Type := S -> option (result A * S).

Definition ret {S A} (a : A) : M S A := fun s => Some (Ok a, s).

Definition throw {S A} (e : value) : M S A := fun s => Some (Throw e, s).

Definition diverge {S A} : M S A := fun _ => None.

Definition bind {S A B} (c : M S A) (k : A -> M S B) : M S B :=
  fun s =>
    match c s with
    | Some (Ok a, s') => k a s'
    | Some (Throw e, s') => Some (Throw e, s')
    | None => None
    end.

(** [try { c } catch (error) { handler error }]: the effects of [c] up to
    the throw stay. *)
Definition tryCatch {S A} (c : M S A) (handler : value -> M S A) : M S A :=
  fun s =>
    match c s with
    | Some (Throw e, s') => handler e s'
    | other => other
    end.

(** A step that only changes the state. *)
Definition effect {S} (f : S -> S) : M S unit := fun s => Some (Ok tt, f s).

(** A step that reads the state. *)
Definition reads {S A} (f : S -> A) : M S A := fun s => Some (Ok (f s), s).

(** A computation that always comes back, with a value or a throw. *)
Definition settles {S A} (c : M S A) : Prop :=
  forall s, exists r s', c s = Some (r, s').

(** A computation that always comes back with a value. *)
Definition resolves {S A} (c : M S A) : Prop :=
  forall s, exists a s', c s = Some (Ok a, s').

End Js.

Declare Scope js_scope.
Delimit Scope js_scope with js.
Notation "x <- c ;; k" := (Js.bind c (fun x => k))
  (at level 100, c at next level, right associativity) : js_scope.
Notation "c ;; k" := (Js.bind c (fun _ => k))
  (at level 100, right associativity) : js_scope.

(* ===================================================================== *)
(** * The resilient call executor (openai.ts) *)
(* ===================================================================== *)

Module OpenAI.
Import JsString Js.
Local Open Scope js_scope.

(** [interface CacheEntry { timestamp: number; response: any }] *)
Record CacheEntry : Type := { timestamp : Z; response : value }.

Inductive level : Type := Log | Error.

(** What the module does to the outside, newest first in [trace]; a
    console line is held by the fixed text of its first argument. *)
Inductive event : Type :=
| Console (l : level) (text : string)
| Timeout (ms : Q)
| Fetch (uri : string)
| ReadBlob
| UploadBytes (filename : string)
| GetDownloadURL
| ReadFile (uri : string)
| ChatCompletion (imageUrl : string).

(** The state the module runs in: its cache ([responseCache], an object
    used as a map and keyed by strings of the form [name:json], none of
    which names a property of [Object.prototype]), the clock
    [Date.now()] reads, the
    number of [Math.random()] draws made, the call counter of a mocked
    operation, and the trace of console lines, timers and requests. *)
Record World : Type := {
  responseCache : gmap string CacheEntry;
  now : Z;
  draws : nat;
  calls : nat;
  trace : list event
}.

Definition withCache (f : gmap string CacheEntry -> gmap string CacheEntry) (w : World) : World :=
  {| responseCache := f (responseCache w); now := now w; draws := draws w;
     calls := calls w; trace := trace w |}.

Definition withNow (t : Z) (w : World) : World :=
  {| responseCache := responseCache w; now := t; draws := draws w;
     calls := calls w; trace := trace w |}.

Definition drawn (w : World) : World :=
  {| responseCache := responseCache w; now := now w; draws := S (draws w);
     calls := calls w; trace := trace w |}.

Definition called (w : World) : World :=
  {| responseCache := responseCache w; now := now w; draws := draws w;
     calls := S (calls w); trace := trace w |}.

Definition emit (e : event) (w : World) : World :=
  {| responseCache := responseCache w; now := now w; draws := draws w;
     calls := calls w; trace := e :: trace w |}.

(** The outside of the module.  An oracle is asked with the number of
    events so far, so the same request can fare differently over time. *)
Record Env : Type := {
  (** [process.env.EXPO_PUBLIC_OPENAI_API_KEY]: [None] when undefined *)
  EXPO_PUBLIC_OPENAI_API_KEY : option string;
  (** the [i]-th result of [Math.random()] *)
  random : nat -> Q;
  (** [n.toString(36).substring(2, 15)] *)
  base36 : Q -> string;
  (** [fetch(uri)], [response.blob()] *)
  fetchResult : nat -> string -> result value;
  blobResult : nat -> value -> result value;
  (** [uploadBytes(ref, blob)], [getDownloadURL(ref)] *)
  uploadBytesResult : nat -> string -> value -> result value;
  downloadURLResult : nat -> string -> result string;
  (** [FileSystem.readAsStringAsync(uri, { encoding: Base64 })] *)
  readAsStringResult : nat -> string -> result string;
  (** [openai.chat.completions.create] for an image URL *)
  completionResult : nat -> string -> result value;
  (** [ref(storage, filename)]: [Some e] when it throws [e] (no bucket
      is configured), [None] when it returns the reference *)
  refFails : option value;
  (** the milliseconds a request takes *)
  latency : nat -> Z
}.

Definition console (l : level) (text : string) : M World unit := effect (emit (Console l text)).

(** [const CACHE_EXPIRY = 24 * 60 * 60 * 1000] *)
Definition CACHE_EXPIRY : Z := 24 * 60 * 60 * 1000.

(** [const DEFAULT_MODEL = "gpt-4o"] *)
Definition DEFAULT_MODEL : string := "gpt-4o".

Section Executor.
Variable env : Env.

(** [getBackoffTime(retries)]: [2^retries * (0.5 + Math.random()) * 1000],
    at most 30000, in exact arithmetic. *)
Definition backoff (retries : nat) (u : Q) : Q :=
  let jitter := ((1 # 2) + u)%Q in
  Qmin (inject_Z (2 ^ Z.of_nat retries) * jitter * 1000)%Q 30000%Q.

Definition getBackoffTime (retries : nat) : M World Q :=
  fun w => Some (Ok (backoff retries (random env (draws w))), drawn w).

(** [setTimeout] takes whole milliseconds; the clock moves on by them. *)
Definition sleep (ms : Q) : M World unit :=
  fun w => Some (Ok tt, emit (Timeout ms) (withNow (now w + Qfloor ms) w)).

(** A key is provided when it is a non-empty string: [if (cacheKey)]. *)
Definition provided (cacheKey : option string) : option string :=
  match cacheKey with
  | Some key => if nonEmpty key then Some key else None
  | None => None
  end.

(** [getCachedResponse(cacheKey)]: the entry is an object, so [cached &&]
    tests its presence. *)
Definition getCachedResponse (cacheKey : string) : M World value :=
  fun w =>
    match responseCache w !! cacheKey with
    | Some cached =>
        if (now w - timestamp cached <? CACHE_EXPIRY)%Z
        then Some (Ok (response cached), emit (Console Log "Using cached response for:") w)
        else Some (Ok VNull, w)
    | None => Some (Ok VNull, w)
    end.

(** [setCachedResponse(cacheKey, response)] *)
Definition setCachedResponse (cacheKey : string) (r : value) : M World unit :=
  fun w =>
    Some (Ok tt, withCache (insert cacheKey {| timestamp := now w; response := r |}) w).

(** The body of [while (true)] in [withRetry], [fuel] iterations of it. *)
Fixpoint retryLoop (fuel : nat) (fn : M World value) (cacheKey : option string)
         (maxRetries : Z) (retries : nat) : M World value :=
  match fuel with
  | O => diverge
  | S fuel' =>
      tryCatch
        (result <- fn ;;
         match provided cacheKey with
         | Some key => setCachedResponse key result
         | None => ret tt
         end ;;
         ret result)
        (fun error =>
           (* [error.message] of [null] or [undefined] is a TypeError,
              thrown from the [catch] block and so out of the loop *)
           if nullish error then throw (typeError "Cannot read properties of undefined") else
           console Error "API call error:" ;;
           if (maxRetries <=? Z.of_nat retries)%Z then
             console Error "Maximum retries reached, giving up." ;;
             throw error
           else
             let retries := S retries in
             backoffTime <- getBackoffTime retries ;;
             console Log "API call failed. Retrying in" ;;
             sleep backoffTime ;;
             retryLoop fuel' fn cacheKey maxRetries retries)
  end.

(** [withRetry(fn, cacheKey = null, maxRetries = 5)].  A failing [fn] is
    tried once and then once more per retry, so the loop body runs at
    most [maxRetries + 1] times. *)
Definition withRetry (fn : M World value) (cacheKey : option string) (maxRetries : Z)
  : M World value :=
  let loop := retryLoop (S (Z.to_nat maxRetries)) fn cacheKey maxRetries 0 in
  match provided cacheKey with
  | Some key =>
      cached <- getCachedResponse key ;;
      if truthy cached then ret cached else loop
  | None => loop
  end.

Definition defaultMaxRetries : Z := 5.

End Executor.

(** ** Cache keys *)

Definition hexDigit (n : N) : ascii :=
  if (n <? 10)%N then ascii_of_N (48 + n) else ascii_of_N (87 + n).

Definition quote : string := String (ascii_of_N 34) EmptyString.
Definition backslash : string := String (ascii_of_N 92) EmptyString.

(** [JSON.stringify] of a string: quotes around it; the quote, the
    backslash and the control characters escaped. *)
Definition jsonEscape (c : ascii) : string :=
  let n := code c in
  if (n =? 34)%N then backslash +:+ quote else
  if (n =? 92)%N then backslash +:+ backslash else
  if (n =? 8)%N then backslash +:+ "b" else
  if (n =? 12)%N then backslash +:+ "f" else
  if (n =? 10)%N then backslash +:+ "n" else
  if (n =? 13)%N then backslash +:+ "r" else
  if (n =? 9)%N then backslash +:+ "t" else
  if (n <? 32)%N then
    backslash +:+ "u00" +:+ String (hexDigit (n / 16)) (String (hexDigit (n mod 16)) EmptyString)
  else String c EmptyString.

Fixpoint jsonEscapes (s : string) : string :=
  match s with
  | EmptyString => EmptyString
  | String c s' => jsonEscape c +:+ jsonEscapes s'
  end.

Definition stringify (s : string) : string := quote +:+ jsonEscapes s +:+ quote.

(** [generateCacheKey(functionName, params)] for a string [params]. *)
Definition generateCacheKey (functionName params : string) : string :=
  functionName +:+ ":" +:+ stringify params.

(* ===================================================================== *)
(** ** Media ingestion: [uploadImageToFirebase], [imageToBase64] *)
(* ===================================================================== *)

(** A number in a template string: its decimal digits. *)
Definition decimal (n : Z) : string := NilZero.string_of_int (Z.to_int n).

Section Upload.
Variable env : Env.

(** A request to the outside: the event is recorded, the oracle tells
    how the promise settles, and the clock moves on meanwhile. *)
Definition request {A} (e : event) (oracle : nat -> result A) : M World A :=
  fun w =>
    let i := length (trace w) in
    Some (oracle i, emit e (withNow (now w + latency env i) w)).

(** [Math.random()] *)
Definition mathRandom : M World Q :=
  fun w => Some (Ok (random env (draws w)), drawn w).

(** What the inner [catch (uploadError)] logs for the three codes it
    knows. *)
Definition uploadErrorHint (uploadError : value) : M World unit :=
  match optionalField uploadError "code" with
  | VStr code =>
      if String.eqb code "storage/unauthorized" then
        console Error "This appears to be a permissions error. Check your Firebase Storage rules."
      else if String.eqb code "storage/canceled" then
        console Error "Upload was canceled or timed out."
      else if String.eqb code "storage/unknown" then
        console Error "Network error or Firebase Storage service issue."
      else ret tt
  | _ => ret tt
  end.

(** The outer [try] block of [uploadImageToFirebase]. *)
Definition remoteUpload (uri : string) : M World string :=
  t <- reads now ;;
  u <- mathRandom ;;
  let filename := "food_images/" +:+ decimal t +:+ "-" +:+ base36 env u +:+ ".jpg" in
  match refFails env with Some e => throw e | None => ret tt end ;;
  response <- request (Fetch uri) (fun i => fetchResult env i uri) ;;
  blob <- request ReadBlob (fun i => blobResult env i response) ;;
  console Log "Attempting to upload image to Firebase Storage:" ;;
  console Log "Storage bucket:" ;;
  tryCatch
    (request (UploadBytes filename) (fun i => uploadBytesResult env i filename blob) ;;
     console Log "Image uploaded to Firebase Storage" ;;
     downloadURL <- request GetDownloadURL (fun i => downloadURLResult env i filename) ;;
     console Log "Image URL:" ;;
     ret downloadURL)
    (fun uploadError =>
       console Error "Firebase Storage upload error details:" ;;
       (* [uploadError.code] of [null] or [undefined] is a TypeError *)
       if nullish uploadError then throw (typeError "Cannot read properties of undefined") else
       console Error "- Error code:" ;;
       console Error "- Error message:" ;;
       console Error "- Server response:" ;;
       console Error "- Storage reference:" ;;
       uploadErrorHint uploadError ;;
       throw uploadError).

(** [imageToBase64(uri)] *)
Definition imageToBase64 (uri : string) : M World string :=
  tryCatch
    (request (ReadFile uri) (fun i => readAsStringResult env i uri))
    (fun error =>
       console Error "Error converting image to base64:" ;;
       throw error).

(** [uploadImageToFirebase(uri)] *)
Definition uploadImageToFirebase (uri : string) : M World string :=
  tryCatch
    (remoteUpload uri)
    (fun error =>
       console Error "Error uploading image to Firebase:" ;;
       console Log "Falling back to base64 encoding..." ;;
       base64 <- imageToBase64 uri ;;
       ret ("data:image/jpeg;base64," +:+ base64)).

End Upload.

(* ===================================================================== *)
(** ** The product analysis pipeline: [analyzeProductImage] *)
(* ===================================================================== *)

Import Regex Extract.

Record Nutrition : Type := {
  calories : string;
  fats : string;
  carbs : string;
  proteins : string
}.

(** What [analyzeProductImage] resolves to. *)
Record Analysis : Type := {
  productName : string;
  description : string;
  nutritionalInfo : option Nutrition
}.

(** The object the [catch] block returns. *)
Definition sentinel : Analysis :=
  {| productName := "Unknown Product";
     description := "Unable to analyze the product image at this time. Please try again later.";
     nutritionalInfo := None |}.

(** [response.choices[0]?.message?.content?.trim() || ''] *)
Definition responseContent (response : value) : M World string :=
  match response with
  | VUndefined | VNull => throw (typeError "Cannot read properties of undefined (reading 'choices')")
  | _ =>
      match optionalField response "choices" with
      | VUndefined | VNull => throw (typeError "Cannot read properties of undefined (reading '0')")
      | choices =>
          let first :=
            match choices with
            | VArr items => nth 0 items VUndefined
            | VObj fields => field fields "0"
            | VStr (String c _) => VStr (String c EmptyString)
            | _ => VUndefined
            end in
          match optionalField (optionalField first "message") "content" with
          | VUndefined | VNull => ret EmptyString
          | VStr content => ret (trim content)
          | _ => throw (typeError "content.trim is not a function")
          end
      end
  end.

(** [!s] for [s : string | null]. *)
Definition missing (s : option string) : bool :=
  match s with
  | Some v => negb (nonEmpty v)
  | None => true
  end.

(** [([^\n.,]+)] *)
Definition nameToken : regex :=
  Cap (plus (Char (fun c => negb (Ascii.eqb c LF || oneOf ".," c)))).

Definition aOrAn : regex := alt [litI "a"; litI "an"].

Definition namePatterns : list regex :=
  [ seq [litI "Product"; opt (seq [opt ws; litI "Name"]); chr ":"; sp; toEndOfLine];
    seq [litI "This is "; aOrAn; plus ws; nameToken];
    seq [litI "I can see "; aOrAn; plus ws; nameToken];
    seq [litI "The image shows "; aOrAn; plus ws; nameToken];
    seq [litI "This "; alt [litI "is"; litI "appears to be"]; chr " "; aOrAn; plus ws; nameToken];
    Cap (seq [Char isUpperAZ;
              plus (Char (fun c => isUpperAZ c || isLowerAZ c || isDigit c || Ascii.eqb c " "));
              chr " ";
              alt [lit "cereal"; lit "chips"; lit "snacks"; lit "drink"; lit "beverage";
                   lit "food"; lit "product"]]) ].

(** [responseText.split(/[.!?]/)[0]] *)
Definition firstSentence (responseText : string) : string :=
  nth 0 (split (Char (oneOf ".!?")) responseText) EmptyString.

(** The loop over [namePatterns] ([match && match[1]?.trim()], then
    [match[1].trim()]) and the last resort after it. *)
Definition fallbackName (responseText : string) : string :=
  match firstCaptured namePatterns responseText with
  | Some name => name
  | None =>
      let first := firstSentence responseText in
      if nonEmpty first && Nat.ltb 10 (String.length first) then trim first
      else "Unknown Product"
  end.

(** [[A-Z]] under the [i] flag. *)
Definition letterI : regex := Char (fun c => isUpperAZ (canonChar c)).

(** [([\s\S]+?)] *)
Definition lazyText : regex := Cap (lazyPlus anyChar).

Definition paragraphEnd : regex :=
  Ahead (alt [lit (String LF (String LF EmptyString)); seq [chr LF; letterI];
              litI "Nutritional Information:"; InputEnd]).

Definition paragraphPatterns : list regex :=
  [ seq [litI "Description:"; plus ws; lazyText; paragraphEnd];
    seq [litI "This product is "; lazyText; paragraphEnd];
    seq [lazyText;
         Ahead (alt [seq [chr LF; litI "Nutritional Information:"]; litI "Nutrition Facts:";
                     litI "Calories:"; InputEnd])] ].

(** [match && match[1]?.trim() && match[1].length > 20] *)
Fixpoint firstParagraph (pats : list regex) (text : string) : option string :=
  match pats with
  | [] => None
  | pat :: pats' =>
      match exec pat text with
      | Some (Matched _ (Some g)) =>
          if nonEmpty (trim g) && Nat.ltb 20 (String.length g) then Some (trim g)
          else firstParagraph pats' text
      | _ => firstParagraph pats' text
      end
  end.

Definition nutritionWords : list string := ["calorie"; "nutrition"; "protein"; "fat"; "carb"].

(** The first paragraph longer than 40 that names no nutrition word. *)
Fixpoint plainParagraph (paragraphs : list string) : option string :=
  match paragraphs with
  | [] => None
  | paragraph :: paragraphs' =>
      if forallb (fun word => negb (includes (toLowerCase paragraph) word)) nutritionWords
         && Nat.ltb 40 (String.length paragraph)
      then Some (trim paragraph)
      else plainParagraph paragraphs'
  end.

(** [/\n\s*\n/] *)
Definition blankLine : regex := seq [chr LF; sp; chr LF].

Definition fallbackDescription (responseText : string) : string :=
  let description := firstParagraph paragraphPatterns responseText in
  let description :=
    if missing description then plainParagraph (split blankLine responseText)
    else description in
  match description with
  | Some d => if nonEmpty d then d else responseText
  | None => responseText
  end.

(** [value || 'Not available'] *)
Definition orNotAvailable (s : option string) : string :=
  match s with
  | Some v => if nonEmpty v then v else "Not available"
  | None => "Not available"
  end.

(** The keys [analyzeProductImage] passes to [extractFromResponse]. *)
Definition callSiteKeys : list string :=
  ["product name"; "product"; "name"; "brand";
   "calories"; "caloric content"; "energy";
   "fats"; "fat"; "fat content"; "total fat";
   "carbohydrates"; "carbs"; "carb"; "total carbohydrates";
   "proteins"; "protein"; "protein content";
   "description"; "product description"; "about this product"; "overview"].

(** The parsing half of the [try] block. *)
Definition parseResponse (responseText : string) : Analysis :=
  let productName := extractFromResponse responseText "product name" ["product"; "name"; "brand"] in
  let productName :=
    match productName with
    | Some name => if nonEmpty name then name else fallbackName responseText
    | None => fallbackName responseText
    end in
  let calories := extractFromResponse responseText "calories" ["caloric content"; "energy"] in
  let fats := extractFromResponse responseText "fats" ["fat"; "fat content"; "total fat"] in
  let carbs := extractFromResponse responseText "carbohydrates" ["carbs"; "carb"; "total carbohydrates"] in
  let proteins := extractFromResponse responseText "proteins" ["protein"; "protein content"] in
  let description :=
    extractFromResponse responseText "description"
      ["product description"; "about this product"; "overview"] in
  let description :=
    match description with
    | Some d => if nonEmpty d then d else fallbackDescription responseText
    | None => fallbackDescription responseText
    end in
  {| productName := productName;
     description := description;
     nutritionalInfo :=
       Some {| calories := orNotAvailable calories;
               fats := orNotAvailable fats;
               carbs := orNotAvailable carbs;
               proteins := orNotAvailable proteins |} |}.

Section Pipeline.
Variable env : Env.

(** [!process.env.EXPO_PUBLIC_OPENAI_API_KEY] *)
Definition credentialAbsent : bool := missing (EXPO_PUBLIC_OPENAI_API_KEY env).

(** The operation handed to [withRetry]: one request to the chat
    completion endpoint with the system instruction and the image URL. *)
Definition createCompletion (imageUrl : string) : M World value :=
  request env (ChatCompletion imageUrl) (fun i => completionResult env i imageUrl).

(** The [try] block of [analyzeProductImage]. *)
Definition analyzeBody (imageUri : string) : M World Analysis :=
  (if credentialAbsent then
     console Error "OpenAI API key is not configured" ;;
     throw (newError "OpenAI API key is missing. Please check your configuration.")
   else ret tt) ;;
  let cacheKey := generateCacheKey "analyzeProductImage" imageUri in
  console Log "Uploading image to Firebase Storage..." ;;
  imageUrl <- uploadImageToFirebase env imageUri ;;
  console Log "Sending image to OpenAI for analysis..." ;;
  response <- withRetry env (createCompletion imageUrl) (Some cacheKey) defaultMaxRetries ;;
  responseText <- responseContent response ;;
  console Log "OpenAI response received" ;;
  ret (parseResponse responseText).

(** [analyzeProductImage(imageUri)] *)
Definition analyzeProductImage (imageUri : string) : M World Analysis :=
  tryCatch
    (analyzeBody imageUri)
    (fun error =>
       console Error "Error analyzing product image:" ;;
       ret sentinel).

End Pipeline.

(** An operation mocked with a call counter: its [i]-th invocation
    settles as the script says. *)
Definition counted (script : nat -> result value) : M World value :=
  fun w => Some (script (calls w), called w).

(** ** Vocabulary of the properties of the executor *)

(** The ends of the jitter interval of retry [n], in milliseconds. *)
Definition backoffLow (n : nat) : Q := (inject_Z (2 ^ Z.of_nat n) * (1 # 2) * 1000)%Q.
Definition backoffHigh (n : nat) : Q := (inject_Z (2 ^ Z.of_nat n) * (3 # 2) * 1000)%Q.

(** A wait of retry [n]: a time of the jitter interval, capped. *)
Definition backoffRange (n : nat) (t : Q) : Prop :=
  exists x, (backoffLow n <= x <= backoffHigh n)%Q /\ t = Qmin x 30000%Q.

(** The timers a trace holds, newest first. *)
Fixpoint waits (tr : list event) : list Q :=
  match tr with
  | [] => []
  | Timeout ms :: tr' => ms :: waits tr'
  | _ :: tr' => waits tr'
  end.

(** An operation that sets no timer of its own. *)
Definition setsNoTimer (fn : M World value) : Prop :=
  forall w r w', fn w = Some (r, w') -> waits (trace w') = waits (trace w).

(** The world in which the fallback of [uploadImageToFirebase] reads the
    local file: the world the failed upload left, with the two console
    lines of the [catch] block. *)
Definition fallbackWorld (w1 : World) : World :=
  emit (Console Log "Falling back to base64 encoding...")
    (emit (Console Error "Error uploading image to Firebase:") w1).

(** The name [uploadImageToFirebase] gives the object it uploads. *)
Definition uploadName (env : Env) (w : World) : string :=
  "food_images/" +:+ decimal (now w) +:+ "-" +:+ base36 env (random env (draws w)) +:+ ".jpg".

(** ** Scenarios *)

(** A world with an empty cache at time [t]. *)
Definition freshWorld (t : Z) : World :=
  {| responseCache := ∅; now := t; draws := 0; calls := 0; trace := [] |}.

Definition networkError : value := newError "Network request failed".

(** An outside where every request is rejected and [Math.random()]
    always yields [u]. *)
Definition offline (apiKey : option string) (u : Q) : Env :=
  {| EXPO_PUBLIC_OPENAI_API_KEY := apiKey;
     random := fun _ => u;
     base36 := fun _ => "k3x9q";
     fetchResult := fun _ _ => Throw networkError;
     blobResult := fun _ _ => Throw networkError;
     uploadBytesResult := fun _ _ _ => Throw networkError;
     downloadURLResult := fun _ _ => Throw networkError;
     readAsStringResult := fun _ _ => Throw networkError;
     completionResult := fun _ _ => Throw networkError;
     refFails := None;
     latency := fun _ => 0%Z |}.

(** The body of a chat completion whose first choice says [content]. *)
Definition completionOf (content : string) : value :=
  VObj [("choices", VArr [VObj [("message", VObj [("content", VStr content)])]])].

(** An outside where the object store refuses the upload, the local
    file reads as [base64] and the model endpoint settles as
    [completion]. *)
Definition storageDenied (base64 : string) (completion : result value) : Env :=
  {| EXPO_PUBLIC_OPENAI_API_KEY := Some "sk-test";
     random := fun _ => 0%Q;
     base36 := fun _ => "k3x9q";
     fetchResult := fun _ _ => Ok (VObj []);
     blobResult := fun _ _ => Ok (VObj []);
     uploadBytesResult := fun _ _ _ => Throw (VObj [("code", VStr "storage/unauthorized")]);
     downloadURLResult := fun _ _ => Throw networkError;
     readAsStringResult := fun _ _ => Ok base64;
     completionResult := fun _ _ => completion;
     refFails := None;
     latency := fun _ => 0%Z |}.

(** The requests and timers of a trace: what is left of it without the
    console lines. *)
Definition outside (tr : list event) : list event :=
  List.filter (fun e => match e with Console _ _ => false | _ => true end) tr.

(** The caching property read for every key and every result: after the
    operation ran and succeeded under [key], a call under [key] less
    than 24 hours later returns that result and does not invoke the
    operation. *)
Definition cacheHitAsStated : Prop :=
  forall (env : Env) (script : nat -> result value) (key : string) (maxRetries : Z)
         (w w1 w2 w3 : World) (v : value) (r : result value),
    withRetry env (counted script) (Some key) maxRetries w = Some (Ok v, w1) ->
    (calls w < calls w1)%nat ->
    responseCache w2 = responseCache w1 ->
    (now w2 - now w1 < CACHE_EXPIRY)%Z ->
    withRetry env (counted script) (Some key) maxRetries w2 = Some (r, w3) ->
    r = Ok v /\ calls w3 = calls w2.

(** ** Vocabulary of the further properties of the executor *)

(** The operation fails, with an error that is not [null] or
    [undefined], at its invocations [from], ..., [from + k - 1]. *)
Definition failsFrom (script : nat -> result value) (from k : nat) : Prop :=
  forall i, (i < k)%nat -> exists e, script (from + i)%nat = Throw e /\ nullish e = false.

(** Nothing is cached under the key the caller provided. *)
Definition nothingCached (cacheKey : option string) (w : World) : Prop :=
  forall key, provided cacheKey = Some key -> responseCache w !! key = None.

(** An operation that leaves the cache of the module alone. *)
Definition keepsCache (fn : M World value) : Prop :=
  forall w r w', fn w = Some (r, w') -> responseCache w' = responseCache w.

(** The milliseconds of all the timers of a trace. *)
Definition totalWait (tr : list event) : Q := fold_right Qplus 0%Q (waits tr).

(** An operation that fails twice and then answers. *)
Definition flaky (i : nat) : result value :=
  if Nat.ltb i 2 then Throw networkError else Ok (VStr "ok").

Definition hexValue (c : ascii) : N :=
  let n := code c in if (n <? 58)%N then (n - 48)%N else (n - 87)%N.

(** Reading back the body of a JSON string, up to its closing quote:
    the inverse of [jsonEscapes]. *)
Fixpoint jsonUnescapes (s : string) : string :=
  match s with
  | EmptyString => EmptyString
  | String c s1 =>
      if (code c =? 34)%N then EmptyString
      else if (code c =? 92)%N then
        match s1 with
        | EmptyString => EmptyString
        | String d s2 =>
            let n := code d in
            if (n =? 98)%N then String (ascii_of_N 8) (jsonUnescapes s2)
            else if (n =? 102)%N then String (ascii_of_N 12) (jsonUnescapes s2)
            else if (n =? 110)%N then String (ascii_of_N 10) (jsonUnescapes s2)
            else if (n =? 114)%N then String (ascii_of_N 13) (jsonUnescapes s2)
            else if (n =? 116)%N then String (ascii_of_N 9) (jsonUnescapes s2)
            else if (n =? 117)%N then
              match s2 with
              | String _ (String _ (String h (String l s3))) =>
                  String (ascii_of_N (16 * hexValue h + hexValue l)) (jsonUnescapes s3)
              | _ => EmptyString
              end
            else String d (jsonUnescapes s2)
        end
      else String c (jsonUnescapes s1)
  end.

(** ** Vocabulary of the further properties of the pipeline *)

(** The image URLs of the requests to the model a trace holds, newest
    first. *)
Fixpoint completions (tr : list event) : list string :=
  match tr with
  | [] => []
  | ChatCompletion imageUrl :: tr' => imageUrl :: completions tr'
  | _ :: tr' => completions tr'
  end.

(** A computation that leaves the cache alone, asks the model nothing
    and sets no timer. *)
Definition aside {A} (c : M World A) : Prop :=
  forall w r w',
    c w = Some (r, w') ->
    responseCache w' = responseCache w /\
    completions (trace w') = completions (trace w) /\
    waits (trace w') = waits (trace w).

(** A computation that asks the model at most [n] times and sets at
    most [m] timers. *)
Definition spends (n m : nat) {A} (c : M World A) : Prop :=
  forall w r w',
    c w = Some (r, w') ->
    length (completions (trace w')) <= length (completions (trace w)) + n /\
    length (waits (trace w')) <= length (waits (trace w)) + m.
(** What the parsing gives for an empty answer of the model. *)
Definition emptyAnswer : Analysis :=
  {| productName := "Unknown Product";
     description := EmptyString;
     nutritionalInfo :=
       Some {| calories := "Not available"; fats := "Not available";
               carbs := "Not available"; proteins := "Not available" |} |}.

(** Every field the screen shows is filled in. *)
Definition filledIn (n : Nutrition) : Prop :=
  calories n <> EmptyString /\ fats n <> EmptyString /\
  carbs n <> EmptyString /\ proteins n <> EmptyString.
(** A world at time [t] whose cache holds, stamped 0, an answer of the
    model for the image. *)
Definition remembered (imageUri content : string) (t : Z) : World :=
  {| responseCache :=
       <[generateCacheKey "analyzeProductImage" imageUri :=
           {| timestamp := 0; response := completionOf content |}]> ∅;
     now := t; draws := 0; calls := 0; trace := [] |}.
End OpenAI.

(* ===================================================================== *)
(** * The history store (productService.ts) *)
(* ===================================================================== *)

Module History.
Import JsString Js.
Local Open Scope js_scope.

Record RecallInfo : Type := {
  isRecalled : bool;
  productName : string;
  manufacturer : string;
  lotNumber : string;
  recallDate : string;
  recallReason : string
}.

Record NutritionalInfo : Type := {
  calories : string;
  fats : string;
  carbs : string;
  proteins : string
}.

(** [interface ProductDetails]; an optional field is [None] when it is
    [undefined]; [scanDate] is the time value of the [Date], in
    milliseconds. *)
Record ProductDetails : Type := {
  recallInfo : RecallInfo;
  nutritionalInfo : option NutritionalInfo;
  description : option string;
  imageUri : option string;
  scanDate : Z
}.

(** A document of the [scanHistory] collection ([firestoreData]); a
    [Timestamp] is held as the time value it was made from. *)
Record ScanDoc : Type := {
  docUserId : string;
  docRecallInfo : RecallInfo;
  docNutritionalInfo : option NutritionalInfo;
  docDescription : string;
  docImageUri : string;
  docScanDate : Z;
  docCreatedAt : Z
}.

(** An element of the local list ([localScanData]): the document with
    an [id] and its two dates as ISO strings, held as time values. *)
Record LocalScan : Type := {
  localId : string;
  localDoc : ScanDoc
}.

(** What a key of the local storage holds: the JSON text of a list of
    local scans (what [saveScanHistory] writes), or a text that
    [JSON.parse] refuses. *)
Inductive stored : Type :=
| HistoryJson (items : list LocalScan)
| Malformed.

Inductive level : Type := Log | Error.

(** A console line is held by the fixed text of its first argument (the
    pictograph that opens some of them left out). *)
Inductive event : Type :=
| Console (l : level) (text : string)
| AddDoc
| GetDocs (userId : string)
| GetItem (key : string)
| SetItem (key : string).

(** The remote collection, the local storage, the clock and the trace
    (newest first). *)
Record Stores : Type := {
  scanHistory : list ScanDoc;
  asyncStorage : gmap string stored;
  now : Z;
  trace : list event
}.

Definition emit (e : event) (w : Stores) : Stores :=
  {| scanHistory := scanHistory w; asyncStorage := asyncStorage w;
     now := now w; trace := e :: trace w |}.

Definition addDocument (d : ScanDoc) (w : Stores) : Stores :=
  {| scanHistory := scanHistory w ++ [d]; asyncStorage := asyncStorage w;
     now := now w; trace := trace w |}.

Definition setItem (key : string) (v : stored) (w : Stores) : Stores :=
  {| scanHistory := scanHistory w; asyncStorage := <[key := v]> (asyncStorage w);
     now := now w; trace := trace w |}.

(** How the requests to the two stores fail: asked with the number of
    events so far, [Some e] is a rejection with [e]. *)
Record Env : Type := {
  addDocFails : nat -> option value;
  getDocsFails : nat -> option value;
  getItemFails : nat -> option value;
  setItemFails : nat -> option value;
  (** the milliseconds a request takes *)
  latency : nat -> Z
}.

Definition console (l : level) (text : string) : M Stores unit := effect (emit (Console l text)).

Definition elapse (ms : Z) (w : Stores) : Stores :=
  {| scanHistory := scanHistory w; asyncStorage := asyncStorage w;
     now := now w + ms; trace := trace w |}.

Definition historyKey (userId : string) : string := "scanHistory_" +:+ userId.

Definition decimal (n : Z) : string := NilZero.string_of_int (Z.to_int n).

(** [String(error)], as far as the test for a permissions error reads
    it: the text of a string, the name and message of an error object. *)
Definition errorText (e : value) : string :=
  match e with
  | VStr s => s
  | VObj fields =>
      match field fields "name", field fields "message" with
      | VStr n, VStr m => n +:+ ": " +:+ m
      | _, VStr m => "Error: " +:+ m
      | _, _ => "[object Object]"
      end
  | VUndefined => "undefined"
  | VNull => "null"
  | VBool true => "true"
  | VBool false => "false"
  | VNum n => decimal n
  | VNaN => "NaN"
  | VArr _ => EmptyString
  end.

(** [a || b] on optional strings and on strings. *)
Definition orEmpty (s : option string) : string :=
  match s with Some v => v | None => EmptyString end.

Definition orUndefined (s : string) : option string :=
  if nonEmpty s then Some s else None.

(** The time values [Timestamp.fromDate] accepts: from 0001-01-01 to
    before 10000-01-01, that is whole seconds from -62135596800 to
    below 253402300800.  [saveScanHistory] is embedded for a scan date
    of this range.  For a date outside it [Timestamp.fromDate] throws
    before anything is written and the outer [catch] logs and returns,
    both stores as they were: what is stated below about a record that
    is written is stated for a [storable] scan date. *)
Definition storable (t : Z) : bool :=
  (-62135596800000 <=? t)%Z && (t <? 253402300800000)%Z.

Section Store.
Variable env : Env.

(** A request: recorded, then rejected as the oracle says or carried
    out on the stores; the clock moves on meanwhile. *)
Definition request {A} (e : event) (fails : nat -> option value) (run : Stores -> A * Stores)
  : M Stores A :=
  fun w =>
    let i := length (trace w) in
    let w1 := emit e (elapse (latency env i) w) in
    match fails i with
    | Some err => Some (Throw err, w1)
    | None => let (a, w2) := run w1 in Some (Ok a, w2)
    end.

(** [addDoc(collection(db, 'scanHistory'), firestoreData)] *)
Definition addDoc (d : ScanDoc) : M Stores unit :=
  request AddDoc (addDocFails env) (fun w => (tt, addDocument d w)).

(** [getDocs(query(..., where('userId', '==', userId)))] *)
Definition getDocs (userId : string) : M Stores (list ScanDoc) :=
  request (GetDocs userId) (getDocsFails env)
    (fun w => (List.filter (fun d => String.eqb (docUserId d) userId) (scanHistory w), w)).

(** [AsyncStorage.getItem(key)]: [None] is [null]. *)
Definition getItem (key : string) : M Stores (option stored) :=
  request (GetItem key) (getItemFails env) (fun w => (asyncStorage w !! key, w)).

(** [AsyncStorage.setItem(key, JSON.stringify(items))] *)
Definition writeItem (key : string) (items : list LocalScan) : M Stores unit :=
  request (SetItem key) (setItemFails env) (fun w => (tt, setItem key (HistoryJson items) w)).

(** [localHistoryStr ? JSON.parse(localHistoryStr) : []] *)
Definition parseHistory (item : option stored) : M Stores (list LocalScan) :=
  match item with
  | None => ret []
  | Some (HistoryJson items) => ret items
  | Some Malformed => throw (VObj [("name", VStr "SyntaxError")])
  end.

(** The fallback inside [catch (firestoreError)] of [saveScanHistory]. *)
Definition saveLocally (userId : string) (firestoreData : ScanDoc) : M Stores unit :=
  tryCatch
    (localHistoryStr <- getItem (historyKey userId) ;;
     localHistory <- parseHistory localHistoryStr ;;
     t <- reads now ;;
     let localScanData :=
       {| localId := "local_" +:+ decimal t;
          localDoc := {| docUserId := docUserId firestoreData;
                         docRecallInfo := docRecallInfo firestoreData;
                         docNutritionalInfo := docNutritionalInfo firestoreData;
                         docDescription := docDescription firestoreData;
                         docImageUri := docImageUri firestoreData;
                         docScanDate := docScanDate firestoreData;
                         docCreatedAt := t |} |} in
     writeItem (historyKey userId) (localHistory ++ [localScanData]) ;;
     console Log "Scan history saved successfully to local storage")
    (fun asyncStorageError => console Error "Error saving to AsyncStorage:").

(** [saveScanHistory(userId, productDetails)], for a scan date that is
    [storable]: the conversions [Timestamp.fromDate] and [Timestamp.now]
    that build the document then return. *)
Definition saveScanHistory (userId : string) (productDetails : ProductDetails) : M Stores unit :=
  tryCatch
    (if negb (nonEmpty userId) then
       console Log "No user ID provided, skipping scan history save"
     else
       t <- reads now ;;
       let firestoreData :=
         {| docUserId := userId;
            docRecallInfo := recallInfo productDetails;
            docNutritionalInfo := nutritionalInfo productDetails;
            docDescription := orEmpty (description productDetails);
            docImageUri := orEmpty (imageUri productDetails);
            docScanDate := scanDate productDetails;
            docCreatedAt := t |} in
       tryCatch
         (addDoc firestoreData ;;
          console Log "Scan history saved successfully to Firestore")
         (fun firestoreError =>
            console Error "Firebase error saving scan history:" ;;
            console Log "Could not save to Firestore, saving to local storage instead" ;;
            saveLocally userId firestoreData ;;
            let errorMessage := toLowerCase (errorText firestoreError) in
            if includes errorMessage "permission" || includes errorMessage "unauthorized"
            then console Log "This appears to be a permissions error. Check your Firestore security rules."
            else ret tt))
    (fun error => console Error "Error in saveScanHistory function:").

(** The conversion both branches of [getScanHistory] apply to a record. *)
Definition toDetails (d : ScanDoc) : ProductDetails :=
  {| recallInfo := docRecallInfo d;
     nutritionalInfo := docNutritionalInfo d;
     description := orUndefined (docDescription d);
     imageUri := orUndefined (docImageUri d);
     scanDate := docScanDate d |}.

(** [Array.prototype.sort] with [(a, b) => b.scanDate - a.scanDate]: a
    stable sort, newest first. *)
Fixpoint insertNewest (x : ProductDetails) (l : list ProductDetails) : list ProductDetails :=
  match l with
  | [] => [x]
  | y :: l' =>
      if (scanDate y <=? scanDate x)%Z then x :: l else y :: insertNewest x l'
  end.

Definition sortNewestFirst (l : list ProductDetails) : list ProductDetails :=
  fold_right insertNewest [] l.

(** [getScanHistory(userId)] *)
Definition getScanHistory (userId : string) : M Stores (list ProductDetails) :=
  tryCatch
    (tryCatch
       (docs <- getDocs userId ;;
        let scanHistory := map toDetails docs in
        console Log "Successfully retrieved scan history from Firestore" ;;
        ret (sortNewestFirst scanHistory))
       (fun firestoreError =>
          console Error "Error getting scan history from Firestore:" ;;
          console Log "Falling back to local storage for scan history" ;;
          localHistoryStr <- getItem (historyKey userId) ;;
          match localHistoryStr with
          | None => ret []
          | Some _ =>
              localHistory <- parseHistory localHistoryStr ;;
              let scanHistory := map (fun item => toDetails (localDoc item)) localHistory in
              console Log "Successfully retrieved scan history from local storage" ;;
              ret (sortNewestFirst scanHistory)
          end))
    (fun error =>
       console Error "Error getting scan history:" ;;
       ret []).

End Store.

(** ** Vocabulary of the properties of the history store *)

(** Newest first by scan time. *)
Definition newestFirst (l : list ProductDetails) : Prop :=
  StronglySorted (fun a b => (scanDate b <= scanDate a)%Z) l.

(** Nothing was saved for [userId]: no document of the remote
    collection carries it and the local storage has no list for it. *)
Definition noSaves (userId : string) (w : Stores) : Prop :=
  List.filter (fun d => String.eqb (docUserId d) userId) (scanHistory w) = [] /\
  asyncStorage w !! historyKey userId = None.

(** The list of local scans a key holds ([null] reads as the empty list). *)
Definition localList (item : option stored) : option (list LocalScan) :=
  match item with
  | None => Some []
  | Some (HistoryJson items) => Some items
  | Some Malformed => None
  end.

(** The document [saveScanHistory] builds at time [t]. *)
Definition documentOf (userId : string) (d : ProductDetails) (t : Z) : ScanDoc :=
  {| docUserId := userId;
     docRecallInfo := recallInfo d;
     docNutritionalInfo := nutritionalInfo d;
     docDescription := orEmpty (description d);
     docImageUri := orEmpty (imageUri d);
     docScanDate := scanDate d;
     docCreatedAt := t |}.

(** The record the fallback of [saveScanHistory] appends at time [t]. *)
Definition localScanOf (doc : ScanDoc) (t : Z) : LocalScan :=
  {| localId := "local_" +:+ decimal t;
     localDoc := {| docUserId := docUserId doc;
                    docRecallInfo := docRecallInfo doc;
                    docNutritionalInfo := docNutritionalInfo doc;
                    docDescription := docDescription doc;
                    docImageUri := docImageUri doc;
                    docScanDate := docScanDate doc;
                    docCreatedAt := t |} |}.

(** The round trip read for every user, every outcome of the requests
    and every pair of paths: after [save], [list] holds an entry with
    the saved recall information, and is sorted newest first. *)
Definition roundTripAsStated : Prop :=
  forall (env : Env) (userId : string) (d : ProductDetails) (w w1 w2 : Stores)
         (l : list ProductDetails),
    saveScanHistory env userId d w = Some (Ok tt, w1) ->
    getScanHistory env userId w1 = Some (Ok l, w2) ->
    (exists p, In p l /\ recallInfo p = recallInfo d) /\ newestFirst l.

(** ** Scenarios *)

Definition permissionDenied : value :=
  VObj [("name", VStr "FirebaseError"); ("message", VStr "Missing or insufficient permissions.")].

(** Writes to the remote collection are refused, everything else works. *)
Definition writesDenied : Env :=
  {| addDocFails := fun _ => Some permissionDenied;
     getDocsFails := fun _ => None;
     getItemFails := fun _ => None;
     setItemFails := fun _ => None;
     latency := fun _ => 0%Z |}.

(** The remote collection is out of reach, the local storage works. *)
Definition remoteDown : Env :=
  {| addDocFails := fun _ => Some permissionDenied;
     getDocsFails := fun _ => Some permissionDenied;
     getItemFails := fun _ => None;
     setItemFails := fun _ => None;
     latency := fun _ => 0%Z |}.

(** Everything works. *)
Definition allUp : Env :=
  {| addDocFails := fun _ => None;
     getDocsFails := fun _ => None;
     getItemFails := fun _ => None;
     setItemFails := fun _ => None;
     latency := fun _ => 0%Z |}.

(** Nothing works. *)
Definition allDown : Env :=
  {| addDocFails := fun _ => Some permissionDenied;
     getDocsFails := fun _ => Some permissionDenied;
     getItemFails := fun _ => Some permissionDenied;
     setItemFails := fun _ => Some permissionDenied;
     latency := fun _ => 0%Z |}.

Definition noRecall (name : string) : RecallInfo :=
  {| isRecalled := false; productName := name; manufacturer := EmptyString;
     lotNumber := EmptyString; recallDate := EmptyString; recallReason := EmptyString |}.

Definition scanOf (name : string) (t : Z) : ProductDetails :=
  {| recallInfo := noRecall name; nutritionalInfo := None; description := None;
     imageUri := None; scanDate := t |}.

(** The stores before anything was saved. *)
Definition emptyStores (t : Z) : Stores :=
  {| scanHistory := []; asyncStorage := ∅; now := t; trace := [] |}.

(** ** Vocabulary of the further properties of the history store *)

(** The documents of [userId] in the remote collection, in the order
    they were added. *)
Definition remoteOf (userId : string) (w : Stores) : list ScanDoc :=
  List.filter (fun d => String.eqb (docUserId d) userId) (scanHistory w).

(** What the local storage holds for [userId]. *)
Definition localOf (userId : string) (w : Stores) : option stored :=
  asyncStorage w !! historyKey userId.

(** The details as a list gives them back: an empty description or
    image URI comes back as [undefined]. *)
Definition asListed (d : ProductDetails) : ProductDetails :=
  {| recallInfo := recallInfo d;
     nutritionalInfo := nutritionalInfo d;
     description := orUndefined (orEmpty (description d));
     imageUri := orUndefined (orEmpty (imageUri d));
     scanDate := scanDate d |}.

(** One operation of the history store, by any user. *)
Inductive step (env : Env) : Stores -> Stores -> Prop :=
| step_save (userId : string) (d : ProductDetails) (w w' : Stores) :
    saveScanHistory env userId d w = Some (Ok tt, w') -> step env w w'
| step_list (userId : string) (l : list ProductDetails) (w w' : Stores) :
    getScanHistory env userId w = Some (Ok l, w') -> step env w w'.

(** The stores after any number of operations. *)
Definition reaches (env : Env) : Stores -> Stores -> Prop := rtc (step env).

(** Nothing the stores held for [u] is lost from [w] to [w']. *)
Definition keepsHistory (u : string) (w w' : Stores) : Prop :=
  (exists more, remoteOf u w' = (remoteOf u w ++ more)%list) /\
  (forall items,
      localOf u w = Some (HistoryJson items) ->
      exists more, localOf u w' = Some (HistoryJson (items ++ more)%list)) /\
  (localOf u w = Some Malformed -> localOf u w' = Some Malformed).

(** The stores after user [u1] saved one scan to the remote
    collection. *)
Definition oneRemoteScan : Stores :=
  {| scanHistory := [documentOf "u1" (scanOf "Milk" 5) 0]; asyncStorage := ∅;
     now := 10; trace := [] |}.

(** The stores after [u1] saved a scan of milk to the remote
    collection, and after [u2] then saved a scan of juice. *)
Definition afterMilk : Stores :=
  {| scanHistory := [documentOf "u1" (scanOf "Milk" 5) 0]; asyncStorage := ∅; now := 0;
     trace := [Console Log "Scan history saved successfully to Firestore"; AddDoc] |}.

Definition afterJuice : Stores :=
  {| scanHistory := [documentOf "u1" (scanOf "Milk" 5) 0; documentOf "u2" (scanOf "Juice" 7) 0];
     asyncStorage := ∅; now := 0;
     trace := [Console Log "Scan history saved successfully to Firestore"; AddDoc;
               Console Log "Scan history saved successfully to Firestore"; AddDoc] |}.

End History.

(* ===================================================================== *)
(** * The recall check (productService.ts) *)
(* ===================================================================== *)

Module Recall.
Import JsString Js History.
Local Open Scope js_scope.

(** [const mockRecalledProducts = [...]] *)
Definition mockRecalledProducts : list string :=
  ["TestProduct123"; "5901234123457"; "Apple Juice Organic"].

Section Verify.
(** [new Date(t).toISOString().split('T')[0]]: the day of a time value. *)
Variable toISODate : Z -> string.

(** [verifyProductRecall(productIdentifier)] *)
Definition verifyProductRecall (productIdentifier : string) : M Stores RecallInfo :=
  tryCatch
    (let isRecalled :=
       existsb (fun product =>
                  includes (toLowerCase productIdentifier) (toLowerCase product))
               mockRecalledProducts in
     if isRecalled then
       t <- reads now ;;
       ret {| isRecalled := true;
              productName := productIdentifier;
              manufacturer := "Sample Manufacturer";
              lotNumber := "LOT-2023-1234";
              recallDate := toISODate t;
              recallReason := "Potential contamination with foreign materials" |}
     else
       ret {| isRecalled := false;
              productName := productIdentifier;
              manufacturer := EmptyString;
              lotNumber := EmptyString;
              recallDate := EmptyString;
              recallReason := EmptyString |})
    (fun error =>
       console Error "Error verifying product recall:" ;;
       throw (newError "Failed to verify if the product is recalled")).

End Verify.
End Recall.

(* ===================================================================== *)
(** * The screens that call the services (app/(tabs))

    The state of a screen ([useState]) is a record; a setter replaces a
    field.  The two service modules keep their worlds; they read one
    clock, so a step of one module moves the clock of the other. *)
(* ===================================================================== *)

Module Screens.
Import JsString Js.
Local Open Scope js_scope.

(** The state of [HomeScreen] that [processImage] writes. *)
Record Home : Type := {
  isLoading : bool;
  productName : string;
  recallInfo : option History.RecallInfo;
  nutritionalInfo : option OpenAI.Nutrition;
  description : option string;
  error : option string
}.

(** The state of [ScanHistoryScreen]. *)
Record HistoryView : Type := {
  scanHistory : list History.ProductDetails;
  historyLoading : bool;
  historyError : option string
}.

Inductive level : Type := Log | Error.

(** The application: the worlds of the two services, the state of the
    two screens and the console lines of the screens, newest first. *)
Record App : Type := {
  world : OpenAI.World;
  stores : History.Stores;
  home : Home;
  historyView : HistoryView;
  lines : list (level * string)
}.

Definition setClock (t : Z) (st : History.Stores) : History.Stores :=
  {| History.scanHistory := History.scanHistory st;
     History.asyncStorage := History.asyncStorage st;
     History.now := t;
     History.trace := History.trace st |}.

(** A step of openai.ts. *)
Definition inWorld {A} (c : M OpenAI.World A) : M App A :=
  fun s =>
    match c (world s) with
    | Some (r, w') =>
        Some (r, {| world := w'; stores := setClock (OpenAI.now w') (stores s);
                    home := home s; historyView := historyView s; lines := lines s |})
    | None => None
    end.

(** A step of productService.ts. *)
Definition inStores {A} (c : M History.Stores A) : M App A :=
  fun s =>
    match c (stores s) with
    | Some (r, st') =>
        Some (r, {| world := OpenAI.withNow (History.now st') (world s); stores := st';
                    home := home s; historyView := historyView s; lines := lines s |})
    | None => None
    end.

Definition console (l : level) (text : string) : M App unit :=
  effect (fun s => {| world := world s; stores := stores s; home := home s;
                      historyView := historyView s; lines := (l, text) :: lines s |}).

Definition setHome (f : Home -> Home) : M App unit :=
  effect (fun s => {| world := world s; stores := stores s; home := f (home s);
                      historyView := historyView s; lines := lines s |}).

Definition setHistoryView (f : HistoryView -> HistoryView) : M App unit :=
  effect (fun s => {| world := world s; stores := stores s; home := home s;
                      historyView := f (historyView s); lines := lines s |}).

Definition setIsLoading (b : bool) : M App unit :=
  setHome (fun h => {| isLoading := b; productName := productName h;
                       recallInfo := recallInfo h; nutritionalInfo := nutritionalInfo h;
                       description := description h; error := error h |}).

Definition setProductName (name : string) : M App unit :=
  setHome (fun h => {| isLoading := isLoading h; productName := name;
                       recallInfo := recallInfo h; nutritionalInfo := nutritionalInfo h;
                       description := description h; error := error h |}).

Definition setRecallInfo (r : option History.RecallInfo) : M App unit :=
  setHome (fun h => {| isLoading := isLoading h; productName := productName h;
                       recallInfo := r; nutritionalInfo := nutritionalInfo h;
                       description := description h; error := error h |}).

Definition setNutritionalInfo (n : option OpenAI.Nutrition) : M App unit :=
  setHome (fun h => {| isLoading := isLoading h; productName := productName h;
                       recallInfo := recallInfo h; nutritionalInfo := n;
                       description := description h; error := error h |}).

Definition setDescription (d : option string) : M App unit :=
  setHome (fun h => {| isLoading := isLoading h; productName := productName h;
                       recallInfo := recallInfo h; nutritionalInfo := nutritionalInfo h;
                       description := d; error := error h |}).

Definition setError (e : option string) : M App unit :=
  setHome (fun h => {| isLoading := isLoading h; productName := productName h;
                       recallInfo := recallInfo h; nutritionalInfo := nutritionalInfo h;
                       description := description h; error := e |}).

Definition setScanHistory (l : list History.ProductDetails) : M App unit :=
  setHistoryView (fun v => {| scanHistory := l; historyLoading := historyLoading v;
                              historyError := historyError v |}).

Definition setHistoryLoading (b : bool) : M App unit :=
  setHistoryView (fun v => {| scanHistory := scanHistory v; historyLoading := b;
                              historyError := historyError v |}).

Definition setHistoryError (e : option string) : M App unit :=
  setHistoryView (fun v => {| scanHistory := scanHistory v; historyLoading := historyLoading v;
                              historyError := e |}).

(** [try { c } finally { f }] *)
Definition finally {S A} (c : M S A) (f : M S unit) : M S A :=
  fun s =>
    match c s with
    | Some (r, s1) =>
        match f s1 with
        | Some (Ok _, s2) => Some (r, s2)
        | Some (Throw e, s2) => Some (Throw e, s2)
        | None => None
        end
    | None => None
    end.

(** The nutrition of an analysis as a record of productService.ts: the
    same object. *)
Definition toNutritionalInfo (n : OpenAI.Nutrition) : History.NutritionalInfo :=
  {| History.calories := OpenAI.calories n;
     History.fats := OpenAI.fats n;
     History.carbs := OpenAI.carbs n;
     History.proteins := OpenAI.proteins n |}.

(** The recall information [processImage] makes up when the check
    throws. *)
Definition neutralRecall (name : string) : History.RecallInfo :=
  {| History.isRecalled := false;
     History.productName := name;
     History.manufacturer := EmptyString;
     History.lotNumber := EmptyString;
     History.recallDate := EmptyString;
     History.recallReason := "Unable to verify recall status at this time" |}.

(** [description || 'No description available'] *)
Definition orNoDescription (d : string) : string :=
  if nonEmpty d then d else "No description available".

Section Home.
Variable env : OpenAI.Env.
Variable storeEnv : History.Env.
Variable toISODate : Z -> string.

(** The [ProductDetails] step 3 of [processImage] saves. *)
Definition detailsOf (productAnalysis : OpenAI.Analysis) (recall : History.RecallInfo)
           (uri : string) (t : Z) : History.ProductDetails :=
  {| History.recallInfo := recall;
     History.nutritionalInfo :=
       option_map toNutritionalInfo (OpenAI.nutritionalInfo productAnalysis);
     History.description := Some (orNoDescription (OpenAI.description productAnalysis));
     History.imageUri := Some uri;
     History.scanDate := t |}.

(** [processImage(uri)]; [user] is the signed-in user's [uid], [None]
    when nobody is signed in. *)
Definition processImage (user : option string) (uri : string) : M App unit :=
  setIsLoading true ;;
  setError None ;;
  setRecallInfo None ;;
  setNutritionalInfo None ;;
  setDescription None ;;
  finally
    (tryCatch
       (console Log "Analyzing image to identify product..." ;;
        tryCatch
          (productAnalysis <- inWorld (OpenAI.analyzeProductImage env uri) ;;
           setProductName (OpenAI.productName productAnalysis) ;;
           setDescription (Some (OpenAI.description productAnalysis)) ;;
           match OpenAI.nutritionalInfo productAnalysis with
           | Some n => setNutritionalInfo (Some n)
           | None => ret tt
           end ;;
           recall <-
             tryCatch
               (console Log "Checking if product is recalled..." ;;
                recall <- inStores (Recall.verifyProductRecall toISODate
                                      (OpenAI.productName productAnalysis)) ;;
                setRecallInfo (Some recall) ;;
                ret recall)
               (fun recallError =>
                  console Error "Error verifying recall status:" ;;
                  let recall := neutralRecall (OpenAI.productName productAnalysis) in
                  setRecallInfo (Some recall) ;;
                  ret recall) ;;
           match user with
           | Some uid =>
               tryCatch
                 (t <- reads (fun s => History.now (stores s)) ;;
                  let productDetails := detailsOf productAnalysis recall uri t in
                  inStores (History.saveScanHistory storeEnv uid productDetails) ;;
                  console Log "Scan history saved successfully")
                 (fun saveError => console Error "Error saving scan history:")
           | None => ret tt
           end)
          (fun analysisError =>
             console Error "Error analyzing image:" ;;
             setError (Some "Could not analyze the image. Please try again with a clearer picture of the product.")))
       (fun error =>
          console Error "Error processing image:" ;;
          setError (Some "Failed to process the image. Please try again.")))
    (setIsLoading false).

(** [loadScanHistory()] of [ScanHistoryScreen]. *)
Definition loadScanHistory (user : option string) : M App unit :=
  match user with
  | None => setHistoryLoading false
  | Some uid =>
      finally
        (tryCatch
           (setHistoryLoading true ;;
            setHistoryError None ;;
            history <- inStores (History.getScanHistory storeEnv uid) ;;
            setScanHistory history)
           (fun error =>
              console Error "Error loading scan history:" ;;
              setHistoryError (Some "Failed to load scan history")))
        (setHistoryLoading false)
  end.

End Home.

(** ** Scenarios *)

(** The application when it starts, at time [t]: nothing scanned,
    nothing stored. *)
Definition startApp (t : Z) : App :=
  {| world := OpenAI.freshWorld t;
     stores := History.emptyStores t;
     home := {| isLoading := false; productName := EmptyString; recallInfo := None;
                nutritionalInfo := None; description := None; error := None |};
     historyView := {| scanHistory := []; historyLoading := true; historyError := None |};
     lines := [] |}.

End Screens.

(* ===================================================================== *)
(** * Properties of the field extractor *)
(* ===================================================================== *)

Section StringProperties.
Import JsString.

Lemma nonEmpty_true (s : string) : nonEmpty s = true <-> s <> EmptyString.
Proof. destruct s; cbn; split; congruence. Qed.

Lemma lowerChar_whiteSpace (c : ascii) : isWhiteSpace (lowerChar c) = isWhiteSpace c.
Proof.
  destruct c as [b0 b1 b2 b3 b4 b5 b6 b7].
  destruct b0, b1, b2, b3, b4, b5, b6, b7; reflexivity.
Qed.

Lemma toLowerCase_blank (s : string) : blank (toLowerCase s) = blank s.
Proof.
  induction s as [|c s IH]; cbn; [reflexivity|].
  rewrite lowerChar_whiteSpace, IH. reflexivity.
Qed.

Lemma trimEnd_ink (c : ascii) (s : string) :
  isWhiteSpace c = false -> trimEnd (String c s) <> EmptyString.
Proof.
  intros Hc. cbn. destruct (trimEnd s); [rewrite Hc|]; discriminate.
Qed.

(** Trimming leaves nothing of a blank string only. *)
Lemma trim_blank (s : string) : blank s = false -> trim s <> EmptyString.
Proof.
  unfold trim. induction s as [|c s IH]; cbn [blank trimStart]; [discriminate|].
  destruct (isWhiteSpace c) eqn:Hc; cbn [andb].
  - exact IH.
  - intros _. apply trimEnd_ink. exact Hc.
Qed.

Lemma trim_not_blank (s : string) : trim s <> EmptyString -> blank s = false.
Proof.
  unfold trim. induction s as [|c s IH]; cbn [blank trimStart]; [cbn; congruence|].
  destruct (isWhiteSpace c); cbn [andb]; [exact IH | reflexivity].
Qed.

Lemma prefix_blank (needle hay : string) :
  String.prefix needle hay = true -> blank hay = true -> blank needle = true.
Proof.
  revert hay. induction needle as [|c needle IH]; intros hay Hp Hb; [reflexivity|].
  destruct hay as [|h hay]; [discriminate|].
  cbn in Hp. destruct (ascii_dec c h) as [->|]; [|discriminate].
  cbn in Hb |- *. apply andb_prop in Hb. destruct Hb as [Hh Hb].
  rewrite Hh. cbn. exact (IH hay Hp Hb).
Qed.

(** A string that includes a string with ink has ink. *)
Lemma includes_blank (hay needle : string) :
  includes hay needle = true -> blank needle = false -> blank hay = false.
Proof.
  intros Hinc Hneedle. destruct (blank hay) eqn:Hhay; [|reflexivity].
  exfalso. induction hay as [|h hay IH]; cbn [includes] in Hinc.
  - destruct (String.prefix needle EmptyString) eqn:Hp; [|discriminate].
    pose proof (prefix_blank needle EmptyString Hp eq_refl). congruence.
  - destruct (String.prefix needle (String h hay)) eqn:Hp.
    + pose proof (prefix_blank needle _ Hp Hhay). congruence.
    + cbn in Hhay. apply andb_prop in Hhay. destruct Hhay as [_ Hhay].
      exact (IH Hinc Hhay).
Qed.

Lemma digit_not_whiteSpace (c : ascii) : isDigit c = true -> isWhiteSpace c = false.
Proof.
  destruct c as [b0 b1 b2 b3 b4 b5 b6 b7].
  destruct b0, b1, b2, b3, b4, b5, b6, b7; vm_compute; congruence.
Qed.

End StringProperties.

Section MatcherProperties.
Import JsString Regex.

(** The matcher only moves forward: the continuation is entered at a
    position no earlier than the one the expression was run at. *)
Lemma run_advances (r : regex) :
  forall p k q,
    run r p k = Some q ->
    exists p', k p' = Some q /\ String.length (rest p') <= String.length (rest p).
Proof.
  induction r as [|cls|r1 IH1 r2 IH2|r1 IH1 r2 IH2|greedy r1 IH1|r1 IH1| | |r1 IH1];
    intros p k q H; cbn [run] in H.
  - exists p. split; [exact H | lia].
  - destruct (rest p) as [|c s'] eqn:Hrest; [discriminate|].
    destruct (cls c); [|discriminate].
    eexists. split; [exact H|]. cbn. lia.
  - apply IH1 in H. destruct H as (p1 & H & Hlen1).
    apply IH2 in H. destruct H as (p2 & H & Hlen2).
    exists p2. split; [exact H | lia].
  - unfold orElse in H. destruct (run r1 p k) eqn:H1.
    + inversion H; subst. apply IH1 in H1. exact H1.
    + apply IH2 in H. exact H.
  - remember (S (String.length (rest p))) as fuel eqn:Hfuel. clear Hfuel.
    revert p H. induction fuel as [|fuel IHf]; intros p H; cbn [iterate] in H.
    + exists p. split; [exact H | lia].
    + match type of H with
      | (if _ then orElse ?again _ else _) = _ => destruct again as [q1|] eqn:Hagain
      end.
      * assert (Hq : q1 = q \/ k p = Some q).
        { destruct greedy; unfold orElse in H.
          - left. congruence.
          - destruct (k p); [right; exact H | left; congruence]. }
        destruct Hq as [->|Hk]; [|exists p; split; [exact Hk | lia]].
        apply IH1 in Hagain. destruct Hagain as (p1 & Hloop & Hlen1).
        destruct (Nat.ltb _ _); [|discriminate].
        apply IHf in Hloop. destruct Hloop as (p2 & Hk & Hlen2).
        exists p2. split; [exact Hk | lia].
      * exists p. split; [|lia].
        destruct greedy; unfold orElse in H; [exact H|].
        destruct (k p); [exact H | discriminate].
  - apply IH1 in H. destruct H as (p1 & H & Hlen).
    eexists. split; [exact H|]. cbn. exact Hlen.
  - destruct (atLineStart p); [|discriminate]. exists p. split; [exact H | lia].
  - destruct (rest p) eqn:Hrest; [|discriminate].
    exists p. split; [exact H | rewrite Hrest; cbn; lia].
  - destruct (run r1 p Some) as [p1|]; [|discriminate].
    eexists. split; [exact H|]. cbn. lia.
Qed.

(** A match of an expression with a leading class consumes a code unit
    of that class first. *)
Lemma run_leading (cls : ascii -> bool) (r : regex) :
  leading cls r ->
  forall p k q,
    run r p k = Some q ->
    exists c s' p',
      rest p = String c s' /\ cls c = true /\
      k p' = Some q /\ String.length (rest p') <= String.length s'.
Proof.
  induction 1 as [|r1 r2 _ IH|r1 _ IH]; intros p k q H; cbn [run] in H.
  - destruct (rest p) as [|c s'] eqn:Hrest; [discriminate|].
    destruct (cls c) eqn:Hc; [|discriminate].
    exists c, s'. eexists. split; [reflexivity|]. split; [exact Hc|].
    split; [exact H|]. cbn. lia.
  - apply IH in H. destruct H as (c & s' & p1 & Hrest & Hc & H & Hlen1).
    apply run_advances in H. destruct H as (p2 & H & Hlen2).
    exists c, s', p2. repeat split; try assumption. lia.
  - apply IH in H. destruct H as (c & s' & p1 & Hrest & Hc & H & Hlen1).
    exists c, s'. eexists. split; [exact Hrest|]. split; [exact Hc|].
    split; [exact H|]. cbn. exact Hlen1.
Qed.

(** The whole match of a search for such an expression starts with a
    code unit of the class. *)
Lemma exec_leading (cls : ascii -> bool) (r : regex) (s : string) (m : matched) :
  leading cls r ->
  exec r s = Some m ->
  exists c t, whole m = String c t /\ cls c = true.
Proof.
  intros Hlead. unfold exec. generalize (@None ascii) as prev.
  induction s as [|c0 s IH]; intros prev H; cbn [searchFrom] in H.
  - unfold matchAt in H.
    destruct (run r (Pos prev EmptyString None) Some) as [p1|] eqn:Hrun; [|discriminate].
    apply (run_leading cls r Hlead) in Hrun.
    destruct Hrun as (c & s' & p' & Hrest & _). discriminate.
  - unfold matchAt in H.
    destruct (run r (Pos prev (String c0 s) None) Some) as [p1|] eqn:Hrun.
    + inversion H; subst m. cbn [whole].
      apply (run_leading cls r Hlead) in Hrun.
      destruct Hrun as (c & s' & p' & Hrest & Hc & Hk & Hlen).
      inversion Hk; subst p'. cbn [rest] in Hrest. inversion Hrest; subst c s'.
      unfold consumed. cbn [rest String.length].
      replace (S (String.length s) - String.length (rest p1))
        with (S (String.length s - String.length (rest p1))) by lia.
      cbn [substring]. eauto.
    + apply IH in H. exact H.
Qed.

End MatcherProperties.

Section ExtractProperties.
Import JsString Regex Extract.

Lemma extractKey_none (text key : string) :
  extractKey text key = None <-> noMatch text key.
Proof.
  unfold extractKey, noMatch.
  destruct (structural text key); [split; [discriminate | intros [H _]; discriminate]|].
  destruct (bulleted text key); [split; [discriminate | intros (_ & H & _); discriminate]|].
  tauto.
Qed.

Lemma extractKey_some (text key v : string) :
  extractKey text key = Some v <-> matchOf text key v.
Proof.
  unfold extractKey, matchOf.
  destruct (structural text key) as [s|].
  - split; [auto|]. intros [H|[[H _]|[H _]]]; congruence.
  - destruct (bulleted text key) as [b|].
    + split; [auto|]. intros [H|[[_ H]|(_ & H & _)]]; congruence.
    + split; [auto|]. intros [H|[[_ H]|(_ & _ & H)]]; congruence.
Qed.

Lemma extractKeys_none (text : string) (keys : list string) :
  extractKeys text keys = None <-> forall key, In key keys -> noMatch text key.
Proof.
  induction keys as [|k keys IH]; cbn.
  - split; [intros _ key [] | reflexivity].
  - destruct (extractKey text k) as [v|] eqn:Hk.
    + split; [discriminate|]. intros H.
      assert (Hn : extractKey text k = None) by (apply extractKey_none, H; left; reflexivity).
      congruence.
    + rewrite IH. apply extractKey_none in Hk. split.
      * intros H key [<-|Hin]; [exact Hk | apply H; exact Hin].
      * intros H key Hin. apply H. right. exact Hin.
Qed.

Lemma extractKeys_some (text : string) (keys : list string) (v : string) :
  extractKeys text keys = Some v <->
  exists before key after,
    keys = (before ++ key :: after)%list /\
    (forall k, In k before -> noMatch text k) /\
    matchOf text key v.
Proof.
  induction keys as [|k keys IH]; cbn.
  - split; [discriminate|]. intros (before & key & after & H & _). destruct before; discriminate.
  - destruct (extractKey text k) as [v0|] eqn:Hk.
    + split.
      * intros H. inversion H; subst v0. exists [], k, keys.
        split; [reflexivity|]. split; [intros ? []|]. apply extractKey_some. exact Hk.
      * intros ([|b before] & key & after & Heq & Hbefore & Hm); cbn in Heq; inversion Heq; subst.
        -- apply extractKey_some in Hm. congruence.
        -- assert (Hn : noMatch text b) by (apply Hbefore; left; reflexivity).
           apply extractKey_none in Hn. congruence.
    + rewrite IH. apply extractKey_none in Hk. split.
      * intros (before & key & after & -> & Hbefore & Hm). exists (k :: before), key, after.
        split; [reflexivity|]. split; [|exact Hm].
        intros k0 [<-|Hin]; [exact Hk | apply Hbefore; exact Hin].
      * intros ([|b before] & key & after & Heq & Hbefore & Hm); cbn in Heq; inversion Heq; subst.
        -- exfalso. destruct Hk as (H1 & H2 & H3).
           destruct Hm as [H|[[_ H]|(_ & _ & H)]]; congruence.
        -- exists before, key, after. split; [reflexivity|]. split; [|exact Hm].
           intros k0 Hin. apply Hbefore. right. exact Hin.
Qed.

(** C5 (as stated, refuted).  For the keys [fat] and then [protein], the
    text below has no structural match for [fat] and a structural match
    for [protein]; [extractFromResponse] returns the sentence that names
    [fat], the family-first order returns the value of [protein]. *)
Lemma C5_key_order_refutes_family_first : ~ tieBreakAsStated.
Proof.
  intros H. specialize (H "I like fat. Protein: 5g" "fat" ["protein"]).
  vm_compute in H. discriminate H.
Qed.

(** C5 (amended).  The tie-break of [extractFromResponse] is key order
    and then pattern-family order: it returns a value exactly when some
    key has a match and no key before it, in the order primary key then
    alternates, has any; the value is the one its structural patterns
    give, or failing them its bullet patterns, or failing both its
    sentences.  So the bullet patterns of a key are tried only after its
    structural patterns and every family of the earlier keys failed, and
    its sentences only after its bullet patterns failed too.  The result
    is a function of the text and the keys. *)
Theorem C5_tie_break_is_key_order_then_family
        (text primaryKey : string) (alternateKeys : list string) :
  (forall v,
      extractFromResponse text primaryKey alternateKeys = Some v <->
      exists before key after,
        primaryKey :: alternateKeys = (before ++ key :: after)%list /\
        (forall k, In k before -> noMatch text k) /\
        matchOf text key v) /\
  extractFromResponse text primaryKey alternateKeys =
    firstKey (extractKey text) (primaryKey :: alternateKeys) /\
  (forall key,
      extractKey text key =
        match structural text key with
        | Some v => Some v
        | None =>
            match bulleted text key with
            | Some v => Some v
            | None => inSentence text key
            end
        end) /\
  (forall text' primaryKey' alternateKeys',
      text' = text -> primaryKey' = primaryKey -> alternateKeys' = alternateKeys ->
      extractFromResponse text' primaryKey' alternateKeys' =
        extractFromResponse text primaryKey alternateKeys).
Proof.
  split; [|split; [|split]].
  - intros v. apply extractKeys_some.
  - unfold extractFromResponse. generalize (primaryKey :: alternateKeys). intros keys.
    induction keys as [|k keys IH]; cbn; [reflexivity|].
    destruct (extractKey text k); [reflexivity | exact IH].
  - reflexivity.
  - intros text' primaryKey' alternateKeys' -> -> ->. reflexivity.
Qed.

Lemma captured_nonEmpty (m : option matched) (v : string) :
  captured m = Some v -> v <> EmptyString.
Proof.
  unfold captured. destruct m as [[w [g|]]|]; try discriminate.
  destruct (nonEmpty (trim g)) eqn:Hg; [|discriminate].
  intros [= <-]. apply nonEmpty_true. exact Hg.
Qed.

Lemma firstCaptured_nonEmpty (pats : list regex) (text v : string) :
  firstCaptured pats text = Some v -> v <> EmptyString.
Proof.
  induction pats as [|pat pats IH]; cbn; [discriminate|].
  destruct (captured (exec pat text)) as [v0|] eqn:Hc; [|exact IH].
  intros [= ->]. exact (captured_nonEmpty _ _ Hc).
Qed.

Lemma numberWithUnit_leading : Forall (leading isDigit) numberWithUnit.
Proof. repeat constructor. Qed.

Lemma firstWhole_nonEmpty (pats : list regex) (sentence v : string) :
  Forall (leading isDigit) pats ->
  firstWhole pats sentence = Some v -> v <> EmptyString.
Proof.
  induction 1 as [|pat pats Hpat _ IH]; cbn; [discriminate|].
  destruct (exec pat sentence) as [m|] eqn:Hm; [|exact IH].
  destruct (nonEmpty (whole m)); [|exact IH].
  intros [= <-].
  destruct (exec_leading isDigit pat sentence m Hpat Hm) as (c & t & -> & Hc).
  apply trim_blank. cbn. rewrite (digit_not_whiteSpace c Hc). reflexivity.
Qed.

Lemma scanSentences_nonEmpty (key : string) (sentences : list string) (v : string) :
  nonBlank key = true ->
  scanSentences key sentences = Some v -> v <> EmptyString.
Proof.
  intros Hkey. induction sentences as [|sentence sentences IH]; cbn [scanSentences];
    [discriminate|].
  destruct (includes (toLowerCase sentence) (toLowerCase key)) eqn:Hinc; [|exact IH].
  destruct (firstWhole numberWithUnit sentence) as [v0|] eqn:Hw.
  - intros [= ->].
    exact (firstWhole_nonEmpty _ _ _ numberWithUnit_leading Hw).
  - destruct (Nat.ltb _ _); [|exact IH].
    intros [= <-]. apply trim_blank.
    rewrite <- toLowerCase_blank. apply (includes_blank _ _ Hinc).
    rewrite toLowerCase_blank. apply trim_not_blank, nonEmpty_true. exact Hkey.
Qed.

Lemma extractKey_nonEmpty (text key v : string) :
  nonBlank key = true ->
  extractKey text key = Some v -> v <> EmptyString.
Proof.
  intros Hkey H. apply extractKey_some in H.
  destruct H as [H|[[_ H]|(_ & _ & H)]].
  - exact (firstCaptured_nonEmpty _ _ _ H).
  - exact (firstCaptured_nonEmpty _ _ _ H).
  - unfold inSentence in H. destruct (includes _ _); [|discriminate].
    exact (scanSentences_nonEmpty key _ v Hkey H).
Qed.

(** C6.  [extract("Calories: 250kcal", "calories")] is ["250kcal"] and
    [extract("no data here", "calories")] is [null].  In general the
    result is [null] exactly when no key has a match in any of the three
    families; and for keys that hold a code unit other than white space
    no result is the empty string. *)
Theorem C6_extract_examples_and_null_on_no_match :
  extractFromResponse "Calories: 250kcal" "calories" [] = Some "250kcal" /\
  extractFromResponse "no data here" "calories" [] = None /\
  (forall text primaryKey alternateKeys,
      (forall key, In key (primaryKey :: alternateKeys) -> noMatch text key) <->
      extractFromResponse text primaryKey alternateKeys = None) /\
  (forall text primaryKey alternateKeys,
      (forall key, In key (primaryKey :: alternateKeys) -> nonBlank key = true) ->
      extractFromResponse text primaryKey alternateKeys <> Some EmptyString).
Proof.
  split; [vm_compute; reflexivity|]. split; [vm_compute; reflexivity|]. split.
  - intros text primaryKey alternateKeys. symmetry. apply extractKeys_none.
  - intros text primaryKey alternateKeys Hkeys H.
    apply extractKeys_some in H. destruct H as (before & key & after & Heq & _ & Hm).
    apply extractKey_some in Hm.
    apply (extractKey_nonEmpty text key EmptyString); [|exact Hm|reflexivity].
    apply Hkeys. rewrite Heq. apply in_or_app. right. left. reflexivity.
Qed.

End ExtractProperties.

(* ===================================================================== *)
(** * Asynchronous code that comes back *)
(* ===================================================================== *)

Section Settling.
Import Js.
Context {S : Type}.

Lemma settles_ret {A} (a : A) : settles (ret a : M S A).
Proof. intros s. unfold ret. eauto. Qed.

Lemma settles_throw {A} (e : value) : settles (throw e : M S A).
Proof. intros s. unfold throw. eauto. Qed.

Lemma settles_effect (f : S -> S) : settles (effect f).
Proof. intros s. unfold effect. eauto. Qed.

Lemma settles_reads {A} (f : S -> A) : settles (reads f).
Proof. intros s. unfold reads. eauto. Qed.

Lemma settles_bind {A B} (c : M S A) (k : A -> M S B) :
  settles c -> (forall a, settles (k a)) -> settles (bind c k).
Proof.
  intros Hc Hk s. unfold bind. destruct (Hc s) as ([a|e] & s' & ->); [apply Hk | eauto].
Qed.

Lemma settles_tryCatch {A} (c : M S A) (h : value -> M S A) :
  settles c -> (forall e, settles (h e)) -> settles (tryCatch c h).
Proof.
  intros Hc Hh s. unfold tryCatch. destruct (Hc s) as ([a|e] & s' & ->); [eauto | apply Hh].
Qed.

Lemma resolves_settles {A} (c : M S A) : resolves c -> settles c.
Proof. intros Hc s. destruct (Hc s) as (a & s' & ->). eauto. Qed.

Lemma resolves_ret {A} (a : A) : resolves (ret a : M S A).
Proof. intros s. unfold ret. eauto. Qed.

Lemma resolves_effect (f : S -> S) : resolves (effect f).
Proof. intros s. unfold effect. eauto. Qed.

Lemma resolves_bind {A B} (c : M S A) (k : A -> M S B) :
  resolves c -> (forall a, resolves (k a)) -> resolves (bind c k).
Proof.
  intros Hc Hk s. unfold bind. destruct (Hc s) as (a & s' & ->). apply Hk.
Qed.

(** A [try] whose handler resolves, around a block that settles,
    resolves: nothing is thrown past it. *)
Lemma resolves_tryCatch {A} (c : M S A) (h : value -> M S A) :
  settles c -> (forall e, resolves (h e)) -> resolves (tryCatch c h).
Proof.
  intros Hc Hh s. unfold tryCatch. destruct (Hc s) as ([a|e] & s' & ->); [eauto | apply Hh].
Qed.

End Settling.

Create HintDb settle.
#[export] Hint Resolve settles_ret settles_throw settles_effect settles_reads
  settles_bind settles_tryCatch resolves_ret resolves_effect resolves_bind
  resolves_tryCatch : settle.

(* ===================================================================== *)
(** * Properties of the resilient call executor *)
(* ===================================================================== *)

Section BackoffProperties.
Import JsString Js OpenAI.
Local Open Scope Q_scope.

Lemma pow2_pos (n : nat) : 0 < inject_Z (2 ^ Z.of_nat n).
Proof.
  change 0 with (inject_Z 0). rewrite <- Zlt_Qlt. apply Z.pow_pos_nonneg; lia.
Qed.

Lemma backoff_in_range (n : nat) (u : Q) :
  0 <= u -> u < 1 -> backoffRange n (backoff n u).
Proof.
  intros H0 H1. exists (inject_Z (2 ^ Z.of_nat n) * ((1 # 2) + u) * 1000). split.
  - unfold backoffLow, backoffHigh. pose proof (pow2_pos n) as Hp.
    split; nra.
  - reflexivity.
Qed.

Lemma backoffRange_capped (n : nat) (t : Q) :
  backoffRange n t ->
  t <= 30000 /\ Qmin (backoffLow n) 30000 <= t /\ t <= Qmin (backoffHigh n) 30000.
Proof.
  intros (x & [Hlo Hhi] & ->). repeat split.
  - apply Q.le_min_r.
  - apply Q.min_le_compat_r. exact Hlo.
  - apply Q.min_le_compat_r. exact Hhi.
Qed.

Lemma backoffLow_default (n : nat) : (n <= 5)%nat -> backoffLow n <= 30000.
Proof.
  intros Hn. unfold backoffLow.
  assert (H : (2 ^ Z.of_nat n <= 32)%Z).
  { change 32%Z with (2 ^ 5)%Z. apply Z.pow_le_mono_r; lia. }
  rewrite Zle_Qle in H. change (inject_Z 32) with 32 in H. nra.
Qed.

Lemma backoffRange_uncapped (n : nat) (t : Q) :
  (n <= 5)%nat -> backoffRange n t -> backoffLow n <= t <= backoffHigh n.
Proof.
  intros Hn (x & [Hlo Hhi] & ->). pose proof (backoffLow_default n Hn) as Hc. split.
  - apply Q.min_glb; assumption.
  - eapply Qle_trans; [apply Q.le_min_l | exact Hhi].
Qed.

End BackoffProperties.

Section RetryWaits.
Import JsString Js OpenAI.
Variable env : Env.
Hypothesis randomRange : forall i, (0 <= random env i)%Q /\ (random env i < 1)%Q.

Lemma retryLoop_waits (fn : M World value) (cacheKey : option string) (maxRetries : Z) :
  setsNoTimer fn ->
  forall fuel retries w r w',
    retryLoop env fuel fn cacheKey maxRetries retries w = Some (r, w') ->
    exists ts : list Q,
      waits (trace w') = (rev ts ++ waits (trace w))%list /\
      (forall j t, nth_error ts j = Some t -> backoffRange (retries + 1 + j) t) /\
      (Z.of_nat (retries + length ts) <= Z.max maxRetries (Z.of_nat retries))%Z.
Proof.
  intros Hfn. induction fuel as [|fuel IH]; intros retries w r w' Hrun.
  - discriminate.
  - cbn [retryLoop] in Hrun. unfold tryCatch, bind in Hrun.
    destruct (fn w) as [[[v|e] w1]|] eqn:Hcall; [| |discriminate].
    + exists []. pose proof (Hfn _ _ _ Hcall) as Hw.
      assert (Htr : waits (trace w') = waits (trace w)).
      { destruct (provided cacheKey); cbn in Hrun; inversion Hrun; subst; cbn; exact Hw. }
      split; [exact Htr|]. split; [intros [|j] t; discriminate | cbn; lia].
    + pose proof (Hfn _ _ _ Hcall) as Hw.
      destruct (nullish e).
      { cbn in Hrun. inversion Hrun; subst. exists []. cbn.
        split; [exact Hw|]. split; [intros [|j] t; discriminate | lia]. }
      cbn in Hrun. destruct (maxRetries <=? Z.of_nat retries)%Z eqn:Hmax.
      * cbn in Hrun. inversion Hrun; subst. exists []. cbn.
        split; [exact Hw|]. split; [intros [|j] t; discriminate | lia].
      * cbn in Hrun. apply IH in Hrun. destruct Hrun as (ts & Htr & Hin & Hlen).
        cbn in Htr. apply Z.leb_gt in Hmax.
        exists (backoff (S retries) (random env (draws w1)) :: ts). split; [|split].
        -- cbn [rev]. rewrite <- app_assoc. cbn. rewrite Htr, Hw. reflexivity.
        -- intros [|j] t Hj; cbn in Hj.
           ++ inversion Hj; subst. replace (retries + 1 + 0)%nat with (S retries) by lia.
              apply backoff_in_range; apply randomRange.
           ++ replace (retries + 1 + S j)%nat with (S retries + 1 + j)%nat by lia.
              apply Hin; exact Hj.
        -- cbn [length]. lia.
Qed.

End RetryWaits.

Section BackoffClaim.
Import JsString Js OpenAI.

Lemma withRetry_waits (env : Env) (fn : M World value) (cacheKey : option string)
      (maxRetries : Z) (w : World) (r : result value) (w' : World) :
  (forall i, (0 <= random env i)%Q /\ (random env i < 1)%Q) ->
  setsNoTimer fn ->
  withRetry env fn cacheKey maxRetries w = Some (r, w') ->
  exists ts : list Q,
    waits (trace w') = (rev ts ++ waits (trace w))%list /\
    (forall j t, nth_error ts j = Some t -> backoffRange (S j) t) /\
    (Z.of_nat (length ts) <= Z.max maxRetries 0)%Z.
Proof.
  intros Hrand Hfn Hrun.
  assert (Hloop : forall w0,
    waits (trace w0) = waits (trace w) ->
    retryLoop env (S (Z.to_nat maxRetries)) fn cacheKey maxRetries 0 w0 = Some (r, w') ->
    exists ts : list Q,
      waits (trace w') = (rev ts ++ waits (trace w))%list /\
      (forall j t, nth_error ts j = Some t -> backoffRange (S j) t) /\
      (Z.of_nat (length ts) <= Z.max maxRetries 0)%Z).
  { intros w0 Hw0 Hl.
    destruct (retryLoop_waits env Hrand fn cacheKey maxRetries Hfn _ _ _ _ _ Hl)
      as (ts & Htr & Hin & Hlen).
    exists ts. rewrite Htr, Hw0. split; [reflexivity|]. split.
    - intros j t Hj. specialize (Hin j t Hj). cbn in Hin.
      replace (j + 0)%nat with j in Hin by lia. replace (S j) with (1 + j)%nat by lia.
      exact Hin.
    - cbn in Hlen. exact Hlen. }
  unfold withRetry in Hrun. destruct (provided cacheKey) as [key|].
  - unfold bind, getCachedResponse in Hrun.
    destruct (responseCache w !! key) as [cached|].
    + destruct (now w - timestamp cached <? CACHE_EXPIRY)%Z.
      * destruct (truthy (response cached)).
        -- cbn in Hrun. inversion Hrun; subst. exists []. cbn.
           split; [reflexivity|]. split; [intros [|j] t; discriminate | lia].
        -- (eapply Hloop; [|exact Hrun]; reflexivity).
      * cbn [truthy] in Hrun. (eapply Hloop; [|exact Hrun]; reflexivity).
    + cbn [truthy] in Hrun. (eapply Hloop; [|exact Hrun]; reflexivity).
  - (eapply Hloop; [|exact Hrun]; reflexivity).
Qed.

(** C2.  The wait computed before retry [n] is a time of the interval
    [2^n * 0.5 * 1000, 2^n * 1.5 * 1000] capped at 30000 ms:
    [getBackoffTime n] returns such a time for every draw of
    [Math.random()] in [0, 1); and in every run of [withRetry] that comes
    back, the timers of the run are, in order, the waits of retries
    1, 2, ..., at most [maxRetries] of them, each at most 30000, each
    between the capped ends of its interval, and each inside the interval
    itself up to retry 5 (the default [maxRetries]). *)
Theorem C2_backoff_wait_in_capped_interval
        (env : Env) (fn : M World value) (cacheKey : option string) (maxRetries : Z)
        (w : World) (r : result value) (w' : World) :
  (forall i, (0 <= random env i)%Q /\ (random env i < 1)%Q) ->
  setsNoTimer fn ->
  withRetry env fn cacheKey maxRetries w = Some (r, w') ->
  (forall n w0, exists t,
      getBackoffTime env n w0 = Some (Ok t, drawn w0) /\ backoffRange n t) /\
  exists ts : list Q,
    waits (trace w') = (rev ts ++ waits (trace w))%list /\
    (Z.of_nat (length ts) <= Z.max maxRetries 0)%Z /\
    forall n t, (1 <= n)%nat -> nth_error ts (n - 1) = Some t ->
      backoffRange n t /\
      (t <= 30000)%Q /\
      (Qmin (backoffLow n) 30000 <= t)%Q /\ (t <= Qmin (backoffHigh n) 30000)%Q /\
      ((n <= 5)%nat -> (backoffLow n <= t)%Q /\ (t <= backoffHigh n)%Q).
Proof.
  intros Hrand Hfn Hrun. split.
  - intros n w0. eexists. split; [reflexivity|].
    apply backoff_in_range; apply Hrand.
  - destruct (withRetry_waits env fn cacheKey maxRetries w r w' Hrand Hfn Hrun)
      as (ts & Htr & Hin & Hlen).
    exists ts. split; [exact Htr|]. split; [exact Hlen|].
    intros n t Hn Hnth. specialize (Hin (n - 1)%nat t Hnth).
    replace (S (n - 1)) with n in Hin by lia.
    destruct (backoffRange_capped n t Hin) as (Hcap & Hlo & Hhi).
    split; [exact Hin|]. split; [exact Hcap|]. split; [exact Hlo|]. split; [exact Hhi|].
    intros H5. apply (backoffRange_uncapped n t H5 Hin).
Qed.

Lemma C2_backoff_wait_witness :
  exists r w',
    (forall i, (0 <= random (offline None (1 # 4)) i)%Q /\
               (random (offline None (1 # 4)) i < 1)%Q) /\
    setsNoTimer (counted (fun _ => Throw networkError)) /\
    withRetry (offline None (1 # 4)) (counted (fun _ => Throw networkError)) None 2
      (freshWorld 0) = Some (r, w') /\
    waits (trace w') = [24000 # 8; 12000 # 8]%Q /\
    (forall n w0, exists t,
        getBackoffTime (offline None (1 # 4)) n w0 = Some (Ok t, drawn w0) /\
        backoffRange n t) /\
    exists ts : list Q,
      waits (trace w') = (rev ts ++ waits (trace (freshWorld 0)))%list /\
      (Z.of_nat (length ts) <= Z.max 2 0)%Z /\
      forall n t, (1 <= n)%nat -> nth_error ts (n - 1) = Some t ->
        backoffRange n t /\
        (t <= 30000)%Q /\
        (Qmin (backoffLow n) 30000 <= t)%Q /\ (t <= Qmin (backoffHigh n) 30000)%Q /\
        ((n <= 5)%nat -> (backoffLow n <= t)%Q /\ (t <= backoffHigh n)%Q).
Proof.
  assert (Hrand : forall i, (0 <= random (offline None (1 # 4)) i)%Q /\
                            (random (offline None (1 # 4)) i < 1)%Q).
  { intros i. cbn. split; [discriminate | reflexivity]. }
  assert (Hfn : setsNoTimer (counted (fun _ => Throw networkError))).
  { intros w r w' H. unfold counted in H. inversion H; subst. reflexivity. }
  eexists. eexists.
  split; [exact Hrand|]. split; [exact Hfn|].
  split; [vm_compute; reflexivity|]. split; [reflexivity|].
  apply (C2_backoff_wait_in_capped_interval (offline None (1 # 4))
           (counted (fun _ => Throw networkError)) None 2 (freshWorld 0)
           (Throw networkError) _ Hrand Hfn).
  vm_compute. reflexivity.
Defined.

End BackoffClaim.

Section CacheProperties.
Import JsString Js OpenAI.
Variable env : Env.

(** A successful run of the loop under a provided key leaves the result
    in the cache, stamped with the time of its return. *)
Lemma retryLoop_stores (fn : M World value) (key : string) (maxRetries : Z) :
  nonEmpty key = true ->
  forall fuel retries w v w1,
    retryLoop env fuel fn (Some key) maxRetries retries w = Some (Ok v, w1) ->
    responseCache w1 !! key = Some {| timestamp := now w1; response := v |}.
Proof.
  intros Hkey. induction fuel as [|fuel IH]; intros retries w v w1 Hrun; [discriminate|].
  cbn [retryLoop] in Hrun. unfold tryCatch, bind, provided in Hrun. rewrite Hkey in Hrun.
  destruct (fn w) as [[[v0|e] w0]|]; [| |discriminate].
  - cbn in Hrun. inversion Hrun; subst. cbn. apply lookup_insert_eq.
  - destruct (nullish e); [discriminate|].
    cbn in Hrun. destruct (maxRetries <=? Z.of_nat retries)%Z; cbn in Hrun.
    + discriminate.
    + eapply IH; exact Hrun.
Qed.

(** Every iteration of the loop invokes the operation. *)
Lemma retryLoop_counts (script : nat -> result value) (cacheKey : option string)
      (maxRetries : Z) :
  forall fuel retries w r w1,
    retryLoop env fuel (counted script) cacheKey maxRetries retries w = Some (r, w1) ->
    (calls w < calls w1)%nat.
Proof.
  induction fuel as [|fuel IH]; intros retries w r w1 Hrun; [discriminate|].
  cbn [retryLoop] in Hrun. unfold tryCatch, bind, counted in Hrun.
  destruct (script (calls w)) as [v|e].
  - destruct (provided cacheKey); cbn in Hrun; inversion Hrun; subst; cbn; lia.
  - destruct (nullish e); [inversion Hrun; subst; cbn; lia|].
    cbn in Hrun. destruct (maxRetries <=? Z.of_nat retries)%Z; cbn in Hrun.
    + inversion Hrun; subst; cbn; lia.
    + apply IH in Hrun. cbn in Hrun. lia.
Qed.

(** With fuel for the retries that are left, the loop over an operation
    that settles comes back. *)
Lemma retryLoop_returns (fn : M World value) (cacheKey : option string) (maxRetries : Z) :
  (forall w, exists r w', fn w = Some (r, w')) ->
  forall fuel retries w,
    (Z.to_nat (maxRetries - Z.of_nat retries) < fuel)%nat ->
    exists r w', retryLoop env fuel fn cacheKey maxRetries retries w = Some (r, w').
Proof.
  intros Hfn. induction fuel as [|fuel IH]; intros retries w Hfuel; [lia|].
  cbn [retryLoop]. unfold tryCatch, bind.
  destruct (Hfn w) as ([v|e] & w0 & ->).
  - destruct (provided cacheKey); cbn; eauto.
  - destruct (nullish e); [cbn; eauto|].
    cbn. destruct (maxRetries <=? Z.of_nat retries)%Z eqn:Hmax; cbn.
    + eauto.
    + apply Z.leb_gt in Hmax. apply IH. lia.
Qed.

Lemma withRetry_returns (fn : M World value) (cacheKey : option string) (maxRetries : Z) :
  (forall w, exists r w', fn w = Some (r, w')) ->
  forall w, exists r w', withRetry env fn cacheKey maxRetries w = Some (r, w').
Proof.
  intros Hfn w.
  assert (Hloop : forall w0, exists r w',
    retryLoop env (S (Z.to_nat maxRetries)) fn cacheKey maxRetries 0 w0 = Some (r, w')).
  { intros w0. apply retryLoop_returns; [exact Hfn|]. cbn. rewrite Z.sub_0_r. lia. }
  unfold withRetry. destruct (provided cacheKey) as [key|]; [|apply Hloop].
  unfold bind, getCachedResponse.
  destruct (responseCache w !! key) as [cached|]; [|apply Hloop].
  destruct (now w - timestamp cached <? CACHE_EXPIRY)%Z; [|apply Hloop].
  destruct (truthy (response cached)); [cbn; eauto | apply Hloop].
Qed.

Lemma counted_settles (script : nat -> result value) :
  forall w, exists r w', counted script w = Some (r, w').
Proof. intros w. unfold counted. eauto. Qed.

(** A live entry with a truthy response is returned, whatever the
    operation: only the console line is added to the world. *)
Lemma withRetry_hit (fn : M World value) (key : string) (maxRetries : Z) (w : World)
      (cached : CacheEntry) :
  nonEmpty key = true ->
  responseCache w !! key = Some cached ->
  (now w - timestamp cached < CACHE_EXPIRY)%Z ->
  truthy (response cached) = true ->
  withRetry env fn (Some key) maxRetries w =
    Some (Ok (response cached), emit (Console Log "Using cached response for:") w).
Proof.
  intros Hkey Hc Hlive Htruthy. unfold withRetry, provided. rewrite Hkey.
  unfold bind, getCachedResponse. rewrite Hc.
  apply Z.ltb_lt in Hlive. rewrite Hlive, Htruthy. reflexivity.
Qed.

(** When the lookup yields nothing truthy the loop runs, on the world
    the lookup left. *)
Lemma withRetry_miss (fn : M World value) (key : string) (maxRetries : Z) (w w0 : World)
      (c : value) :
  nonEmpty key = true ->
  getCachedResponse key w = Some (Ok c, w0) ->
  truthy c = false ->
  withRetry env fn (Some key) maxRetries w =
    retryLoop env (S (Z.to_nat maxRetries)) fn (Some key) maxRetries 0 w0.
Proof.
  intros Hkey Hget Hc. unfold withRetry, provided. rewrite Hkey.
  unfold bind. rewrite Hget, Hc. reflexivity.
Qed.

(** The lookup leaves the counter and the cache as they are. *)
Lemma getCachedResponse_frame (key : string) (w w0 : World) (c : value) :
  getCachedResponse key w = Some (Ok c, w0) ->
  calls w0 = calls w /\ responseCache w0 = responseCache w /\ now w0 = now w.
Proof.
  unfold getCachedResponse. intros H.
  destruct (responseCache w !! key) as [cached|];
    [destruct (now w - timestamp cached <? CACHE_EXPIRY)%Z|];
    inversion H; subst; cbn; auto.
Qed.

Lemma getCachedResponse_total (key : string) (w : World) :
  exists c w0, getCachedResponse key w = Some (Ok c, w0).
Proof.
  unfold getCachedResponse.
  destruct (responseCache w !! key) as [cached|];
    [destruct (now w - timestamp cached <? CACHE_EXPIRY)%Z|]; eauto.
Qed.

End CacheProperties.

Section CacheClaims.
Import JsString Js OpenAI.

(** C1 (as stated, refuted).  With the key ["k"] and an operation that
    succeeds with [0], the first call runs the operation and stores [0];
    the second call, in the same millisecond, runs the operation again:
    the counter goes from 1 to 2. *)
Lemma C1_falsy_result_refutes_cache_hit : ~ cacheHitAsStated.
Proof.
  intros H.
  pose (script := fun _ : nat => Ok (VNum 0)).
  pose (w := freshWorld 0).
  pose (w1 := {| responseCache := <["k" := {| timestamp := 0; response := VNum 0 |}]> ∅;
                 now := 0; draws := 0; calls := 1; trace := [] |}).
  pose (w3 := {| responseCache :=
                   <["k" := {| timestamp := 0; response := VNum 0 |}]>
                     (<["k" := {| timestamp := 0; response := VNum 0 |}]> ∅);
                 now := 0; draws := 0; calls := 2;
                 trace := [Console Log "Using cached response for:"] |}).
  destruct (H (offline None 0) script "k" 5%Z w w1 w1 w3 (VNum 0) (Ok (VNum 0)))
    as [_ Hcalls].
  - reflexivity.
  - cbn. lia.
  - reflexivity.
  - reflexivity.
  - reflexivity.
  - discriminate Hcalls.
Qed.

(** The first call of the caching properties: what a run that invoked
    the mocked operation and returned [v] leaves under the key. *)
Lemma withRetry_ran_stores (env : Env) (script : nat -> result value) (key : string)
      (maxRetries : Z) (w w1 : World) (v : value) :
  nonEmpty key = true ->
  withRetry env (counted script) (Some key) maxRetries w = Some (Ok v, w1) ->
  (calls w < calls w1)%nat ->
  responseCache w1 !! key = Some {| timestamp := now w1; response := v |}.
Proof.
  intros Hkey Hrun Hcalls.
  destruct (getCachedResponse_total key w) as (c & w0 & Hget).
  destruct (truthy c) eqn:Hc.
  - exfalso. unfold withRetry, provided in Hrun. rewrite Hkey in Hrun.
    unfold bind in Hrun. rewrite Hget, Hc in Hrun. cbn in Hrun. inversion Hrun; subst.
    apply getCachedResponse_frame in Hget. lia.
  - rewrite (withRetry_miss env _ key maxRetries w w0 c Hkey Hget Hc) in Hrun.
    eapply retryLoop_stores; eassumption.
Qed.

(** The second call of the caching properties when the lookup yields
    nothing truthy: the mocked operation is invoked. *)
Lemma withRetry_miss_invokes (env : Env) (script : nat -> result value) (key : string)
      (maxRetries : Z) (w w0 : World) (c : value) :
  nonEmpty key = true ->
  getCachedResponse key w = Some (Ok c, w0) ->
  truthy c = false ->
  exists r w', withRetry env (counted script) (Some key) maxRetries w = Some (r, w') /\
               (calls w < calls w')%nat.
Proof.
  intros Hkey Hget Hc.
  destruct (withRetry_returns env (counted script) (Some key) maxRetries
              (counted_settles script) w) as (r & w' & Hrun).
  exists r, w'. split; [exact Hrun|].
  rewrite (withRetry_miss env _ key maxRetries w w0 c Hkey Hget Hc) in Hrun.
  apply retryLoop_counts in Hrun. apply getCachedResponse_frame in Hget. lia.
Qed.

(** C1 (amended).  For a non-empty key: once the operation ran under the
    key and succeeded with a truthy result, a call under the same key
    less than 24 hours after the result was stored returns that result
    whatever the operation is, and adds only a console line to the world
    (no invocation, no wait, no change of the cache); 24 hours after the
    store or later the lookup returns [null] as for an absent key and the
    operation is invoked. *)
Theorem C1_truthy_result_cached_within_expiry
        (env : Env) (script : nat -> result value) (key : string) (maxRetries : Z)
        (w w1 : World) (v : value) :
  nonEmpty key = true ->
  truthy v = true ->
  withRetry env (counted script) (Some key) maxRetries w = Some (Ok v, w1) ->
  (calls w < calls w1)%nat ->
  forall w2 : World,
    responseCache w2 !! key = responseCache w1 !! key ->
    ((now w2 - now w1 < CACHE_EXPIRY)%Z ->
     forall (fn : M World value) (m : Z),
       withRetry env fn (Some key) m w2 =
         Some (Ok v, emit (Console Log "Using cached response for:") w2)) /\
    ((CACHE_EXPIRY <= now w2 - now w1)%Z ->
     getCachedResponse key w2 = Some (Ok VNull, w2) /\
     forall (script' : nat -> result value) (m : Z),
       exists r w3,
         withRetry env (counted script') (Some key) m w2 = Some (r, w3) /\
         (calls w2 < calls w3)%nat).
Proof.
  intros Hkey Hv Hrun Hcalls w2 Hsame.
  pose proof (withRetry_ran_stores env script key maxRetries w w1 v Hkey Hrun Hcalls) as Hst.
  rewrite <- Hsame in Hst. split.
  - intros Hlive fn m.
    apply (withRetry_hit env fn key m w2 {| timestamp := now w1; response := v |});
      assumption.
  - intros Hold.
    assert (Hget : getCachedResponse key w2 = Some (Ok VNull, w2)).
    { unfold getCachedResponse. rewrite Hst. cbn [timestamp].
      apply Z.ltb_ge in Hold. rewrite Hold. reflexivity. }
    split; [exact Hget|]. intros script' m.
    apply (withRetry_miss_invokes env script' key m w2 w2 VNull Hkey Hget eq_refl).
Qed.

(** C10.  For a non-empty key: a run that invoked the operation and
    succeeded with a falsy result stored that result under the key; a
    call under the same key inside the 24 hours that follow reads the
    stored result back from the lookup, does not take it for a hit, and
    invokes the operation again. *)
Theorem C10_falsy_result_stored_but_never_hit
        (env : Env) (fn : M World value) (key : string) (maxRetries : Z)
        (w w1 : World) (v : value) :
  nonEmpty key = true ->
  truthy v = false ->
  withRetry env fn (Some key) maxRetries w = Some (Ok v, w1) ->
  responseCache w1 !! key = Some {| timestamp := now w1; response := v |} /\
  forall w2 : World,
    responseCache w2 !! key = responseCache w1 !! key ->
    (now w2 - now w1 < CACHE_EXPIRY)%Z ->
    getCachedResponse key w2 =
      Some (Ok v, emit (Console Log "Using cached response for:") w2) /\
    forall (script' : nat -> result value) (m : Z),
      exists r w3,
        withRetry env (counted script') (Some key) m w2 = Some (r, w3) /\
        (calls w2 < calls w3)%nat.
Proof.
  intros Hkey Hv Hrun.
  assert (Hst : responseCache w1 !! key = Some {| timestamp := now w1; response := v |}).
  { destruct (getCachedResponse_total key w) as (c & w0 & Hget).
    destruct (truthy c) eqn:Hc.
    - exfalso. unfold withRetry, provided in Hrun. rewrite Hkey in Hrun.
      unfold bind in Hrun. rewrite Hget, Hc in Hrun. cbn in Hrun.
      inversion Hrun; subst. congruence.
    - rewrite (withRetry_miss env _ key maxRetries w w0 c Hkey Hget Hc) in Hrun.
      eapply retryLoop_stores; eassumption. }
  split; [exact Hst|]. intros w2 Hsame Hlive.
  assert (Hget : getCachedResponse key w2 =
                 Some (Ok v, emit (Console Log "Using cached response for:") w2)).
  { unfold getCachedResponse. rewrite Hsame, Hst. cbn [timestamp response].
    apply Z.ltb_lt in Hlive. rewrite Hlive. reflexivity. }
  split; [exact Hget|]. intros script' m.
  apply (withRetry_miss_invokes env script' key m w2 _ v Hkey Hget Hv).
Qed.

Lemma C1_truthy_result_witness :
  let env := offline None 0 in
  let script := fun _ : nat => Ok (VStr "ok") in
  let w1 := {| responseCache := <["k" := {| timestamp := 0; response := VStr "ok" |}]> ∅;
               now := 0; draws := 0; calls := 1; trace := [] |} in
  let soon := withNow 1000 w1 in
  let late := withNow CACHE_EXPIRY w1 in
  nonEmpty "k" = true /\
  truthy (VStr "ok") = true /\
  withRetry env (counted script) (Some "k") 5 (freshWorld 0) = Some (Ok (VStr "ok"), w1) /\
  (calls (freshWorld 0) < calls w1)%nat /\
  (forall (fn : M World value) (m : Z),
      withRetry env fn (Some "k") m soon =
        Some (Ok (VStr "ok"), emit (Console Log "Using cached response for:") soon)) /\
  getCachedResponse "k" late = Some (Ok VNull, late) /\
  (forall (script' : nat -> result value) (m : Z),
      exists r w3,
        withRetry env (counted script') (Some "k") m late = Some (r, w3) /\
        (calls late < calls w3)%nat).
Proof.
  intros env script w1 soon late.
  assert (Hrun : withRetry env (counted script) (Some "k") 5 (freshWorld 0)
                 = Some (Ok (VStr "ok"), w1)) by reflexivity.
  assert (Hcalls : (calls (freshWorld 0) < calls w1)%nat) by (cbn; lia).
  split; [reflexivity|]. split; [reflexivity|]. split; [exact Hrun|].
  split; [exact Hcalls|]. split.
  - apply (C1_truthy_result_cached_within_expiry env script "k" 5 (freshWorld 0) w1
             (VStr "ok") eq_refl eq_refl Hrun Hcalls soon eq_refl).
    reflexivity.
  - apply (C1_truthy_result_cached_within_expiry env script "k" 5 (freshWorld 0) w1
             (VStr "ok") eq_refl eq_refl Hrun Hcalls late eq_refl).
    discriminate.
Defined.

Lemma C10_falsy_result_witness :
  let env := offline None 0 in
  let fn := counted (fun _ : nat => Ok VNull) in
  let w1 := {| responseCache := <["k" := {| timestamp := 0; response := VNull |}]> ∅;
               now := 0; draws := 0; calls := 1; trace := [] |} in
  let soon := withNow 1000 w1 in
  nonEmpty "k" = true /\
  truthy VNull = false /\
  withRetry env fn (Some "k") 5 (freshWorld 0) = Some (Ok VNull, w1) /\
  responseCache w1 !! "k" = Some {| timestamp := now w1; response := VNull |} /\
  getCachedResponse "k" soon =
    Some (Ok VNull, emit (Console Log "Using cached response for:") soon) /\
  (forall (script' : nat -> result value) (m : Z),
      exists r w3,
        withRetry env (counted script') (Some "k") m soon = Some (r, w3) /\
        (calls soon < calls w3)%nat).
Proof.
  intros env fn w1 soon.
  assert (Hrun : withRetry env fn (Some "k") 5 (freshWorld 0) = Some (Ok VNull, w1))
    by reflexivity.
  split; [reflexivity|]. split; [reflexivity|]. split; [exact Hrun|].
  destruct (C10_falsy_result_stored_but_never_hit env fn "k" 5 (freshWorld 0) w1 VNull
              eq_refl eq_refl Hrun) as [Hstored Hlater].
  split; [exact Hstored|].
  exact (Hlater soon eq_refl eq_refl).
Defined.

End CacheClaims.

(* ===================================================================== *)
(** * Properties of media ingestion *)
(* ===================================================================== *)

Section UploadProperties.
Import JsString Js OpenAI.
Variable env : Env.

Lemma prefix_append (p s : string) : String.prefix p (p +:+ s) = true.
Proof.
  induction p as [|c p IH].
  - destruct s; reflexivity.
  - change (String.prefix (String c p) (String c (p +:+ s)) = true).
    unfold String.prefix; fold String.prefix.
    destruct (ascii_dec c c); [exact IH | congruence].
Qed.

Lemma uploadErrorHint_run (e : value) (w : World) :
  exists w', uploadErrorHint e w = Some (Ok tt, w').
Proof.
  unfold uploadErrorHint.
  destruct (optionalField e "code") as [| | | | |code| |]; try (cbn; eauto; fail).
  destruct (String.eqb code "storage/unauthorized"); [cbn; eauto|].
  destruct (String.eqb code "storage/canceled"); [cbn; eauto|].
  destruct (String.eqb code "storage/unknown"); cbn; eauto.
Qed.

Lemma imageToBase64_run (uri : string) (w : World) :
  imageToBase64 env uri w =
    match readAsStringResult env (length (trace w)) uri with
    | Ok base64 =>
        Some (Ok base64, emit (ReadFile uri) (withNow (now w + latency env (length (trace w))) w))
    | Throw e =>
        Some (Throw e,
              emit (Console Error "Error converting image to base64:")
                (emit (ReadFile uri) (withNow (now w + latency env (length (trace w))) w)))
    end.
Proof.
  unfold imageToBase64, tryCatch, request.
  destruct (readAsStringResult env (length (trace w)) uri); reflexivity.
Qed.

(** The upload settles: it resolves or rejects, it never hangs. *)
Lemma remoteUpload_settles (uri : string) (w : World) :
  exists r w1, remoteUpload env uri w = Some (r, w1).
Proof.
  unfold remoteUpload, bind, tryCatch, reads, mathRandom, request, console, effect.
  cbn. destruct (refFails env); cbn; [eauto|].
  destruct (fetchResult env _ uri) as [response|e]; [|eauto].
  destruct (blobResult env _ response) as [blob|e]; [|eauto]. cbn.
  destruct (uploadBytesResult env _ _ blob) as [snapshot|e]; cbn.
  - destruct (downloadURLResult env _ _) as [url|e]; cbn; [eauto|].
    destruct (nullish e); cbn; [eauto|].
    match goal with |- context [uploadErrorHint e ?w0] =>
      destruct (uploadErrorHint_run e w0) as (w' & ->) end.
    eauto.
  - destruct (nullish e); cbn; [eauto|].
    match goal with |- context [uploadErrorHint e ?w0] =>
      destruct (uploadErrorHint_run e w0) as (w' & ->) end.
    eauto.
Qed.

(** The four requests of a successful upload all resolved. *)
Lemma remoteUpload_ok (uri : string) (w w1 : World) (url : string) :
  remoteUpload env uri w = Some (Ok url, w1) ->
  let i := length (trace w) in
  exists response blob snapshot,
    refFails env = None /\
    fetchResult env i uri = Ok response /\
    blobResult env (1 + i) response = Ok blob /\
    uploadBytesResult env (4 + i) (uploadName env w) blob = Ok snapshot /\
    downloadURLResult env (6 + i) (uploadName env w) = Ok url.
Proof.
  unfold remoteUpload, bind, tryCatch, reads, mathRandom, request, console, effect, uploadName.
  cbn. destruct (refFails env) eqn:Hr; cbn; [discriminate|].
  destruct (fetchResult env _ uri) as [response|e] eqn:Hf; [|discriminate].
  destruct (blobResult env _ response) as [blob|e] eqn:Hb; [|discriminate]. cbn.
  destruct (uploadBytesResult env _ _ blob) as [snapshot|e] eqn:Hu; cbn.
  - destruct (downloadURLResult env _ _) as [url'|e] eqn:Hd; cbn.
    + intros H. inversion H; subst. eauto 9.
    + destruct (nullish e); cbn; [discriminate|].
      match goal with |- context [uploadErrorHint e ?w0] =>
        destruct (uploadErrorHint_run e w0) as (w' & ->) end.
      discriminate.
  - destruct (nullish e); cbn; [discriminate|].
    match goal with |- context [uploadErrorHint e ?w0] =>
      destruct (uploadErrorHint_run e w0) as (w' & ->) end.
    discriminate.
Qed.

(** What [uploadImageToFirebase] does after a failed upload. *)
Lemma uploadImageToFirebase_fallback (uri : string) (w w1 : World) (e : value) :
  remoteUpload env uri w = Some (Throw e, w1) ->
  uploadImageToFirebase env uri w =
    match imageToBase64 env uri (fallbackWorld w1) with
    | Some (Ok base64, w2) => Some (Ok ("data:image/jpeg;base64," +:+ base64), w2)
    | Some (Throw e', w2) => Some (Throw e', w2)
    | None => None
    end.
Proof.
  intros H. unfold uploadImageToFirebase, tryCatch at 1. rewrite H.
  unfold bind, console, effect, fallbackWorld.
  destruct (imageToBase64 env uri _) as [[[b|e'] w2]|]; reflexivity.
Qed.

(** C7.  When the remote upload fails, with whatever thrown value and at
    whichever of its requests, [uploadImageToFirebase] reads the local
    file: if the read yields [base64] it resolves to
    [data:image/jpeg;base64,] followed by [base64]; if the read fails too
    it rejects with the error of the read.  It never hangs, it rejects
    only when both the upload and the read failed, and an upload that
    succeeds had its reference made and its four requests resolve. *)
Theorem C7_failed_upload_falls_back_to_base64 (uri : string) (w : World) :
  (forall e w1,
      remoteUpload env uri w = Some (Throw e, w1) ->
      match readAsStringResult env (length (trace (fallbackWorld w1))) uri with
      | Ok base64 =>
          exists w2,
            uploadImageToFirebase env uri w =
              Some (Ok ("data:image/jpeg;base64," +:+ base64), w2) /\
            String.prefix "data:image/jpeg;base64," ("data:image/jpeg;base64," +:+ base64)
              = true
      | Throw readError =>
          exists w2, uploadImageToFirebase env uri w = Some (Throw readError, w2)
      end) /\
  (exists r w2, uploadImageToFirebase env uri w = Some (r, w2)) /\
  (forall readError w2,
      uploadImageToFirebase env uri w = Some (Throw readError, w2) ->
      exists e w1,
        remoteUpload env uri w = Some (Throw e, w1) /\
        readAsStringResult env (length (trace (fallbackWorld w1))) uri = Throw readError) /\
  (forall url w1,
      remoteUpload env uri w = Some (Ok url, w1) ->
      exists response blob snapshot,
        refFails env = None /\
        fetchResult env (length (trace w)) uri = Ok response /\
        blobResult env (1 + length (trace w)) response = Ok blob /\
        uploadBytesResult env (4 + length (trace w)) (uploadName env w) blob = Ok snapshot /\
        downloadURLResult env (6 + length (trace w)) (uploadName env w) = Ok url).
Proof.
  split; [|split; [|split]].
  - intros e w1 H. rewrite (uploadImageToFirebase_fallback uri w w1 e H).
    rewrite imageToBase64_run.
    destruct (readAsStringResult env _ uri) as [base64|readError].
    + eexists. split; [reflexivity | apply prefix_append].
    + eexists. reflexivity.
  - destruct (remoteUpload_settles uri w) as ([url|e] & w1 & H).
    + unfold uploadImageToFirebase, tryCatch. rewrite H. eauto.
    + rewrite (uploadImageToFirebase_fallback uri w w1 e H), imageToBase64_run.
      destruct (readAsStringResult env _ uri); eauto.
  - intros readError w2 Hup.
    destruct (remoteUpload_settles uri w) as ([url|e] & w1 & H).
    + unfold uploadImageToFirebase, tryCatch in Hup. rewrite H in Hup. discriminate.
    + exists e, w1. split; [exact H|].
      rewrite (uploadImageToFirebase_fallback uri w w1 e H), imageToBase64_run in Hup.
      destruct (readAsStringResult env _ uri) as [b|e'].
      * discriminate.
      * inversion Hup; subst. reflexivity.
  - intros url w1 H. exact (remoteUpload_ok uri w w1 url H).
Qed.

End UploadProperties.

(* ===================================================================== *)
(** * Properties of the analysis pipeline *)
(* ===================================================================== *)

Section PipelineProperties.
Import JsString Js OpenAI.
Variable env : Env.

Lemma responseContent_settles (response : value) : settles (responseContent response).
Proof.
  intros w. unfold responseContent.
  repeat match goal with
         | |- context [match ?x with _ => _ end] => destruct x
         end; cbn; eauto.
Qed.

Lemma createCompletion_settles (imageUrl : string) : settles (createCompletion env imageUrl).
Proof. intros w. unfold createCompletion, request. eauto. Qed.

Lemma uploadImageToFirebase_settles (uri : string) : settles (uploadImageToFirebase env uri).
Proof.
  intros w. destruct (remoteUpload_settles env uri w) as ([url|e] & w1 & H).
  - unfold uploadImageToFirebase, tryCatch. rewrite H. eauto.
  - rewrite (uploadImageToFirebase_fallback env uri w w1 e H), imageToBase64_run.
    destruct (readAsStringResult env _ uri); eauto.
Qed.

Lemma console_settles (l : level) (text : string) : settles (console l text).
Proof. apply settles_effect. Qed.

Lemma console_resolves (l : level) (text : string) : resolves (console l text).
Proof. apply resolves_effect. Qed.

(** The [try] block settles: it yields an analysis or throws. *)
Lemma analyzeBody_settles (imageUri : string) : settles (analyzeBody env imageUri).
Proof.
  unfold analyzeBody.
  apply settles_bind.
  { destruct credentialAbsent; auto using console_settles with settle. }
  intros _. apply settles_bind; [apply console_settles|]. intros _.
  apply settles_bind; [apply uploadImageToFirebase_settles|]. intros imageUrl.
  apply settles_bind; [apply console_settles|]. intros _.
  apply settles_bind.
  { intros w. apply withRetry_returns. apply createCompletion_settles. }
  intros response. apply settles_bind; [apply responseContent_settles|]. intros text.
  auto using console_settles with settle.
Qed.

(** Every key of the call sites is free of regular-expression syntax
    and holds ink: the embedding of the extractor is that of the code
    for them. *)
Lemma callSiteKeys_plain :
  forallb (fun key => Extract.plainKey key && Extract.nonBlank key) callSiteKeys = true.
Proof. vm_compute. reflexivity. Qed.

Lemma analyzeProductImage_catches (imageUri : string) (w w1 : World) (e : value) :
  analyzeBody env imageUri w = Some (Throw e, w1) ->
  analyzeProductImage env imageUri w =
    Some (Ok sentinel, emit (Console Error "Error analyzing product image:") w1).
Proof. intros H. unfold analyzeProductImage, tryCatch. rewrite H. reflexivity. Qed.

(** The [try] block after the test of the credential. *)
Lemma analyzeBody_with_credential (imageUri : string) (w : World) :
  credentialAbsent env = false ->
  analyzeBody env imageUri w =
    bind (uploadImageToFirebase env imageUri) (fun imageUrl =>
      bind (console Log "Sending image to OpenAI for analysis...") (fun _ =>
        bind (withRetry env (createCompletion env imageUrl)
                (Some (generateCacheKey "analyzeProductImage" imageUri)) defaultMaxRetries)
          (fun response =>
             bind (responseContent response) (fun responseText =>
               bind (console Log "OpenAI response received") (fun _ =>
                 ret (parseResponse responseText))))))
      (emit (Console Log "Uploading image to Firebase Storage...") w).
Proof. intros H. unfold analyzeBody. rewrite H. reflexivity. Qed.

(** C3.  [analyzeProductImage] always resolves, for every image and in
    every world: it never rejects and never hangs.  Whenever its [try]
    block throws it resolves to the sentinel, whose name is
    ["Unknown Product"], whose nutritional information is [null] and
    whose description is not empty.  The block throws when the upload
    throws, when [withRetry] gives up on the model call, and when reading
    the content of the response throws. *)
Theorem C3_analyze_resolves_to_sentinel_on_throw (imageUri : string) (w : World) :
  (exists a w', analyzeProductImage env imageUri w = Some (Ok a, w')) /\
  (forall e w1,
      analyzeBody env imageUri w = Some (Throw e, w1) ->
      analyzeProductImage env imageUri w =
        Some (Ok sentinel, emit (Console Error "Error analyzing product image:") w1)) /\
  (productName sentinel = "Unknown Product" /\
   nutritionalInfo sentinel = None /\
   nonEmpty (description sentinel) = true) /\
  (credentialAbsent env = false ->
   let w0 := emit (Console Log "Uploading image to Firebase Storage...") w in
   let key := Some (generateCacheKey "analyzeProductImage" imageUri) in
   (forall e w1,
       uploadImageToFirebase env imageUri w0 = Some (Throw e, w1) ->
       analyzeBody env imageUri w = Some (Throw e, w1)) /\
   (forall imageUrl w1 e w2,
       uploadImageToFirebase env imageUri w0 = Some (Ok imageUrl, w1) ->
       withRetry env (createCompletion env imageUrl) key defaultMaxRetries
         (emit (Console Log "Sending image to OpenAI for analysis...") w1)
         = Some (Throw e, w2) ->
       analyzeBody env imageUri w = Some (Throw e, w2)) /\
   (forall imageUrl w1 response w2 e w3,
       uploadImageToFirebase env imageUri w0 = Some (Ok imageUrl, w1) ->
       withRetry env (createCompletion env imageUrl) key defaultMaxRetries
         (emit (Console Log "Sending image to OpenAI for analysis...") w1)
         = Some (Ok response, w2) ->
       responseContent response w2 = Some (Throw e, w3) ->
       analyzeBody env imageUri w = Some (Throw e, w3))).
Proof.
  split; [|split; [|split]].
  - apply (resolves_tryCatch (analyzeBody env imageUri)).
    + apply analyzeBody_settles.
    + intros e. auto using console_resolves with settle.
  - intros e w1 H. exact (analyzeProductImage_catches imageUri w w1 e H).
  - repeat split.
  - intros Hcred w0 key. rewrite (analyzeBody_with_credential imageUri w Hcred).
    fold w0. fold key. split; [|split].
    + intros e w1 Hup. unfold bind at 1. rewrite Hup. reflexivity.
    + intros imageUrl w1 e w2 Hup Hcall. unfold bind at 1. rewrite Hup.
      unfold bind at 1. cbn [console effect]. unfold bind at 1. rewrite Hcall. reflexivity.
    + intros imageUrl w1 response w2 e w3 Hup Hcall Hread. unfold bind at 1. rewrite Hup.
      unfold bind at 1. cbn [console effect]. unfold bind at 1. rewrite Hcall.
      unfold bind at 1. rewrite Hread. reflexivity.
Qed.

(** C4.  Without the credential the [try] block of [analyzeProductImage]
    throws the configuration error as its first step, after one console
    line that reports it; [analyzeProductImage] then resolves to the
    sentinel with one more console line.  Nothing else happens: no upload,
    no request to the model endpoint, no timer, no draw, and the cache
    and the clock stay as they were. *)
Theorem C4_missing_credential_fails_fast (imageUri : string) (w : World) :
  credentialAbsent env = true ->
  analyzeBody env imageUri w =
    Some (Throw (newError "OpenAI API key is missing. Please check your configuration."),
          emit (Console Error "OpenAI API key is not configured") w) /\
  analyzeProductImage env imageUri w =
    Some (Ok sentinel,
          emit (Console Error "Error analyzing product image:")
            (emit (Console Error "OpenAI API key is not configured") w)) /\
  forall r w',
    analyzeProductImage env imageUri w = Some (r, w') ->
    outside (trace w') = outside (trace w) /\
    waits (trace w') = waits (trace w) /\
    responseCache w' = responseCache w /\
    draws w' = draws w /\
    now w' = now w.
Proof.
  intros Hcred.
  assert (Hbody : analyzeBody env imageUri w =
    Some (Throw (newError "OpenAI API key is missing. Please check your configuration."),
          emit (Console Error "OpenAI API key is not configured") w)).
  { unfold analyzeBody. rewrite Hcred. reflexivity. }
  split; [exact Hbody|].
  pose proof (analyzeProductImage_catches imageUri w _ _ Hbody) as Hrun.
  split; [exact Hrun|].
  intros r w' H. rewrite Hrun in H. inversion H; subst. cbn. repeat split.
Qed.

End PipelineProperties.

Section PipelineScenarios.
Import JsString Js OpenAI.

(** Three runs that end in the sentinel: the upload and the local read
    both fail; the model endpoint rejects all six attempts; the response
    has no [choices]. *)
Lemma C3_sentinel_witness :
  (exists e w1,
      analyzeBody (offline (Some "sk-test") 0) "file:///a.jpg" (freshWorld 0)
        = Some (Throw e, w1) /\
      analyzeProductImage (offline (Some "sk-test") 0) "file:///a.jpg" (freshWorld 0)
        = Some (Ok sentinel, emit (Console Error "Error analyzing product image:") w1)) /\
  (exists e w1,
      analyzeBody (storageDenied "AAAA" (Throw networkError)) "file:///a.jpg" (freshWorld 0)
        = Some (Throw e, w1) /\
      length (waits (trace w1)) = 5%nat /\
      analyzeProductImage (storageDenied "AAAA" (Throw networkError)) "file:///a.jpg"
        (freshWorld 0)
        = Some (Ok sentinel, emit (Console Error "Error analyzing product image:") w1)) /\
  (exists e w1,
      analyzeBody (storageDenied "AAAA" (Ok (VObj []))) "file:///a.jpg" (freshWorld 0)
        = Some (Throw e, w1) /\
      analyzeProductImage (storageDenied "AAAA" (Ok (VObj []))) "file:///a.jpg" (freshWorld 0)
        = Some (Ok sentinel, emit (Console Error "Error analyzing product image:") w1)).
Proof.
  split; [|split].
  - eexists. eexists. split; [vm_compute; reflexivity|].
    eapply (proj1 (proj2 (C3_analyze_resolves_to_sentinel_on_throw
                           (offline (Some "sk-test") 0) "file:///a.jpg" (freshWorld 0)))).
    vm_compute. reflexivity.
  - eexists. eexists. split; [vm_compute; reflexivity|]. split; [reflexivity|].
    eapply (proj1 (proj2 (C3_analyze_resolves_to_sentinel_on_throw
                           (storageDenied "AAAA" (Throw networkError)) "file:///a.jpg"
                           (freshWorld 0)))).
    vm_compute. reflexivity.
  - eexists. eexists. split; [vm_compute; reflexivity|].
    eapply (proj1 (proj2 (C3_analyze_resolves_to_sentinel_on_throw
                           (storageDenied "AAAA" (Ok (VObj []))) "file:///a.jpg"
                           (freshWorld 0)))).
    vm_compute. reflexivity.
Defined.

Lemma C4_missing_credential_witness :
  credentialAbsent (offline None 0) = true /\
  analyzeProductImage (offline None 0) "file:///a.jpg" (freshWorld 0) =
    Some (Ok sentinel,
          emit (Console Error "Error analyzing product image:")
            (emit (Console Error "OpenAI API key is not configured") (freshWorld 0))) /\
  credentialAbsent (offline (Some EmptyString) 0) = true /\
  analyzeProductImage (offline (Some EmptyString) 0) "file:///a.jpg" (freshWorld 0) =
    Some (Ok sentinel,
          emit (Console Error "Error analyzing product image:")
            (emit (Console Error "OpenAI API key is not configured") (freshWorld 0))).
Proof.
  split; [reflexivity|]. split.
  - exact (proj1 (proj2 (C4_missing_credential_fails_fast (offline None 0)
                           "file:///a.jpg" (freshWorld 0) eq_refl))).
  - split; [reflexivity|].
    exact (proj1 (proj2 (C4_missing_credential_fails_fast (offline (Some EmptyString) 0)
                           "file:///a.jpg" (freshWorld 0) eq_refl))).
Defined.

(** A failed upload with a readable file, and one with an unreadable
    file. *)
Lemma C7_fallback_witness :
  (exists w2,
      uploadImageToFirebase (storageDenied "AAAA" (Throw networkError)) "file:///a.jpg"
        (freshWorld 0) = Some (Ok "data:image/jpeg;base64,AAAA", w2)) /\
  (exists w2,
      uploadImageToFirebase (offline None 0) "file:///a.jpg" (freshWorld 0)
        = Some (Throw networkError, w2)).
Proof.
  split.
  - destruct (C7_failed_upload_falls_back_to_base64 (storageDenied "AAAA" (Throw networkError))
                "file:///a.jpg" (freshWorld 0)) as [Hfall _].
    destruct (remoteUpload_settles (storageDenied "AAAA" (Throw networkError))
                "file:///a.jpg" (freshWorld 0)) as ([url|e] & w1 & Hrem).
    + vm_compute in Hrem. discriminate.
    + specialize (Hfall e w1 Hrem). cbn in Hfall.
      destruct Hfall as (w2 & Hup & _). exists w2. exact Hup.
  - destruct (C7_failed_upload_falls_back_to_base64 (offline None 0)
                "file:///a.jpg" (freshWorld 0)) as [Hfall _].
    destruct (remoteUpload_settles (offline None 0) "file:///a.jpg" (freshWorld 0))
      as ([url|e] & w1 & Hrem).
    + vm_compute in Hrem. discriminate.
    + specialize (Hfall e w1 Hrem). cbn in Hfall. exact Hfall.
Defined.

End PipelineScenarios.

(* ===================================================================== *)
(** * Properties of the history store *)
(* ===================================================================== *)

Section SortProperties.
Import History.

Lemma insertNewest_In (x y : ProductDetails) (l : list ProductDetails) :
  In y (insertNewest x l) <-> y = x \/ In y l.
Proof.
  induction l as [|z l IH]; cbn.
  - intuition congruence.
  - destruct (scanDate z <=? scanDate x)%Z; cbn; [intuition congruence|].
    rewrite IH. intuition congruence.
Qed.

Lemma sortNewestFirst_In (y : ProductDetails) (l : list ProductDetails) :
  In y (sortNewestFirst l) <-> In y l.
Proof.
  induction l as [|x l IH]; cbn; [reflexivity|].
  rewrite insertNewest_In, IH. intuition congruence.
Qed.

Lemma insertNewest_sorted (x : ProductDetails) (l : list ProductDetails) :
  newestFirst l -> newestFirst (insertNewest x l).
Proof.
  unfold newestFirst. induction l as [|z l IH]; intros Hs; cbn.
  - constructor; constructor.
  - destruct (scanDate z <=? scanDate x)%Z eqn:Hzx.
    + apply Z.leb_le in Hzx. constructor; [exact Hs|].
      inversion Hs as [|? ? Hl Hz]; subst. constructor; [exact Hzx|].
      rewrite Stdlib.Lists.List.Forall_forall in *. intros y Hy. specialize (Hz y Hy). lia.
    + apply Z.leb_gt in Hzx. inversion Hs as [|? ? Hl Hz]; subst.
      constructor; [apply IH; exact Hl|].
      rewrite Stdlib.Lists.List.Forall_forall in *. intros y Hy. apply insertNewest_In in Hy.
      destruct Hy as [->|Hy]; [lia | apply Hz; exact Hy].
Qed.

Lemma sortNewestFirst_sorted (l : list ProductDetails) : newestFirst (sortNewestFirst l).
Proof.
  induction l as [|x l IH]; cbn; [constructor | apply insertNewest_sorted; exact IH].
Qed.

Lemma insertNewest_perm (x : ProductDetails) (l : list ProductDetails) :
  Permutation (insertNewest x l) (x :: l).
Proof.
  induction l as [|z l IH]; cbn; [reflexivity|].
  destruct (scanDate z <=? scanDate x)%Z; [reflexivity|].
  rewrite IH. apply perm_swap.
Qed.

(** The sort rearranges the list and loses nothing. *)
Lemma sortNewestFirst_perm (l : list ProductDetails) : Permutation (sortNewestFirst l) l.
Proof.
  induction l as [|x l IH]; [constructor|].
  change (Permutation (insertNewest x (sortNewestFirst l)) (x :: l)).
  rewrite insertNewest_perm. constructor. exact IH.
Qed.

End SortProperties.

Section StoreProperties.
Import JsString Js History.
Variable env : Env.

Ltac run_store :=
  unfold saveLocally, tryCatch, bind, getItem, getDocs, addDoc, writeItem, request,
    parseHistory, reads, console, effect, ret, throw; cbn -[historyKey decimal lookup insert].

(** The local fallback always resolves; it leaves the remote collection
    alone and either leaves the local storage alone or appends one
    record to the list of the user. *)
Lemma saveLocally_effect (userId : string) (doc : ScanDoc) (w : Stores) :
  exists w',
    saveLocally env userId doc w = Some (Ok tt, w') /\
    scanHistory w' = scanHistory w /\
    (asyncStorage w' = asyncStorage w \/
     exists items t,
       localList (asyncStorage w !! historyKey userId) = Some items /\
       asyncStorage w' =
         <[historyKey userId := HistoryJson (items ++ [localScanOf doc t])]> (asyncStorage w)).
Proof.
  run_store.
  destruct (getItemFails env (length (trace w))); cbn -[historyKey decimal lookup insert]; [eauto|].
  destruct (asyncStorage w !! historyKey userId) as [[items|]|]; cbn -[historyKey decimal lookup insert]; [| eauto |].
  - destruct (setItemFails env _); cbn -[historyKey decimal lookup insert]; [eauto|].
    eexists. split; [reflexivity|]. split; [reflexivity|]. right.
    exists items. eexists. split; reflexivity.
  - destruct (setItemFails env _); cbn -[historyKey decimal lookup insert]; [eauto|].
    eexists. split; [reflexivity|]. split; [reflexivity|]. right.
    exists []. eexists. split; reflexivity.
Qed.

(** When the local storage works the record is appended. *)
Lemma saveLocally_appends (userId : string) (doc : ScanDoc) (w : Stores)
      (items : list LocalScan) :
  getItemFails env (length (trace w)) = None ->
  localList (asyncStorage w !! historyKey userId) = Some items ->
  setItemFails env (1 + length (trace w)) = None ->
  exists w' t,
    saveLocally env userId doc w = Some (Ok tt, w') /\
    scanHistory w' = scanHistory w /\
    length (trace w') = (3 + length (trace w))%nat /\
    asyncStorage w' =
      <[historyKey userId := HistoryJson (items ++ [localScanOf doc t])]> (asyncStorage w).
Proof.
  intros Hget Hitems Hset. cbn in Hset. run_store. rewrite Hget. cbn -[historyKey decimal lookup insert].
  destruct (asyncStorage w !! historyKey userId) as [[items'|]|]; cbn in Hitems;
    inversion Hitems; subst; cbn -[historyKey decimal lookup insert]; rewrite Hset; cbn -[historyKey decimal lookup insert];
    eexists; eexists; repeat split; reflexivity.
Qed.

Ltac run_save :=
  unfold saveScanHistory, tryCatch, bind, addDoc, request, reads, console, effect, ret;
  cbn -[saveLocally historyKey decimal lookup insert includes toLowerCase errorText].

(** The world in which the fallback of [saveScanHistory] starts. *)
Lemma saveScanHistory_remote (userId : string) (d : ProductDetails) (w : Stores) :
  nonEmpty userId = true ->
  addDocFails env (length (trace w)) = None ->
  exists w',
    saveScanHistory env userId d w = Some (Ok tt, w') /\
    scanHistory w' = (scanHistory w ++ [documentOf userId d (now w)])%list /\
    asyncStorage w' = asyncStorage w.
Proof.
  intros Hu Hadd. run_save. rewrite Hu. run_save. rewrite Hadd. run_save.
  eexists. repeat split; reflexivity.
Qed.

Lemma saveScanHistory_local (userId : string) (d : ProductDetails) (w : Stores)
      (err : value) (items : list LocalScan) :
  nonEmpty userId = true ->
  addDocFails env (length (trace w)) = Some err ->
  getItemFails env (3 + length (trace w)) = None ->
  localList (asyncStorage w !! historyKey userId) = Some items ->
  setItemFails env (4 + length (trace w)) = None ->
  exists w' t,
    saveScanHistory env userId d w = Some (Ok tt, w') /\
    scanHistory w' = scanHistory w /\
    asyncStorage w' =
      <[historyKey userId :=
          HistoryJson (items ++ [localScanOf (documentOf userId d (now w)) t])]>
        (asyncStorage w).
Proof.
  intros Hu Hadd Hget Hitems Hset. run_save. rewrite Hu. run_save. rewrite Hadd. run_save.
  match goal with |- context [saveLocally env userId ?doc ?w0] =>
    destruct (saveLocally_appends userId doc w0 items) as (w1 & t & Hrun & Hsh & _ & Has);
      [exact Hget | exact Hitems | exact Hset | rewrite Hrun]
  end.
  cbn -[historyKey decimal lookup insert] in Hsh, Has.
  destruct (includes _ _ || includes _ _); cbn -[historyKey decimal lookup insert];
    eexists; exists t; (split; [reflexivity|]); (split; [exact Hsh | exact Has]).
Qed.

(** [saveScanHistory] always resolves: to the remote collection it adds
    the document of this save or nothing, to the local storage it
    writes the list of this user or nothing. *)
Lemma saveScanHistory_effect (userId : string) (d : ProductDetails) (w : Stores) :
  exists w',
    saveScanHistory env userId d w = Some (Ok tt, w') /\
    (scanHistory w' = scanHistory w \/
     scanHistory w' = (scanHistory w ++ [documentOf userId d (now w)])%list) /\
    (asyncStorage w' = asyncStorage w \/
     exists items,
       asyncStorage w' = <[historyKey userId := HistoryJson items]> (asyncStorage w)).
Proof.
  run_save. destruct (nonEmpty userId); run_save; [|eauto 6].
  destruct (addDocFails env (length (trace w))) as [err|]; run_save; [|eauto 6].
  match goal with |- context [saveLocally env userId ?doc ?w0] =>
    destruct (saveLocally_effect userId doc w0) as (w1 & Hrun & Hsh & Has); rewrite Hrun
  end.
  assert (Has' : asyncStorage w1 = asyncStorage w \/
                 exists items,
                   asyncStorage w1 = <[historyKey userId := HistoryJson items]> (asyncStorage w)).
  { destruct Has as [Has|(items & t & _ & Has)]; [left; exact Has | right; eauto]. }
  cbn -[historyKey decimal lookup insert] in Hsh, Has'.
  destruct (includes _ _ || includes _ _); cbn -[historyKey decimal lookup insert];
    eexists; (split; [reflexivity|]); (split; [left; exact Hsh | exact Has']).
Qed.

Ltac run_list :=
  unfold getScanHistory, tryCatch, bind, getDocs, getItem, request, parseHistory, reads,
    console, effect, ret, throw;
  cbn -[historyKey lookup sortNewestFirst].

(** The records of [userId] in the remote collection. *)
Lemma getScanHistory_remote (userId : string) (w : Stores) :
  getDocsFails env (length (trace w)) = None ->
  exists w',
    getScanHistory env userId w =
      Some (Ok (sortNewestFirst
                  (map toDetails
                     (List.filter (fun d => String.eqb (docUserId d) userId) (scanHistory w)))),
            w') /\
    scanHistory w' = scanHistory w /\ asyncStorage w' = asyncStorage w.
Proof.
  intros Hdocs. run_list. rewrite Hdocs. run_list. eexists. repeat split; reflexivity.
Qed.

(** The records of the local list of [userId]. *)
Lemma getScanHistory_local (userId : string) (w : Stores) (err : value)
      (items : list LocalScan) :
  getDocsFails env (length (trace w)) = Some err ->
  getItemFails env (3 + length (trace w)) = None ->
  localList (asyncStorage w !! historyKey userId) = Some items ->
  exists w',
    getScanHistory env userId w =
      Some (Ok (sortNewestFirst (map (fun item => toDetails (localDoc item)) items)), w') /\
    scanHistory w' = scanHistory w /\ asyncStorage w' = asyncStorage w.
Proof.
  intros Hdocs Hget Hitems. cbn in Hget. run_list. rewrite Hdocs. run_list.
  rewrite Hget. run_list.
  destruct (asyncStorage w !! historyKey userId) as [[items'|]|]; cbn in Hitems;
    inversion Hitems; subst; run_list; eexists; repeat split; reflexivity.
Qed.

(** When the query fails and the local read fails too, the list is
    empty. *)
Lemma getScanHistory_failure (userId : string) (w : Stores) (err : value) :
  getDocsFails env (length (trace w)) = Some err ->
  (exists err', getItemFails env (3 + length (trace w)) = Some err') \/
  asyncStorage w !! historyKey userId = Some Malformed ->
  exists w', getScanHistory env userId w = Some (Ok [], w').
Proof.
  intros Hdocs Hlocal. run_list. rewrite Hdocs. run_list.
  destruct (getItemFails env _) as [e|] eqn:Hget; run_list; [eauto|].
  destruct Hlocal as [(err' & Herr)|Hbad]; [cbn in Herr; congruence|].
  rewrite Hbad. run_list. eauto.
Qed.

(** [getScanHistory] always resolves, to a list sorted newest first,
    and leaves both stores as they are. *)
Lemma getScanHistory_effect (userId : string) (w : Stores) :
  exists l w',
    getScanHistory env userId w = Some (Ok l, w') /\
    newestFirst l /\
    scanHistory w' = scanHistory w /\ asyncStorage w' = asyncStorage w.
Proof.
  destruct (getDocsFails env (length (trace w))) as [err|] eqn:Hdocs.
  - destruct (getItemFails env (3 + length (trace w))) as [err'|] eqn:Hget.
    + run_list. rewrite Hdocs. run_list. cbn in Hget. rewrite Hget. run_list.
      eexists. eexists. split; [reflexivity|]. split; [constructor|]. split; reflexivity.
    + destruct (localList (asyncStorage w !! historyKey userId)) as [items|] eqn:Hitems.
      * destruct (getScanHistory_local userId w err items Hdocs Hget Hitems)
          as (w' & Hrun & Hs).
        eexists. eexists. split; [exact Hrun|]. split; [apply sortNewestFirst_sorted | exact Hs].
      * run_list. rewrite Hdocs. run_list. cbn in Hget. rewrite Hget. run_list.
        destruct (asyncStorage w !! historyKey userId) as [[items'|]|]; cbn in Hitems;
          try discriminate.
        run_list. eexists. eexists. split; [reflexivity|]. split; [constructor|].
        split; reflexivity.
  - destruct (getScanHistory_remote userId w Hdocs) as (w' & Hrun & Hs).
    eexists. eexists. split; [exact Hrun|]. split; [apply sortNewestFirst_sorted | exact Hs].
Qed.

(** A failed remote write is absorbed: the save resolves and leaves the
    remote collection as it was. *)
Lemma saveScanHistory_absorbs (userId : string) (d : ProductDetails) (w : Stores)
      (err : value) :
  nonEmpty userId = true ->
  addDocFails env (length (trace w)) = Some err ->
  exists w',
    saveScanHistory env userId d w = Some (Ok tt, w') /\ scanHistory w' = scanHistory w.
Proof.
  intros Hu Hadd. run_save. rewrite Hu. run_save. rewrite Hadd. run_save.
  match goal with |- context [saveLocally env userId ?doc ?w0] =>
    destruct (saveLocally_effect userId doc w0) as (w1 & Hrun & Hsh & _); rewrite Hrun
  end.
  cbn -[historyKey decimal lookup insert] in Hsh.
  destruct (includes _ _ || includes _ _); cbn -[historyKey decimal lookup insert];
    eexists; (split; [reflexivity | exact Hsh]).
Qed.

Lemma append_inj (p a b : string) : p +:+ a = p +:+ b -> a = b.
Proof.
  induction p as [|c p IH]; intros H; [exact H|].
  apply IH. change (String c (p +:+ a) = String c (p +:+ b)) in H.
  injection H as H. exact H.
Qed.

Lemma historyKey_inj (a b : string) : historyKey a = historyKey b -> a = b.
Proof. apply append_inj. Qed.

Lemma noSaves_empty (userId : string) (t : Z) : noSaves userId (emptyStores t).
Proof. split; [reflexivity | apply lookup_empty]. Qed.

(** A save of another user leaves a user without saves. *)
Lemma noSaves_kept (userId other : string) (d : ProductDetails) (w w' : Stores) :
  other <> userId ->
  noSaves userId w ->
  saveScanHistory env other d w = Some (Ok tt, w') ->
  noSaves userId w'.
Proof.
  intros Hne [Hdocs Hlocal] Hsave.
  destruct (saveScanHistory_effect other d w) as (w1 & Hrun & Hsh & Has).
  rewrite Hrun in Hsave. inversion Hsave; subst w1. split.
  - destruct Hsh as [->| ->]; [exact Hdocs|].
    rewrite List.filter_app, Hdocs. cbn.
    destruct (String.eqb other userId) eqn:E; [|reflexivity].
    apply String.eqb_eq in E. contradiction.
  - destruct Has as [->|(items & ->)]; [exact Hlocal|].
    rewrite lookup_insert_ne; [exact Hlocal|].
    intros H. apply historyKey_inj in H. contradiction.
Qed.

(** For a user without saves the list is empty, whatever fails. *)
Lemma getScanHistory_noSaves (userId : string) (w : Stores) :
  noSaves userId w -> exists w', getScanHistory env userId w = Some (Ok [], w').
Proof.
  intros [Hdocs Hlocal].
  destruct (getDocsFails env (length (trace w))) as [err|] eqn:Hq.
  - destruct (getItemFails env (3 + length (trace w))) as [err'|] eqn:Hget.
    + apply (getScanHistory_failure userId w err Hq). left. eauto.
    + destruct (getScanHistory_local userId w err [] Hq Hget) as (w' & Hrun & _).
      { rewrite Hlocal. reflexivity. }
      exists w'. exact Hrun.
  - destruct (getScanHistory_remote userId w Hq) as (w' & Hrun & _).
    rewrite Hdocs in Hrun. exists w'. exact Hrun.
Qed.

(** C8.  Neither operation of the history store raises or hangs.
    [saveScanHistory] always resolves; without a user id it only logs
    that it skips the save; when the remote write fails it resolves all
    the same, leaves the remote collection as it was and, the local
    storage working, appends the record to the local list of the user
    (the scan date being one a [Timestamp] can hold, so that the write
    is attempted at all).
    [getScanHistory] always resolves; it resolves to the empty list for a
    user nothing was saved for (so in the empty stores, and after saves
    of other users only), and when the query and the local read both
    fail. *)
Theorem C8_history_store_never_raises (userId : string) (d : ProductDetails) (w : Stores) :
  (exists w', saveScanHistory env userId d w = Some (Ok tt, w')) /\
  (nonEmpty userId = false ->
   saveScanHistory env userId d w =
     Some (Ok tt, emit (Console Log "No user ID provided, skipping scan history save") w)) /\
  (forall err,
      nonEmpty userId = true ->
      addDocFails env (length (trace w)) = Some err ->
      exists w',
        saveScanHistory env userId d w = Some (Ok tt, w') /\
        scanHistory w' = scanHistory w /\
        forall items,
          storable (scanDate d) = true ->
          getItemFails env (3 + length (trace w)) = None ->
          localList (asyncStorage w !! historyKey userId) = Some items ->
          setItemFails env (4 + length (trace w)) = None ->
          exists t,
            asyncStorage w' =
              <[historyKey userId :=
                  HistoryJson (items ++ [localScanOf (documentOf userId d (now w)) t])]>
                (asyncStorage w)) /\
  (exists l w', getScanHistory env userId w = Some (Ok l, w')) /\
  (noSaves userId w -> exists w', getScanHistory env userId w = Some (Ok [], w')) /\
  (forall err,
      getDocsFails env (length (trace w)) = Some err ->
      (exists err', getItemFails env (3 + length (trace w)) = Some err') \/
      asyncStorage w !! historyKey userId = Some Malformed ->
      exists w', getScanHistory env userId w = Some (Ok [], w')) /\
  (forall t, noSaves userId (emptyStores t)) /\
  (forall other w',
      other <> userId ->
      noSaves userId w ->
      saveScanHistory env other d w = Some (Ok tt, w') ->
      noSaves userId w').
Proof.
  split; [|split; [|split; [|split; [|split; [|split; [|split]]]]]].
  - destruct (saveScanHistory_effect userId d w) as (w' & Hrun & _). eauto.
  - intros Hu. run_save. rewrite Hu. reflexivity.
  - intros err Hu Hadd.
    destruct (saveScanHistory_absorbs userId d w err Hu Hadd) as (w' & Hrun & Hsh).
    exists w'. split; [exact Hrun|]. split; [exact Hsh|].
    + intros items _ Hget Hitems Hset.
      destruct (saveScanHistory_local userId d w err items Hu Hadd Hget Hitems Hset)
        as (w1 & t & Hrun1 & _ & Has).
      rewrite Hrun in Hrun1. inversion Hrun1; subst w1. exists t. exact Has.
  - destruct (getScanHistory_effect userId w) as (l & w' & Hrun & _). eauto.
  - apply getScanHistory_noSaves.
  - intros err Hq Hlocal. exact (getScanHistory_failure userId w err Hq Hlocal).
  - intros t. apply noSaves_empty.
  - intros other w' Hne Hno Hsave. exact (noSaves_kept userId other d w w' Hne Hno Hsave).
Qed.

(** The entry of a saved document in a list of details. *)
Lemma toDetails_recallInfo (userId : string) (d : ProductDetails) (t : Z) :
  recallInfo (toDetails (documentOf userId d t)) = recallInfo d.
Proof. reflexivity. Qed.

(** C9 (amended).  For a non-empty user id and a scan date a
    [Timestamp] can hold, [saveScanHistory] followed at once by
    [getScanHistory] yields a list that holds an entry with the saved
    recall information when both took the same path: the remote write
    and the remote query both succeeded; or the remote write failed,
    the local write succeeded, the remote query failed and the local
    read succeeded.  Every list [getScanHistory] returns, on either
    branch, is sorted newest first by scan time. *)
Theorem C9_round_trip_on_the_same_path
        (userId : string) (d : ProductDetails) (w w1 : Stores) :
  nonEmpty userId = true ->
  saveScanHistory env userId d w = Some (Ok tt, w1) ->
  (storable (scanDate d) = true ->
   addDocFails env (length (trace w)) = None ->
   getDocsFails env (length (trace w1)) = None ->
   exists l w2,
     getScanHistory env userId w1 = Some (Ok l, w2) /\
     (exists p, In p l /\ recallInfo p = recallInfo d) /\
     newestFirst l) /\
  (forall err err' items,
      storable (scanDate d) = true ->
      addDocFails env (length (trace w)) = Some err ->
      getItemFails env (3 + length (trace w)) = None ->
      localList (asyncStorage w !! historyKey userId) = Some items ->
      setItemFails env (4 + length (trace w)) = None ->
      getDocsFails env (length (trace w1)) = Some err' ->
      getItemFails env (3 + length (trace w1)) = None ->
      exists l w2,
        getScanHistory env userId w1 = Some (Ok l, w2) /\
        (exists p, In p l /\ recallInfo p = recallInfo d) /\
        newestFirst l) /\
  (forall l w2, getScanHistory env userId w1 = Some (Ok l, w2) -> newestFirst l).
Proof.
  intros Hu Hsave. split; [|split].
  - intros _ Hadd Hq.
    destruct (saveScanHistory_remote userId d w Hu Hadd) as (w' & Hrun & Hsh & _).
    rewrite Hrun in Hsave. inversion Hsave; subst w'.
    destruct (getScanHistory_remote userId w1 Hq) as (w2 & Hlist & _).
    eexists. exists w2. split; [exact Hlist|]. split; [|apply sortNewestFirst_sorted].
    exists (toDetails (documentOf userId d (now w))). split; [|reflexivity].
    apply sortNewestFirst_In, in_map, filter_In. split.
    + rewrite Hsh. apply in_or_app. right. left. reflexivity.
    + cbn. apply String.eqb_refl.
  - intros err err' items _ Hadd Hget Hitems Hset Hq Hget1.
    destruct (saveScanHistory_local userId d w err items Hu Hadd Hget Hitems Hset)
      as (w' & t & Hrun & _ & Has).
    rewrite Hrun in Hsave. inversion Hsave; subst w'.
    destruct (getScanHistory_local userId w1 err'
                (items ++ [localScanOf (documentOf userId d (now w)) t]) Hq Hget1)
      as (w2 & Hlist & _).
    { rewrite Has, lookup_insert_eq. reflexivity. }
    eexists. exists w2. split; [exact Hlist|]. split; [|apply sortNewestFirst_sorted].
    exists (toDetails (localDoc (localScanOf (documentOf userId d (now w)) t))).
    split; [|reflexivity].
    apply sortNewestFirst_In.
    apply (in_map (fun item => toDetails (localDoc item))).
    apply in_or_app. right. left. reflexivity.
  - intros l w2 Hlist.
    destruct (getScanHistory_effect userId w1) as (l' & w2' & Hrun & Hsorted & _).
    rewrite Hrun in Hlist. inversion Hlist; subst. exact Hsorted.
Qed.

End StoreProperties.

Section StoreScenarios.
Import JsString Js History.

(** C9 (as stated, refuted).  When the remote write is refused the
    record goes to the local list; the query that follows succeeds and
    yields the remote records only, so the list is empty. *)
Lemma C9_mixed_paths_refute_round_trip : ~ roundTripAsStated.
Proof.
  intros H.
  pose (d := scanOf "Milk" 5).
  destruct (saveScanHistory_local writesDenied "u1" d (emptyStores 0) permissionDenied [])
    as (w1 & t & Hsave & Hsh & _); try reflexivity.
  destruct (getScanHistory_remote writesDenied "u1" w1 eq_refl) as (w2 & Hlist & _).
  rewrite Hsh in Hlist. cbn in Hlist.
  destruct (H writesDenied "u1" d (emptyStores 0) w1 w2 [] Hsave Hlist)
    as [(p & Hin & _) _].
  exact Hin.
Qed.

Lemma C9_round_trip_witness :
  exists w1,
    nonEmpty "u1" = true /\
    storable (scanDate (scanOf "Milk" 5)) = true /\
    saveScanHistory remoteDown "u1" (scanOf "Milk" 5) (emptyStores 0) = Some (Ok tt, w1) /\
    exists l w2,
      getScanHistory remoteDown "u1" w1 = Some (Ok l, w2) /\
      (exists p, In p l /\ recallInfo p = recallInfo (scanOf "Milk" 5)) /\
      newestFirst l.
Proof.
  destruct (saveScanHistory_effect remoteDown "u1" (scanOf "Milk" 5) (emptyStores 0))
    as (w1 & Hsave & _).
  exists w1. split; [reflexivity|]. split; [reflexivity|]. split; [exact Hsave|].
  destruct (C9_round_trip_on_the_same_path remoteDown "u1" (scanOf "Milk" 5)
              (emptyStores 0) w1 eq_refl Hsave) as (_ & Hlocal & _).
  apply (Hlocal permissionDenied permissionDenied []); reflexivity.
Defined.

(** The same round trip on the remote path. *)
Lemma round_trip_remote_example :
  exists w1 l w2,
    saveScanHistory allUp "u1" (scanOf "Milk" 5) (emptyStores 0) = Some (Ok tt, w1) /\
    getScanHistory allUp "u1" w1 = Some (Ok l, w2) /\
    In (scanOf "Milk" 5) l.
Proof.
  eexists. eexists. eexists. split; [vm_compute; reflexivity|].
  split; [vm_compute; reflexivity|]. left. reflexivity.
Qed.

Lemma C8_never_raises_witness :
  (exists w', saveScanHistory allDown "u1" (scanOf "Milk" 5) (emptyStores 0) = Some (Ok tt, w')) /\
  (exists w', getScanHistory allDown "u1" (emptyStores 0) = Some (Ok [], w')) /\
  storable (scanDate (scanOf "Milk" 5)) = true /\
  (exists w',
      saveScanHistory remoteDown "u1" (scanOf "Milk" 5) (emptyStores 0) = Some (Ok tt, w') /\
      scanHistory w' = [] /\
      exists t,
        asyncStorage w' =
          <[historyKey "u1" :=
              HistoryJson [localScanOf (documentOf "u1" (scanOf "Milk" 5) 0) t]]> ∅).
Proof.
  destruct (C8_history_store_never_raises allDown "u1" (scanOf "Milk" 5) (emptyStores 0))
    as (Hsave & _ & _ & _ & Hnone & _ & Hempty & _).
  split; [exact Hsave|]. split; [exact (Hnone (Hempty 0%Z))|]. split; [reflexivity|].
  destruct (C8_history_store_never_raises remoteDown "u1" (scanOf "Milk" 5) (emptyStores 0))
    as (_ & _ & Hfallback & _).
  destruct (Hfallback permissionDenied eq_refl eq_refl) as (w' & Hrun & Hremote & Hlocal).
  exists w'. split; [exact Hrun|]. split; [exact Hremote|].
  exact (Hlocal [] eq_refl eq_refl eq_refl eq_refl).
Defined.

End StoreScenarios.

(* ===================================================================== *)
(** * Further properties of the strings and of the matcher *)
(* ===================================================================== *)

Section Pieces.
Import JsString.

Lemma append_cons (c : ascii) (a b : string) : String c a +:+ b = String c (a +:+ b).
Proof. reflexivity. Qed.

Lemma append_empty_l (s : string) : EmptyString +:+ s = s.
Proof. reflexivity. Qed.

Lemma append_empty_r (s : string) : s +:+ EmptyString = s.
Proof.
  induction s as [|c s IH]; [reflexivity|]. rewrite append_cons, IH. reflexivity.
Qed.

Lemma append_assoc (a b c : string) : (a +:+ b) +:+ c = a +:+ (b +:+ c).
Proof.
  induction a as [|x a IH]; [reflexivity|]. rewrite !append_cons, IH. reflexivity.
Qed.

Lemma append_length (a b : string) :
  String.length (a +:+ b) = String.length a + String.length b.
Proof.
  induction a as [|x a IH]; [reflexivity|]. rewrite append_cons. cbn. rewrite IH. reflexivity.
Qed.

Lemma substring_append (a b : string) : substring 0 (String.length a) (a +:+ b) = a.
Proof.
  induction a as [|x a IH].
  - cbn. destruct b; reflexivity.
  - rewrite append_cons. cbn. rewrite IH. reflexivity.
Qed.

Lemma prefix_spec (needle hay : string) :
  String.prefix needle hay = true <-> exists post, hay = needle +:+ post.
Proof.
  split.
  - revert hay. induction needle as [|c needle IH]; intros hay Hp.
    + exists hay. reflexivity.
    + destruct hay as [|h hay]; [discriminate|].
      cbn in Hp. destruct (ascii_dec c h) as [->|]; [|discriminate].
      destruct (IH hay Hp) as (post & ->). exists post. reflexivity.
  - intros (post & ->). apply prefix_append.
Qed.

Lemma occursIn_refl (s : string) : occursIn s s.
Proof. exists EmptyString, EmptyString. rewrite append_empty_r. reflexivity. Qed.

Lemma occursIn_trans (a b c : string) : occursIn a b -> occursIn b c -> occursIn a c.
Proof.
  intros (p1 & q1 & ->) (p2 & q2 & ->). exists (p2 +:+ p1), (q1 +:+ q2).
  rewrite !append_assoc. reflexivity.
Qed.

Lemma occursIn_prefix (a b : string) : occursIn a (a +:+ b).
Proof. exists EmptyString, b. reflexivity. Qed.

Lemma occursIn_suffix (a b : string) : occursIn b (a +:+ b).
Proof. exists a, EmptyString. rewrite append_empty_r. reflexivity. Qed.

Lemma occursIn_empty (s : string) : occursIn EmptyString s.
Proof. exists EmptyString, s. reflexivity. Qed.

(** [hay.includes(needle)] holds exactly when [needle] is a piece of
    [hay]. *)
Lemma includes_spec (hay needle : string) :
  includes hay needle = true <-> occursIn needle hay.
Proof.
  split.
  - induction hay as [|h hay IH]; cbn [includes].
    + destruct (String.prefix needle EmptyString) eqn:Hp; [|discriminate].
      intros _. apply prefix_spec in Hp. destruct Hp as (post & Hp).
      exists EmptyString, post. exact Hp.
    + destruct (String.prefix needle (String h hay)) eqn:Hp.
      * intros _. apply prefix_spec in Hp. destruct Hp as (post & Hp).
        exists EmptyString, post. exact Hp.
      * intros H. destruct (IH H) as (pre & post & ->).
        exists (String h pre), post. reflexivity.
  - intros (pre & post & ->). induction pre as [|c pre IH].
    + change (EmptyString +:+ needle +:+ post) with (needle +:+ post).
      pose proof (prefix_append needle post) as Hp.
      destruct (needle +:+ post); cbn [includes]; rewrite Hp; reflexivity.
    + rewrite append_cons. cbn [includes]. rewrite IH.
      destruct (String.prefix needle _); reflexivity.
Qed.

Lemma trimStart_suffix (s : string) : exists pre, s = pre +:+ trimStart s.
Proof.
  induction s as [|c s IH]; [exists EmptyString; reflexivity|].
  cbn [trimStart]. destruct (isWhiteSpace c).
  - destruct IH as (pre & IH). exists (String c pre). rewrite append_cons, <- IH. reflexivity.
  - exists EmptyString. reflexivity.
Qed.

Lemma trimEnd_prefix (s : string) : exists post, s = trimEnd s +:+ post.
Proof.
  induction s as [|c s IH]; [exists EmptyString; reflexivity|].
  destruct IH as (post & IH). cbn [trimEnd]. destruct (trimEnd s) as [|d t] eqn:Ht.
  - destruct (isWhiteSpace c).
    + exists (String c s). reflexivity.
    + exists s. reflexivity.
  - exists post. rewrite append_cons, <- IH. reflexivity.
Qed.

Lemma trim_occursIn (s : string) : occursIn (trim s) s.
Proof.
  unfold trim. destruct (trimStart_suffix s) as (pre & Hs).
  destruct (trimEnd_prefix (trimStart s)) as (post & Ht).
  exists pre, post. rewrite <- Ht. exact Hs.
Qed.

End Pieces.

Section MatchedPieces.
Import JsString Regex.

Lemma ahead_refl (p : pos) : ahead p p.
Proof. exists EmptyString. reflexivity. Qed.

Lemma ahead_trans (p p1 p2 : pos) : ahead p p1 -> ahead p1 p2 -> ahead p p2.
Proof.
  intros (u & Hu) (v & Hv). exists (u +:+ v). rewrite Hu, Hv, append_assoc. reflexivity.
Qed.

Lemma groupFrom_refl (p : pos) : groupFrom p p.
Proof. left. reflexivity. Qed.

Lemma groupFrom_trans (p p1 p2 : pos) :
  ahead p p1 -> groupFrom p p1 -> groupFrom p1 p2 -> groupFrom p p2.
Proof.
  intros (u & Hu) H1 [H2|(g & Hg & Hin)].
  - destruct H1 as [H1|(g & Hg & Hin)].
    + left. congruence.
    + right. exists g. split; [congruence | exact Hin].
  - right. exists g. split; [exact Hg|]. rewrite Hu.
    eapply occursIn_trans; [exact Hin | apply occursIn_suffix].
Qed.

Lemma consumed_ahead (p p' : pos) (u : string) :
  rest p = u +:+ rest p' -> consumed p p' = u.
Proof.
  intros Hu. unfold consumed. rewrite Hu, append_length.
  replace (String.length u + String.length (rest p') - String.length (rest p'))
    with (String.length u) by lia.
  apply substring_append.
Qed.

(** What the matcher hands to its continuation: a position further
    along, with a group that is a piece of the input. *)
Lemma run_pieces (r : regex) :
  forall p k q,
    run r p k = Some q ->
    exists p', k p' = Some q /\ ahead p p' /\ groupFrom p p'.
Proof.
  induction r as [|cls|r1 IH1 r2 IH2|r1 IH1 r2 IH2|greedy r1 IH1|r1 IH1| | |r1 IH1];
    intros p k q H; cbn [run] in H.
  - exists p. split; [exact H|]. split; [apply ahead_refl | apply groupFrom_refl].
  - destruct (rest p) as [|c s'] eqn:Hrest; [discriminate|].
    destruct (cls c); [|discriminate].
    eexists. split; [exact H|]. split.
    + exists (String c EmptyString). rewrite Hrest. reflexivity.
    + left. reflexivity.
  - apply IH1 in H. destruct H as (p1 & H & Ha1 & Hg1).
    apply IH2 in H. destruct H as (p2 & H & Ha2 & Hg2).
    exists p2. split; [exact H|]. split; [eapply ahead_trans; eassumption|].
    eapply groupFrom_trans; eassumption.
  - unfold orElse in H. destruct (run r1 p k) eqn:H1.
    + inversion H; subst. apply IH1 in H1. exact H1.
    + apply IH2 in H. exact H.
  - remember (S (String.length (rest p))) as fuel eqn:Hfuel. clear Hfuel.
    revert p H. induction fuel as [|fuel IHf]; intros p H; cbn [iterate] in H.
    + exists p. split; [exact H|]. split; [apply ahead_refl | apply groupFrom_refl].
    + match type of H with
      | (if _ then orElse ?again _ else _) = _ => destruct again as [q1|] eqn:Hagain
      end.
      * assert (Hq : q1 = q \/ k p = Some q).
        { destruct greedy; unfold orElse in H.
          - left. congruence.
          - destruct (k p); [right; exact H | left; congruence]. }
        destruct Hq as [->|Hk];
          [|exists p; split; [exact Hk|]; split; [apply ahead_refl | apply groupFrom_refl]].
        apply IH1 in Hagain. destruct Hagain as (p1 & Hloop & Ha1 & Hg1).
        destruct (Nat.ltb _ _); [|discriminate].
        apply IHf in Hloop. destruct Hloop as (p2 & Hk & Ha2 & Hg2).
        exists p2. split; [exact Hk|]. split; [eapply ahead_trans; eassumption|].
        eapply groupFrom_trans; eassumption.
      * exists p. split; [|split; [apply ahead_refl | apply groupFrom_refl]].
        destruct greedy; unfold orElse in H; [exact H|].
        destruct (k p); [exact H | discriminate].
  - apply IH1 in H. destruct H as (p1 & H & Ha & Hg).
    eexists. split; [exact H|]. split; [exact Ha|].
    right. cbn [group1]. eexists. split; [reflexivity|].
    destruct Ha as (u & Hu). rewrite (consumed_ahead p p1 u Hu), Hu.
    apply occursIn_prefix.
  - destruct (atLineStart p); [|discriminate].
    exists p. split; [exact H|]. split; [apply ahead_refl | apply groupFrom_refl].
  - destruct (rest p) eqn:Hrest; [|discriminate].
    exists p. split; [exact H|]. split; [apply ahead_refl | apply groupFrom_refl].
  - destruct (run r1 p Some) as [p1|] eqn:Hrun; [|discriminate].
    apply IH1 in Hrun. destruct Hrun as (p1' & [= <-] & Ha & Hg).
    eexists. split; [exact H|]. split; [exists EmptyString; reflexivity|].
    destruct Hg as [Hg|(g & Hg & Hin)]; [left; exact Hg|].
    right. exists g. split; [exact Hg | exact Hin].
Qed.

(** The whole match and the group of a search are pieces of the text. *)
Lemma exec_pieces (r : regex) (s : string) (m : matched) :
  exec r s = Some m ->
  occursIn (whole m) s /\ forall g, group m = Some g -> occursIn g s.
Proof.
  unfold exec. generalize (@None ascii) as prev.
  induction s as [|c0 s IH]; intros prev H; cbn [searchFrom] in H; unfold matchAt in H.
  - destruct (run r (Pos prev EmptyString None) Some) as [p1|] eqn:Hrun; [|discriminate].
    inversion H; subst m. cbn [whole group].
    apply run_pieces in Hrun. destruct Hrun as (p' & [= ->] & (u & Hu) & Hg).
    split.
    + rewrite (consumed_ahead _ _ u Hu). cbn [rest] in Hu. rewrite Hu. apply occursIn_prefix.
    + intros g Hgr. destruct Hg as [Hg|(g' & Hg & Hin)]; cbn in Hg; [congruence|].
      cbn [rest] in Hin. congruence.
  - destruct (run r (Pos prev (String c0 s) None) Some) as [p1|] eqn:Hrun.
    + inversion H; subst m. cbn [whole group].
      apply run_pieces in Hrun. destruct Hrun as (p' & [= ->] & (u & Hu) & Hg).
      split.
      * rewrite (consumed_ahead _ _ u Hu). cbn [rest] in Hu. rewrite Hu. apply occursIn_prefix.
      * intros g Hgr. destruct Hg as [Hg|(g' & Hg & Hin)]; cbn in Hg; [congruence|].
        cbn [rest] in Hin. congruence.
    + apply IH in H. destruct H as [Hw Hg]. split.
      * eapply occursIn_trans; [exact Hw|]. apply (occursIn_suffix (String c0 EmptyString) s).
      * intros g Hgr. eapply occursIn_trans; [exact (Hg g Hgr)|].
        apply (occursIn_suffix (String c0 EmptyString) s).
Qed.

End MatchedPieces.

Section SplitPieces.
Import JsString Regex.

(** A piece [split] yields lies in the text still to be read, or is the
    piece in the making followed by text that comes after the code
    units to skip. *)
Lemma splitGo_pieces (r : regex) :
  forall s prev piece skip x,
    In x (splitGo r prev s piece skip) ->
    occursIn x s \/
    exists mid t post,
      s = mid +:+ t +:+ post /\ x = piece +:+ t /\ (skip = 0 -> mid = EmptyString).
Proof.
  assert (Hpiece : forall s piece skip,
    exists mid t post,
      s = mid +:+ t +:+ post /\ piece = piece +:+ t /\ (skip = 0 -> mid = EmptyString)).
  { intros s piece skip. exists EmptyString, EmptyString, s.
    rewrite append_empty_r. auto. }
  induction s as [|c s' IH]; intros prev piece skip x Hin.
  - cbn in Hin. destruct Hin as [<-|[]]. right. apply Hpiece.
  - assert (Hlater : forall y, occursIn y s' -> occursIn y (String c s')).
    { intros y Hy. eapply occursIn_trans; [exact Hy|].
      apply (occursIn_suffix (String c EmptyString) s'). }
    cbn [splitGo] in Hin. destruct skip as [|n].
    + destruct (matchAt r (Pos prev (String c s') None)) as [p1|].
      * destruct (String.length (consumed (Pos prev (String c s') None) p1)) as [|n].
        -- assert (Hrest : In x (splitGo r (Some c) s' (String c EmptyString) 0) ->
                           occursIn x (String c s')).
           { intros Hx. apply IH in Hx.
             destruct Hx as [Hx|(mid & t & post & -> & -> & Hmid)]; [exact (Hlater _ Hx)|].
             rewrite (Hmid eq_refl). exists EmptyString, post. reflexivity. }
           destruct piece as [|pc piece'].
           ++ left. exact (Hrest Hin).
           ++ destruct Hin as [<-|Hin]; [right; apply Hpiece | left; exact (Hrest Hin)].
        -- destruct Hin as [<-|Hin]; [right; apply Hpiece|].
           left. apply IH in Hin.
           destruct Hin as [Hx|(mid & t & post & -> & -> & _)]; [exact (Hlater _ Hx)|].
           apply Hlater. exists mid, post. reflexivity.
      * apply IH in Hin.
        destruct Hin as [Hx|(mid & t & post & -> & -> & Hmid)]; [left; exact (Hlater _ Hx)|].
        right. rewrite (Hmid eq_refl). exists EmptyString, (String c t), post.
        split; [reflexivity|]. split; [|reflexivity].
        rewrite append_assoc. reflexivity.
    + apply IH in Hin.
      destruct Hin as [Hx|(mid & t & post & -> & -> & _)]; [left; exact (Hlater _ Hx)|].
      right. exists (String c mid), t, post. split; [reflexivity|]. split; [reflexivity|].
      discriminate.
Qed.

(** Every piece of [text.split(r)] is a piece of the text. *)
Lemma split_pieces (r : regex) (s x : string) : In x (split r s) -> occursIn x s.
Proof.
  unfold split. destruct s as [|c s'].
  - destruct (matchAt r (Pos None EmptyString None)); [intros []|].
    intros [<-|[]]. apply occursIn_refl.
  - intros Hin. apply splitGo_pieces in Hin.
    destruct Hin as [Hx|(mid & t & post & Hs & -> & Hmid)]; [exact Hx|].
    rewrite Hs, (Hmid eq_refl). exists EmptyString, post. reflexivity.
Qed.

End SplitPieces.

Section ExtractedPieces.
Import JsString Regex Extract.

Lemma captured_piece (pat : regex) (text v : string) :
  captured (exec pat text) = Some v -> occursIn v text.
Proof.
  destruct (exec pat text) as [[wh [g|]]|] eqn:He; cbn; try discriminate.
  destruct (nonEmpty (trim g)); [|discriminate]. intros [= <-].
  apply exec_pieces in He. destruct He as [_ Hg].
  eapply occursIn_trans; [apply trim_occursIn | apply Hg; reflexivity].
Qed.

Lemma firstCaptured_piece (pats : list regex) (text v : string) :
  firstCaptured pats text = Some v -> occursIn v text.
Proof.
  induction pats as [|pat pats IH]; cbn [firstCaptured]; [discriminate|].
  destruct (captured (exec pat text)) as [v'|] eqn:Hc; [|exact IH].
  intros [= <-]. eapply captured_piece, Hc.
Qed.

Lemma firstWhole_piece (pats : list regex) (sentence v : string) :
  firstWhole pats sentence = Some v -> occursIn v sentence.
Proof.
  induction pats as [|pat pats IH]; cbn [firstWhole]; [discriminate|].
  destruct (exec pat sentence) as [m|] eqn:He; [|exact IH].
  destruct (nonEmpty (whole m)); [|exact IH]. intros [= <-].
  apply exec_pieces in He. destruct He as [Hw _].
  eapply occursIn_trans; [apply trim_occursIn | exact Hw].
Qed.

Lemma scanSentences_piece (key : string) (sentences : list string) (v : string) :
  scanSentences key sentences = Some v ->
  exists sentence, In sentence sentences /\ occursIn v sentence.
Proof.
  induction sentences as [|s l IH]; cbn [scanSentences]; [discriminate|].
  assert (Hl : scanSentences key l = Some v ->
               exists sentence, In sentence (s :: l) /\ occursIn v sentence).
  { intros H. destruct (IH H) as (x & Hx & Hv). exists x. split; [right; exact Hx | exact Hv]. }
  destruct (includes (toLowerCase s) (toLowerCase key)); [|exact Hl].
  destruct (firstWhole numberWithUnit s) as [v'|] eqn:Hw.
  - intros [= <-]. exists s. split; [left; reflexivity|]. eapply firstWhole_piece, Hw.
  - destruct (Nat.ltb (String.length s) 100); [|exact Hl]. intros [= <-].
    exists s. split; [left; reflexivity | apply trim_occursIn].
Qed.

Lemma extractKey_piece (text key v : string) :
  extractKey text key = Some v -> occursIn v text.
Proof.
  unfold extractKey, structural, bulleted, inSentence.
  destruct (firstCaptured (patterns key) text) as [v1|] eqn:H1.
  { intros [= <-]. eapply firstCaptured_piece, H1. }
  destruct (firstCaptured (bulletPatterns key) text) as [v2|] eqn:H2.
  { intros [= <-]. eapply firstCaptured_piece, H2. }
  destruct (includes (toLowerCase text) (toLowerCase key)); [|discriminate].
  intros H. apply scanSentences_piece in H. destruct H as (s & Hs & Hv).
  eapply occursIn_trans; [exact Hv|]. eapply split_pieces, Hs.
Qed.

End ExtractedPieces.

(* ===================================================================== *)
(** * Further properties of the field extractor *)
(* ===================================================================== *)

Section KeyCase.
Import JsString Regex Extract.

Lemma canonChar_lowerChar (c : ascii) : canonChar (lowerChar c) = canonChar c.
Proof. destruct c as [[] [] [] [] [] [] [] []]; reflexivity. Qed.

Lemma lowerChar_idem (c : ascii) : lowerChar (lowerChar c) = lowerChar c.
Proof. destruct c as [[] [] [] [] [] [] [] []]; reflexivity. Qed.

Lemma toLowerCase_idem (s : string) : toLowerCase (toLowerCase s) = toLowerCase s.
Proof.
  induction s as [|c s IH]; cbn; [reflexivity|]. rewrite lowerChar_idem, IH. reflexivity.
Qed.

Lemma chrI_lowerChar (c : ascii) : chrI (lowerChar c) = chrI c.
Proof. unfold chrI. rewrite canonChar_lowerChar. reflexivity. Qed.

(** Under the [i] flag a literal and its lower-case form are the same
    pattern. *)
Lemma litI_toLowerCase (s : string) : litI (toLowerCase s) = litI s.
Proof.
  induction s as [|c s IH]; [reflexivity|].
  cbn [toLowerCase litI]. rewrite chrI_lowerChar.
  destruct s as [|d s]; [reflexivity|].
  cbn [toLowerCase] in *. rewrite IH. reflexivity.
Qed.

Lemma extractKey_toLowerCase (text key : string) :
  extractKey text (toLowerCase key) = extractKey text key.
Proof.
  assert (Hscan : forall sentences,
    scanSentences (toLowerCase key) sentences = scanSentences key sentences).
  { induction sentences as [|s l IH]; [reflexivity|].
    cbn [scanSentences]. rewrite toLowerCase_idem, IH. reflexivity. }
  unfold extractKey, structural, bulleted, inSentence, patterns, bulletPatterns.
  rewrite litI_toLowerCase, toLowerCase_idem, Hscan. reflexivity.
Qed.

Lemma extractKeys_toLowerCase (text : string) (keys : list string) :
  extractKeys text (map toLowerCase keys) = extractKeys text keys.
Proof.
  induction keys as [|k keys IH]; [reflexivity|].
  cbn [map extractKeys]. rewrite extractKey_toLowerCase, IH. reflexivity.
Qed.

(** X1 (extractFromResponse): the extractor does not look at the case of
    the keys.  (The keys are free of regular-expression syntax, as at
    every call site.) *)
Theorem extractFromResponse_key_case
        (text p1 p2 : string) (alts1 alts2 : list string) :
  forallb plainKey (p1 :: alts1) = true ->
  forallb plainKey (p2 :: alts2) = true ->
  toLowerCase p1 = toLowerCase p2 ->
  map toLowerCase alts1 = map toLowerCase alts2 ->
  extractFromResponse text p1 alts1 = extractFromResponse text p2 alts2.
Proof.
  intros _ _ Hp Ha. unfold extractFromResponse.
  rewrite <- (extractKeys_toLowerCase text (p1 :: alts1)).
  rewrite <- (extractKeys_toLowerCase text (p2 :: alts2)).
  cbn [map]. rewrite Hp, Ha. reflexivity.
Qed.

Lemma extractFromResponse_key_case_witness :
  forallb plainKey ["CALORIES"; "Energy"] = true /\
  forallb plainKey ["Calories"; "ENERGY"] = true /\
  toLowerCase "CALORIES" = toLowerCase "Calories" /\
  map toLowerCase ["Energy"] = map toLowerCase ["ENERGY"] /\
  extractFromResponse "Energy: 250kcal" "CALORIES" ["Energy"] = Some "250kcal" /\
  extractFromResponse "Energy: 250kcal" "CALORIES" ["Energy"] =
    extractFromResponse "Energy: 250kcal" "Calories" ["ENERGY"].
Proof.
  split; [reflexivity|]. split; [reflexivity|].
  split; [reflexivity|]. split; [reflexivity|]. split; [vm_compute; reflexivity|].
  exact (extractFromResponse_key_case "Energy: 250kcal" "CALORIES" "Calories"
           ["Energy"] ["ENERGY"] eq_refl eq_refl eq_refl eq_refl).
Defined.

End KeyCase.

Section Trimmed.
Import JsString Regex Extract.

Lemma trimEnd_cases (c : ascii) (s : string) :
  trimEnd (String c s) = EmptyString \/ exists t, trimEnd (String c s) = String c t.
Proof.
  cbn [trimEnd]. destruct (trimEnd s); [destruct (isWhiteSpace c)|]; eauto.
Qed.

Lemma trimEnd_idem (s : string) : trimEnd (trimEnd s) = trimEnd s.
Proof.
  induction s as [|c s IH]; [reflexivity|].
  cbn [trimEnd]. destruct (trimEnd s) as [|d t] eqn:Ht.
  - destruct (isWhiteSpace c) eqn:Hc; [reflexivity|]. cbn. rewrite Hc. reflexivity.
  - cbn [trimEnd]. cbn [trimEnd] in IH. rewrite IH. reflexivity.
Qed.

(** What [trimStart] leaves is empty or starts with ink. *)
Lemma trimStart_head (s : string) :
  trimStart s = EmptyString \/
  exists c t, trimStart s = String c t /\ isWhiteSpace c = false.
Proof.
  induction s as [|c s IH]; [left; reflexivity|].
  cbn [trimStart]. destruct (isWhiteSpace c) eqn:Hc; [exact IH|]. right. eauto.
Qed.

(** A trimmed string is empty or starts with ink. *)
Lemma trim_head (s : string) :
  trim s = EmptyString \/ exists c t, trim s = String c t /\ isWhiteSpace c = false.
Proof.
  unfold trim. destruct (trimStart_head s) as [->|(c & t & -> & Hc)]; [left; reflexivity|].
  destruct (trimEnd_cases c t) as [->|(t' & ->)]; [left; reflexivity|]. right. eauto.
Qed.

Lemma trim_idem (s : string) : trim (trim s) = trim s.
Proof.
  destruct (trim_head s) as [H|(c & t & H & Hc)].
  - rewrite H. reflexivity.
  - unfold trim at 1. rewrite H. cbn [trimStart]. rewrite Hc. rewrite <- H.
    unfold trim. apply trimEnd_idem.
Qed.

Lemma captured_trimmed (m : option matched) (v : string) :
  captured m = Some v -> trim v = v.
Proof.
  destruct m as [[wh [g|]]|]; cbn; try discriminate.
  destruct (nonEmpty (trim g)); [|discriminate]. intros [= <-]. apply trim_idem.
Qed.

Lemma firstCaptured_trimmed (pats : list regex) (text v : string) :
  firstCaptured pats text = Some v -> trim v = v.
Proof.
  induction pats as [|pat pats IH]; cbn [firstCaptured]; [discriminate|].
  destruct (captured (exec pat text)) as [v'|] eqn:Hc; [|exact IH].
  intros [= <-]. eapply captured_trimmed, Hc.
Qed.

Lemma firstWhole_trimmed (pats : list regex) (sentence v : string) :
  firstWhole pats sentence = Some v -> trim v = v.
Proof.
  induction pats as [|pat pats IH]; cbn [firstWhole]; [discriminate|].
  destruct (exec pat sentence) as [m|]; [|exact IH].
  destruct (nonEmpty (whole m)); [|exact IH]. intros [= <-]. apply trim_idem.
Qed.

Lemma scanSentences_trimmed (key : string) (sentences : list string) (v : string) :
  scanSentences key sentences = Some v -> trim v = v.
Proof.
  induction sentences as [|s l IH]; cbn [scanSentences]; [discriminate|].
  destruct (includes (toLowerCase s) (toLowerCase key)); [|exact IH].
  destruct (firstWhole numberWithUnit s) as [v'|] eqn:Hw.
  - intros [= <-]. eapply firstWhole_trimmed, Hw.
  - destruct (Nat.ltb (String.length s) 100); [|exact IH]. intros [= <-]. apply trim_idem.
Qed.

Lemma extractKey_trimmed (text key v : string) :
  extractKey text key = Some v -> trim v = v.
Proof.
  unfold extractKey, structural, bulleted, inSentence.
  destruct (firstCaptured (patterns key) text) as [v1|] eqn:H1.
  { intros [= <-]. eapply firstCaptured_trimmed, H1. }
  destruct (firstCaptured (bulletPatterns key) text) as [v2|] eqn:H2.
  { intros [= <-]. eapply firstCaptured_trimmed, H2. }
  destruct (includes (toLowerCase text) (toLowerCase key)); [|discriminate].
  apply scanSentences_trimmed.
Qed.

(** X2 (extractFromResponse): a value the extractor finds is a piece of
    the text it was given ([text.includes(v)] holds), with no white
    space at either end.  (The keys are free of regular-expression
    syntax, as at every call site.) *)
Theorem extractFromResponse_trimmed_piece
        (text primaryKey : string) (alternateKeys : list string) (v : string) :
  forallb plainKey (primaryKey :: alternateKeys) = true ->
  extractFromResponse text primaryKey alternateKeys = Some v ->
  includes text v = true /\ trim v = v.
Proof.
  intros _. unfold extractFromResponse. generalize (primaryKey :: alternateKeys). intros keys.
  induction keys as [|k keys IH]; cbn [extractKeys]; [discriminate|].
  destruct (extractKey text k) as [v'|] eqn:Hk; [|exact IH].
  intros [= <-]. split.
  - apply includes_spec. eapply extractKey_piece, Hk.
  - eapply extractKey_trimmed, Hk.
Qed.

Lemma extractFromResponse_trimmed_piece_witness :
  forallb plainKey ["fats"; "fat"] = true /\
  extractFromResponse "Total Fat:   12 g   " "fats" ["fat"] = Some "12 g" /\
  includes "Total Fat:   12 g   " "12 g" = true /\
  trim "12 g" = "12 g".
Proof.
  assert (H : extractFromResponse "Total Fat:   12 g   " "fats" ["fat"] = Some "12 g")
    by (vm_compute; reflexivity).
  split; [reflexivity|]. split; [exact H|].
  exact (extractFromResponse_trimmed_piece "Total Fat:   12 g   " "fats" ["fat"] "12 g"
           eq_refl H).
Defined.

End Trimmed.

(* ===================================================================== *)
(** * Further properties of the executor: cache keys, the retry budget *)
(* ===================================================================== *)

Section CacheKeys.
Import JsString Js OpenAI.

Lemma jsonUnescapes_jsonEscape (c : ascii) (rest : string) :
  jsonUnescapes (jsonEscape c +:+ rest) = String c (jsonUnescapes rest).
Proof.
  destruct c as [[] [] [] [] [] [] [] []]; reflexivity.
Qed.

Lemma jsonUnescapes_jsonEscapes (s rest : string) :
  jsonUnescapes (jsonEscapes s +:+ rest) = s +:+ jsonUnescapes rest.
Proof.
  induction s as [|c s IH]; cbn [jsonEscapes].
  - reflexivity.
  - rewrite append_assoc, jsonUnescapes_jsonEscape, IH. reflexivity.
Qed.

Lemma stringify_inj (p1 p2 : string) : stringify p1 = stringify p2 -> p1 = p2.
Proof.
  unfold stringify. intros H. apply append_inj in H.
  apply (f_equal jsonUnescapes) in H.
  rewrite !jsonUnescapes_jsonEscapes in H. cbn in H.
  rewrite !append_empty_r in H. exact H.
Qed.

Lemma generateCacheKey_nonEmpty (functionName params : string) :
  nonEmpty (generateCacheKey functionName params) = true.
Proof. unfold generateCacheKey. destruct functionName; reflexivity. Qed.

(** X3 (generateCacheKey): two parameters get the same cache key only
    when they are the same string, so two images never share an entry;
    and a key is never the empty string, so the cache is always looked
    up and written for it. *)
Theorem generateCacheKey_injective (functionName p1 p2 : string) :
  (generateCacheKey functionName p1 = generateCacheKey functionName p2 <-> p1 = p2) /\
  provided (Some (generateCacheKey functionName p1)) = Some (generateCacheKey functionName p1).
Proof.
  split.
  - split; [|intros ->; reflexivity].
    unfold generateCacheKey. intros H.
    apply append_inj in H. apply append_inj in H. apply stringify_inj, H.
  - unfold provided. rewrite generateCacheKey_nonEmpty. reflexivity.
Qed.

End CacheKeys.

Section RetryBudget.
Import JsString Js OpenAI.
Variable env : Env.

(** What a run of the loop over a mocked operation leaves: one
    invocation per iteration, one timer between two iterations, and the
    cache touched at the provided key only, and only by a success. *)
Lemma retryLoop_budget (script : nat -> result value) (cacheKey : option string)
      (maxRetries : Z) :
  forall fuel retries w r w',
    retryLoop env fuel (counted script) cacheKey maxRetries retries w = Some (r, w') ->
    (calls w < calls w')%nat /\
    (Z.of_nat (calls w' - calls w) <= Z.max (maxRetries - Z.of_nat retries) 0 + 1)%Z /\
    length (waits (trace w')) = (length (waits (trace w)) + (calls w' - calls w - 1))%nat /\
    (forall k, provided cacheKey <> Some k -> responseCache w' !! k = responseCache w !! k) /\
    (forall e, r = Throw e -> responseCache w' = responseCache w).
Proof.
  induction fuel as [|fuel IH]; intros retries w r w' Hrun; [discriminate|].
  cbn [retryLoop] in Hrun. unfold tryCatch, bind, counted in Hrun.
  assert (Hone : forall n : nat, (S n - n - 1 = 0)%nat) by (intros; lia).
  destruct (script (calls w)) as [v|e].
  - destruct (provided cacheKey) as [key|] eqn:Hkey; cbn in Hrun; inversion Hrun; subst; cbn;
      rewrite Hone; (split; [lia|]); (split; [lia|]); (split; [lia|]); (split; [|discriminate]).
    + intros k Hk. apply lookup_insert_ne. congruence.
    + reflexivity.
  - destruct (nullish e).
    { inversion Hrun; subst; cbn. rewrite Hone. repeat (split; [lia || reflexivity|]). reflexivity. }
    cbn in Hrun. destruct (maxRetries <=? Z.of_nat retries)%Z eqn:Hmax; cbn in Hrun.
    + inversion Hrun; subst; cbn. rewrite Hone.
      repeat (split; [lia || reflexivity|]). reflexivity.
    + apply Z.leb_gt in Hmax. apply IH in Hrun. cbn in Hrun.
      destruct Hrun as (Hc & Hb & Hw & Hk & He).
      split; [lia|]. split; [lia|]. split; [rewrite Hw; lia|]. split; assumption.
Qed.


(** After [k] failures within the budget the loop stands at retry
    [retries + k], having invoked the operation [k] times and waited
    [k] times; the cache is as it was. *)
Lemma retryLoop_after_failures (script : nat -> result value) (cacheKey : option string)
      (maxRetries : Z) :
  forall k fuel retries w,
    failsFrom script (calls w) k ->
    (Z.of_nat k <= Z.max (maxRetries - Z.of_nat retries) 0)%Z ->
    exists wk,
      retryLoop env (k + fuel) (counted script) cacheKey maxRetries retries w =
        retryLoop env fuel (counted script) cacheKey maxRetries (retries + k) wk /\
      calls wk = (calls w + k)%nat /\
      responseCache wk = responseCache w /\
      length (waits (trace wk)) = (k + length (waits (trace w)))%nat.
Proof.
  induction k as [|k IH]; intros fuel retries w Hfail Hk.
  - exists w. rewrite !Nat.add_0_r. auto.
  - destruct (Hfail 0%nat ltac:(lia)) as (e & He & Hnull). rewrite Nat.add_0_r in He.
    assert (Hmax : (maxRetries <=? Z.of_nat retries)%Z = false) by (apply Z.leb_gt; lia).
    cbn [Nat.add retryLoop]. unfold tryCatch at 1, bind at 1, counted at 1.
    rewrite He, Hnull. cbn [bind console effect]. unfold bind at 1. cbn [console effect].
    rewrite Hmax. unfold bind at 1, getBackoffTime at 1. unfold bind at 1. cbn [console effect].
    unfold bind at 1, sleep at 1.
    match goal with |- context [retryLoop env (k + fuel) _ _ _ _ ?w1] =>
      destruct (IH fuel (S retries) w1) as (wk & Hrun & Hc & Hcache & Hw)
    end.
    + intros i Hi. cbn. destruct (Hfail (S i) ltac:(lia)) as (e' & He' & Hn').
      exists e'. split; [|exact Hn']. rewrite <- He'. f_equal. lia.
    + lia.
    + exists wk. cbn in Hc, Hcache, Hw. rewrite Hrun.
      replace (retries + S k)%nat with (S retries + k)%nat by lia.
      split; [reflexivity|]. split; [lia|]. split; [exact Hcache|]. lia.
Qed.

(** With nothing cached under the key, [withRetry] is the loop. *)
Lemma withRetry_nothingCached (fn : M World value) (cacheKey : option string)
      (maxRetries : Z) (w : World) :
  nothingCached cacheKey w ->
  withRetry env fn cacheKey maxRetries w =
    retryLoop env (S (Z.to_nat maxRetries)) fn cacheKey maxRetries 0 w.
Proof.
  intros Hnone. unfold withRetry.
  destruct (provided cacheKey) as [key|] eqn:Hkey; [|reflexivity].
  unfold bind, getCachedResponse. rewrite (Hnone key Hkey). reflexivity.
Qed.


(** X4 (withRetry): the operation is invoked at most [maxRetries + 1] times, and one
    timer is set between two invocations. *)
Theorem withRetry_attempt_budget (script : nat -> result value) (cacheKey : option string)
        (maxRetries : Z) (w : World) :
  exists r w',
    withRetry env (counted script) cacheKey maxRetries w = Some (r, w') /\
    (Z.of_nat (calls w' - calls w) <= Z.max maxRetries 0 + 1)%Z /\
    length (waits (trace w')) = (length (waits (trace w)) + (calls w' - calls w - 1))%nat.
Proof.
  destruct (withRetry_returns env (counted script) cacheKey maxRetries
              (counted_settles script) w) as (r & w' & Hrun).
  exists r, w'. split; [exact Hrun|].
  assert (Hloop : forall w0,
    calls w0 = calls w -> waits (trace w0) = waits (trace w) ->
    retryLoop env (S (Z.to_nat maxRetries)) (counted script) cacheKey maxRetries 0 w0
      = Some (r, w') ->
    (Z.of_nat (calls w' - calls w) <= Z.max maxRetries 0 + 1)%Z /\
    length (waits (trace w')) = (length (waits (trace w)) + (calls w' - calls w - 1))%nat).
  { intros w0 Hc Hw Hl. apply retryLoop_budget in Hl.
    destruct Hl as (_ & Hb & Hlen & _). rewrite Hc, Hw, Z.sub_0_r in *. auto. }
  unfold withRetry in Hrun. destruct (provided cacheKey) as [key|]; [|eapply Hloop; eauto].
  unfold bind, getCachedResponse in Hrun.
  destruct (responseCache w !! key) as [cached|]; [|eapply Hloop; eauto].
  destruct (now w - timestamp cached <? CACHE_EXPIRY)%Z; [|eapply Hloop; eauto].
  destruct (truthy (response cached)).
  - inversion Hrun; subst; cbn. rewrite Nat.sub_diag. cbn. split; lia.
  - eapply Hloop; [| |exact Hrun]; reflexivity.
Qed.


Lemma retryLoop_frame (fn : M World value) (cacheKey : option string) (maxRetries : Z) :
  keepsCache fn ->
  forall fuel retries w r w',
    retryLoop env fuel fn cacheKey maxRetries retries w = Some (r, w') ->
    (forall k, provided cacheKey <> Some k -> responseCache w' !! k = responseCache w !! k) /\
    (forall e, r = Throw e -> responseCache w' = responseCache w).
Proof.
  intros Hfn. induction fuel as [|fuel IH]; intros retries w r w' Hrun; [discriminate|].
  cbn [retryLoop] in Hrun. unfold tryCatch, bind in Hrun.
  destruct (fn w) as [[[v|e] w0]|] eqn:Hcall; [| |discriminate];
    apply Hfn in Hcall.
  - destruct (provided cacheKey) as [key|] eqn:Hkey; cbn in Hrun; inversion Hrun; subst; cbn;
      (split; [|discriminate]).
    + intros k Hk. rewrite lookup_insert_ne by congruence. rewrite Hcall. reflexivity.
    + intros k _. rewrite Hcall. reflexivity.
  - destruct (nullish e).
    { inversion Hrun; subst. rewrite Hcall. auto. }
    cbn in Hrun. destruct (maxRetries <=? Z.of_nat retries)%Z; cbn in Hrun.
    + inversion Hrun; subst; cbn. rewrite Hcall. auto.
    + apply IH in Hrun. cbn in Hrun. rewrite Hcall in Hrun. exact Hrun.
Qed.

(** X5 (withRetry): [withRetry] writes the cache at the provided key only, and only
    when the operation succeeded. *)
Theorem withRetry_cache_frame (fn : M World value) (cacheKey : option string)
        (maxRetries : Z) (w : World) (r : result value) (w' : World) :
  keepsCache fn ->
  withRetry env fn cacheKey maxRetries w = Some (r, w') ->
  (forall k, provided cacheKey <> Some k -> responseCache w' !! k = responseCache w !! k) /\
  (forall e, r = Throw e -> responseCache w' = responseCache w) /\
  (provided cacheKey = None -> responseCache w' = responseCache w).
Proof.
  intros Hfn Hrun.
  assert (Hloop : forall w0,
    responseCache w0 = responseCache w ->
    retryLoop env (S (Z.to_nat maxRetries)) fn cacheKey maxRetries 0 w0 = Some (r, w') ->
    (forall k, provided cacheKey <> Some k -> responseCache w' !! k = responseCache w !! k) /\
    (forall e, r = Throw e -> responseCache w' = responseCache w)).
  { intros w0 Hc Hl. apply (retryLoop_frame fn cacheKey maxRetries Hfn) in Hl.
    rewrite Hc in Hl. exact Hl. }
  assert (Hboth :
    (forall k, provided cacheKey <> Some k -> responseCache w' !! k = responseCache w !! k) /\
    (forall e, r = Throw e -> responseCache w' = responseCache w)).
  { unfold withRetry in Hrun. destruct (provided cacheKey) as [key|]; [|eapply Hloop; eauto].
    unfold bind, getCachedResponse in Hrun.
    destruct (responseCache w !! key) as [cached|]; [|eapply Hloop; eauto].
    destruct (now w - timestamp cached <? CACHE_EXPIRY)%Z; [|eapply Hloop; eauto].
    destruct (truthy (response cached)).
    - inversion Hrun; subst; cbn. auto.
    - eapply Hloop; [|exact Hrun]; reflexivity. }
  destruct Hboth as [Hk He]. split; [exact Hk|]. split; [exact He|].
  intros Hnone. apply map_eq. intros k. apply Hk. rewrite Hnone. discriminate.
Qed.

(** X6 (withRetry): when every attempt fails, the operation is invoked exactly
    [maxRetries + 1] times, the error of the last attempt is what the
    caller gets, and the cache is as it was. *)
Theorem withRetry_exhausted (script : nat -> result value) (cacheKey : option string)
        (maxRetries : Z) (w : World) :
  nothingCached cacheKey w ->
  failsFrom script (calls w) (S (Z.to_nat maxRetries)) ->
  exists e w',
    withRetry env (counted script) cacheKey maxRetries w = Some (Throw e, w') /\
    script (calls w + Z.to_nat maxRetries)%nat = Throw e /\
    calls w' = (calls w + Z.to_nat maxRetries + 1)%nat /\
    length (waits (trace w')) = (Z.to_nat maxRetries + length (waits (trace w)))%nat /\
    responseCache w' = responseCache w.
Proof.
  intros Hnone Hfail. rewrite (withRetry_nothingCached _ _ _ _ Hnone).
  set (n := Z.to_nat maxRetries) in *.
  destruct (retryLoop_after_failures script cacheKey maxRetries n 1%nat 0%nat w)
    as (wn & Hrun & Hc & Hcache & Hw).
  { intros i Hi. apply Hfail. lia. }
  { subst n. lia. }
  replace (S n) with (n + 1)%nat by lia. rewrite Hrun.
  destruct (Hfail n ltac:(lia)) as (e & He & Hnull).
  assert (Hmax : (maxRetries <=? Z.of_nat (0 + n))%Z = true) by (apply Z.leb_le; subst n; lia).
  exists e. cbn [retryLoop]. unfold tryCatch, bind, counted. rewrite Hc, He, Hnull.
  cbn [console effect]. rewrite Hmax. cbn [console effect throw].
  eexists. split; [reflexivity|]. cbn. split; [reflexivity|].
  split; [lia|]. split; [exact Hw | exact Hcache].
Qed.

(** X7 (withRetry): when the operation fails [k] times within the budget and then
    succeeds, the caller gets the result after [k + 1] invocations and
    [k] waits, and the result is cached under the provided key. *)
Theorem withRetry_recovers (script : nat -> result value) (cacheKey : option string)
        (maxRetries : Z) (w : World) (k : nat) (v : value) :
  nothingCached cacheKey w ->
  failsFrom script (calls w) k ->
  (Z.of_nat k <= Z.max maxRetries 0)%Z ->
  script (calls w + k)%nat = Ok v ->
  exists w',
    withRetry env (counted script) cacheKey maxRetries w = Some (Ok v, w') /\
    calls w' = (calls w + k + 1)%nat /\
    length (waits (trace w')) = (k + length (waits (trace w)))%nat /\
    (forall key, provided cacheKey = Some key ->
                 responseCache w' !! key = Some {| timestamp := now w'; response := v |}).
Proof.
  intros Hnone Hfail Hk Hok. rewrite (withRetry_nothingCached _ _ _ _ Hnone).
  destruct (retryLoop_after_failures script cacheKey maxRetries k
              (S (Z.to_nat maxRetries) - k) 0%nat w)
    as (wk & Hrun & Hc & Hcache & Hw).
  { exact Hfail. }
  { rewrite Z.sub_0_r. exact Hk. }
  replace (k + (S (Z.to_nat maxRetries) - k))%nat with (S (Z.to_nat maxRetries)) in Hrun by lia.
  rewrite Hrun.
  destruct (S (Z.to_nat maxRetries) - k)%nat as [|fuel] eqn:Hfuel; [lia|].
  cbn [retryLoop]. unfold tryCatch, bind, counted. rewrite Hc, Hok.
  destruct (provided cacheKey) as [key|] eqn:Hkey; cbn.
  - eexists. split; [reflexivity|]. cbn. split; [lia|]. split; [exact Hw|].
    intros key' [= <-]. apply lookup_insert_eq.
  - eexists. split; [reflexivity|]. cbn. split; [lia|]. split; [exact Hw|].
    discriminate.
Qed.

(** X8 (withRetry): a rejection with [null] or [undefined] is not retried: reading
    its [message] in the [catch] block raises a [TypeError], which is
    what the caller gets. *)
Theorem withRetry_nullish_rejection (script : nat -> result value) (cacheKey : option string)
        (maxRetries : Z) (w : World) (k : nat) (e : value) :
  nothingCached cacheKey w ->
  failsFrom script (calls w) k ->
  (Z.of_nat k <= Z.max maxRetries 0)%Z ->
  script (calls w + k)%nat = Throw e ->
  nullish e = true ->
  exists e' w',
    withRetry env (counted script) cacheKey maxRetries w = Some (Throw e', w') /\
    optionalField e' "name" = VStr "TypeError" /\
    calls w' = (calls w + k + 1)%nat /\
    length (waits (trace w')) = (k + length (waits (trace w)))%nat /\
    responseCache w' = responseCache w.
Proof.
  intros Hnone Hfail Hk He Hnull. rewrite (withRetry_nothingCached _ _ _ _ Hnone).
  destruct (retryLoop_after_failures script cacheKey maxRetries k
              (S (Z.to_nat maxRetries) - k) 0%nat w)
    as (wk & Hrun & Hc & Hcache & Hw).
  { exact Hfail. }
  { rewrite Z.sub_0_r. exact Hk. }
  replace (k + (S (Z.to_nat maxRetries) - k))%nat with (S (Z.to_nat maxRetries)) in Hrun by lia.
  rewrite Hrun.
  destruct (S (Z.to_nat maxRetries) - k)%nat as [|fuel] eqn:Hfuel; [lia|].
  cbn [retryLoop]. unfold tryCatch, bind, counted. rewrite Hc, He, Hnull.
  eexists _, _. split; [reflexivity|]. cbn. split; [reflexivity|].
  split; [lia|]. split; [exact Hw | exact Hcache].
Qed.

End RetryBudget.

Section TotalWait.
Import JsString Js OpenAI.
Local Open Scope Q_scope.

Lemma sumQ_app (l1 l2 : list Q) :
  fold_right Qplus 0 (l1 ++ l2)%list == fold_right Qplus 0 l1 + fold_right Qplus 0 l2.
Proof.
  induction l1 as [|a l1 IH]; cbn [app fold_right].
  - lra.
  - rewrite IH. lra.
Qed.

Lemma sumQ_rev (l : list Q) : fold_right Qplus 0 (rev l) == fold_right Qplus 0 l.
Proof.
  induction l as [|a l IH]; cbn [rev fold_right].
  - reflexivity.
  - rewrite sumQ_app, IH. cbn [fold_right]. lra.
Qed.

(** The most the [n]-th wait can last, for the first five retries. *)
Lemma backoffRange_default (n : nat) (t : Q) :
  backoffRange n t -> 0 <= t /\ t <= Qmin (inject_Z (2 ^ Z.of_nat n) * 1500) 30000.
Proof.
  intros (x & [Hlo Hhi] & ->). unfold backoffLow, backoffHigh in *.
  pose proof (pow2_pos n) as Hp. split.
  - apply Q.min_glb; lra.
  - apply Q.min_le_compat_r. lra.
Qed.

(** X9 (withRetry): with the default budget of five retries, a call waits at most
    75 seconds in all between its attempts. *)
Theorem withRetry_default_total_wait
        (env : Env) (fn : M World value) (cacheKey : option string)
        (w : World) (r : result value) (w' : World) :
  (forall i, 0 <= random env i /\ random env i < 1) ->
  setsNoTimer fn ->
  withRetry env fn cacheKey defaultMaxRetries w = Some (r, w') ->
  totalWait (trace w') <= totalWait (trace w) + 75000.
Proof.
  intros Hrandom Hfn Hrun.
  destruct (withRetry_waits env fn cacheKey defaultMaxRetries w r w' Hrandom Hfn Hrun)
    as (ts & Htr & Hin & Hlen).
  unfold totalWait. rewrite Htr, sumQ_app, sumQ_rev.
  assert (Hts : fold_right Qplus 0 ts <= 75000); [|lra].
  assert (Hb : forall j t, nth_error ts j = Some t ->
                 0 <= t /\ t <= Qmin (inject_Z (2 ^ Z.of_nat (S j)) * 1500) 30000).
  { intros j t Hj. apply backoffRange_default, Hin, Hj. }
  unfold defaultMaxRetries in Hlen.
  assert (H1 : forall t, nth_error ts 0 = Some t -> 0 <= t <= 3000).
  { intros t Ht. destruct (Hb _ _ Ht) as [H0 Hc]. apply Q.min_glb_l in Hc.
    change (inject_Z (2 ^ Z.of_nat 1)) with 2 in Hc. lra. }
  assert (H2 : forall t, nth_error ts 1 = Some t -> 0 <= t <= 6000).
  { intros t Ht. destruct (Hb _ _ Ht) as [H0 Hc]. apply Q.min_glb_l in Hc.
    change (inject_Z (2 ^ Z.of_nat 2)) with 4 in Hc. lra. }
  assert (H3 : forall t, nth_error ts 2 = Some t -> 0 <= t <= 12000).
  { intros t Ht. destruct (Hb _ _ Ht) as [H0 Hc]. apply Q.min_glb_l in Hc.
    change (inject_Z (2 ^ Z.of_nat 3)) with 8 in Hc. lra. }
  assert (H4 : forall t, nth_error ts 3 = Some t -> 0 <= t <= 24000).
  { intros t Ht. destruct (Hb _ _ Ht) as [H0 Hc]. apply Q.min_glb_l in Hc.
    change (inject_Z (2 ^ Z.of_nat 4)) with 16 in Hc. lra. }
  assert (H5 : forall t, nth_error ts 4 = Some t -> 0 <= t <= 30000).
  { intros t Ht. destruct (Hb _ _ Ht) as [H0 Hc]. apply Q.min_glb_r in Hc. lra. }
  unfold defaultMaxRetries in Hlen.
  destruct ts as [|t1 [|t2 [|t3 [|t4 [|t5 [|t6 ts]]]]]]; cbn [fold_right length] in *;
    try lia;
    try pose proof (H1 _ eq_refl); try pose proof (H2 _ eq_refl);
    try pose proof (H3 _ eq_refl); try pose proof (H4 _ eq_refl);
    try pose proof (H5 _ eq_refl); lra.
Qed.

End TotalWait.

Section RetryScenarios.
Import JsString Js OpenAI.

Lemma counted_keepsCache (script : nat -> result value) : keepsCache (counted script).
Proof. intros w r w' H. unfold counted in H. inversion H; subst. reflexivity. Qed.

Lemma counted_setsNoTimer (script : nat -> result value) : setsNoTimer (counted script).
Proof. intros w r w' H. unfold counted in H. inversion H; subst. reflexivity. Qed.

Lemma withRetry_cache_frame_witness :
  let w := {| responseCache := <["other" := {| timestamp := 0; response := VNum 1 |}]> ∅;
              now := 0; draws := 0; calls := 0; trace := [] |} in
  exists w',
    keepsCache (counted flaky) /\
    withRetry (offline None 0) (counted flaky) (Some "k") 5 w = Some (Ok (VStr "ok"), w') /\
    (forall k, provided (Some "k") <> Some k -> responseCache w' !! k = responseCache w !! k) /\
    (forall e, Ok (VStr "ok") = Throw e -> responseCache w' = responseCache w) /\
    (provided (Some "k") = None -> responseCache w' = responseCache w).
Proof.
  intros w. eexists.
  split; [apply counted_keepsCache|].
  split; [vm_compute; reflexivity|].
  apply (withRetry_cache_frame (offline None 0) (counted flaky) (Some "k") 5 w
           (Ok (VStr "ok")) _ (counted_keepsCache flaky)).
  vm_compute. reflexivity.
Defined.

Lemma withRetry_exhausted_witness :
  nothingCached (Some "k") (freshWorld 0) /\
  failsFrom (fun _ => Throw networkError) (calls (freshWorld 0)) (S (Z.to_nat 2)) /\
  exists e w',
    withRetry (offline None 0) (counted (fun _ => Throw networkError)) (Some "k") 2
      (freshWorld 0) = Some (Throw e, w') /\
    (Throw networkError : result value) = Throw e /\
    calls w' = (calls (freshWorld 0) + Z.to_nat 2 + 1)%nat /\
    length (waits (trace w')) = (Z.to_nat 2 + length (waits (trace (freshWorld 0))))%nat /\
    responseCache w' = responseCache (freshWorld 0).
Proof.
  assert (Hnone : nothingCached (Some "k") (freshWorld 0)).
  { intros key _. reflexivity. }
  assert (Hfail : failsFrom (fun _ => Throw networkError) (calls (freshWorld 0))
                    (S (Z.to_nat 2))).
  { intros i _. exists networkError. split; reflexivity. }
  split; [exact Hnone|]. split; [exact Hfail|].
  exact (withRetry_exhausted (offline None 0) (fun _ => Throw networkError) (Some "k") 2
           (freshWorld 0) Hnone Hfail).
Defined.

Lemma flaky_failsFrom : failsFrom flaky 0 2.
Proof.
  intros i Hi. exists networkError.
  destruct i as [|[|i]]; [split; reflexivity | split; reflexivity | lia].
Qed.

Lemma withRetry_recovers_witness :
  nothingCached (Some "k") (freshWorld 0) /\
  failsFrom flaky (calls (freshWorld 0)) 2 /\
  (Z.of_nat 2 <= Z.max 5 0)%Z /\
  flaky (calls (freshWorld 0) + 2)%nat = Ok (VStr "ok") /\
  exists w',
    withRetry (offline None 0) (counted flaky) (Some "k") 5 (freshWorld 0)
      = Some (Ok (VStr "ok"), w') /\
    calls w' = (calls (freshWorld 0) + 2 + 1)%nat /\
    length (waits (trace w')) = (2 + length (waits (trace (freshWorld 0))))%nat /\
    (forall key, provided (Some "k") = Some key ->
                 responseCache w' !! key = Some {| timestamp := now w'; response := VStr "ok" |}).
Proof.
  assert (Hnone : nothingCached (Some "k") (freshWorld 0)).
  { intros key _. reflexivity. }
  assert (Hk : (Z.of_nat 2 <= Z.max 5 0)%Z) by (cbn; lia).
  split; [exact Hnone|]. split; [exact flaky_failsFrom|]. split; [exact Hk|].
  split; [reflexivity|].
  exact (withRetry_recovers (offline None 0) flaky (Some "k") 5 (freshWorld 0) 2
           (VStr "ok") Hnone flaky_failsFrom Hk eq_refl).
Defined.

Lemma withRetry_nullish_rejection_witness :
  nothingCached None (freshWorld 0) /\
  failsFrom (fun _ => Throw VUndefined) (calls (freshWorld 0)) 0 /\
  (Z.of_nat 0 <= Z.max 5 0)%Z /\
  nullish VUndefined = true /\
  exists e' w',
    withRetry (offline None 0) (counted (fun _ => Throw VUndefined)) None 5 (freshWorld 0)
      = Some (Throw e', w') /\
    optionalField e' "name" = VStr "TypeError" /\
    calls w' = (calls (freshWorld 0) + 0 + 1)%nat /\
    length (waits (trace w')) = (0 + length (waits (trace (freshWorld 0))))%nat /\
    responseCache w' = responseCache (freshWorld 0).
Proof.
  assert (Hnone : nothingCached None (freshWorld 0)).
  { intros key H. discriminate H. }
  assert (Hfail : failsFrom (fun _ => Throw VUndefined) (calls (freshWorld 0)) 0).
  { intros i Hi. lia. }
  assert (Hk : (Z.of_nat 0 <= Z.max 5 0)%Z) by (cbn; lia).
  split; [exact Hnone|]. split; [exact Hfail|]. split; [exact Hk|]. split; [reflexivity|].
  exact (withRetry_nullish_rejection (offline None 0) (fun _ => Throw VUndefined) None 5
           (freshWorld 0) 0 VUndefined Hnone Hfail Hk eq_refl eq_refl).
Defined.

Lemma withRetry_default_total_wait_witness :
  exists r w',
    (forall i, (0 <= random (offline None (3 # 4)) i)%Q /\
               (random (offline None (3 # 4)) i < 1)%Q) /\
    setsNoTimer (counted (fun _ => Throw networkError)) /\
    withRetry (offline None (3 # 4)) (counted (fun _ => Throw networkError)) None
      defaultMaxRetries (freshWorld 0) = Some (r, w') /\
    (totalWait (trace w') == 67500)%Q /\
    (totalWait (trace w') <= totalWait (trace (freshWorld 0)) + 75000)%Q.
Proof.
  assert (Hrand : forall i, (0 <= random (offline None (3 # 4)) i)%Q /\
                            (random (offline None (3 # 4)) i < 1)%Q).
  { intros i. cbn. split; [discriminate | reflexivity]. }
  eexists. eexists.
  split; [exact Hrand|]. split; [apply counted_setsNoTimer|].
  split; [vm_compute; reflexivity|]. split; [reflexivity|].
  apply (withRetry_default_total_wait (offline None (3 # 4))
           (counted (fun _ => Throw networkError)) None (freshWorld 0)
           (Throw networkError) _ Hrand (counted_setsNoTimer _)).
  vm_compute. reflexivity.
Defined.

End RetryScenarios.

(* ===================================================================== *)
(** * Further properties of the analysis pipeline *)
(* ===================================================================== *)

Section Asides.
Import JsString Js OpenAI.
Variable env : Env.

Lemma aside_ret {A} (a : A) : aside (ret a : M World A).
Proof. intros w r w' [= <- <-]. auto. Qed.

Lemma aside_throw {A} (e : value) : aside (throw e : M World A).
Proof. intros w r w' [= <- <-]. auto. Qed.

Lemma aside_bind {A B} (c : M World A) (k : A -> M World B) :
  aside c -> (forall a, aside (k a)) -> aside (bind c k).
Proof.
  intros Hc Hk w r w' H. unfold bind in H.
  destruct (c w) as [[[a|e] w1]|] eqn:Hrun; [| |discriminate].
  - destruct (Hc _ _ _ Hrun) as (H1 & H2 & H3). destruct (Hk a _ _ _ H) as (H4 & H5 & H6).
    split; [congruence|]. split; congruence.
  - inversion H; subst. exact (Hc _ _ _ Hrun).
Qed.

Lemma aside_tryCatch {A} (c : M World A) (h : value -> M World A) :
  aside c -> (forall e, aside (h e)) -> aside (tryCatch c h).
Proof.
  intros Hc Hh w r w' H. unfold tryCatch in H.
  destruct (c w) as [[[a|e] w1]|] eqn:Hrun; [| |discriminate].
  - inversion H; subst. exact (Hc _ _ _ Hrun).
  - destruct (Hc _ _ _ Hrun) as (H1 & H2 & H3). destruct (Hh e _ _ _ H) as (H4 & H5 & H6).
    split; [congruence|]. split; congruence.
Qed.

Lemma aside_console (l : level) (text : string) : aside (console l text).
Proof. intros w r w' [= <- <-]. auto. Qed.

Lemma aside_reads {A} (f : World -> A) : aside (reads f).
Proof. intros w r w' [= <- <-]. auto. Qed.

Lemma aside_mathRandom : aside (mathRandom env).
Proof. intros w r w' [= <- <-]. auto. Qed.

(** A request that is not one to the model. *)
Lemma aside_request {A} (e : event) (oracle : nat -> result A) :
  completions [e] = [] -> waits [e] = [] -> aside (request env e oracle).
Proof.
  intros He Hw w r w' [= <- <-]. cbn. split; [reflexivity|].
  destruct e; cbn in *; try discriminate; auto.
Qed.

Lemma aside_uploadErrorHint (e : value) : aside (uploadErrorHint e).
Proof.
  unfold uploadErrorHint. destruct (optionalField e "code"); try apply aside_ret.
  repeat match goal with |- context [if ?b then _ else _] => destruct b end;
    auto using aside_console, aside_ret.
Qed.

Lemma aside_remoteUpload (uri : string) : aside (remoteUpload env uri).
Proof.
  unfold remoteUpload.
  repeat first
    [ apply aside_bind; [|intros ?]
    | apply aside_tryCatch; [|intros ?]
    | apply aside_console | apply aside_reads | apply aside_mathRandom
    | apply aside_request; reflexivity
    | apply aside_ret | apply aside_throw | apply aside_uploadErrorHint
    | match goal with |- aside (match ?x with _ => _ end) => destruct x end
    | match goal with |- aside (if ?x then _ else _) => destruct x end ].
Qed.

Lemma aside_imageToBase64 (uri : string) : aside (imageToBase64 env uri).
Proof.
  unfold imageToBase64.
  apply aside_tryCatch; [apply aside_request; reflexivity|]. intros e.
  apply aside_bind; [apply aside_console | intros _; apply aside_throw].
Qed.

Lemma aside_uploadImageToFirebase (uri : string) : aside (uploadImageToFirebase env uri).
Proof.
  unfold uploadImageToFirebase.
  apply aside_tryCatch; [apply aside_remoteUpload|]. intros e.
  repeat first
    [ apply aside_bind; [|intros ?]
    | apply aside_console | apply aside_imageToBase64 | apply aside_ret ].
Qed.

Lemma aside_responseContent (response : value) : aside (responseContent response).
Proof.
  unfold responseContent.
  repeat match goal with
         | |- aside (match ?x with _ => _ end) => destruct x
         end; auto using aside_ret, aside_throw.
Qed.

(** Reading the content of a response does nothing to the world. *)
Lemma responseContent_pure (response : value) (w : World) (r : result string) (w' : World) :
  responseContent response w = Some (r, w') ->
  w' = w /\ forall w2, responseContent response w2 = Some (r, w2).
Proof.
  unfold responseContent.
  repeat match goal with
         | |- context [match ?x with _ => _ end] => destruct x
         end; intros [= <- <-]; auto.
Qed.

End Asides.

Section Spending.
Import JsString Js OpenAI.
Variable env : Env.

Lemma aside_spends {A} (c : M World A) : aside c -> spends 0 0 c.
Proof.
  intros Hc w r w' H. destruct (Hc _ _ _ H) as (_ & H1 & H2). rewrite H1, H2. lia.
Qed.

Lemma spends_bind {A B} (n1 m1 n2 m2 : nat) (c : M World A) (k : A -> M World B) :
  spends n1 m1 c -> (forall a, spends n2 m2 (k a)) -> spends (n1 + n2) (m1 + m2) (bind c k).
Proof.
  intros Hc Hk w r w' H. unfold bind in H.
  destruct (c w) as [[[a|e] w1]|] eqn:Hrun; [| |discriminate].
  - destruct (Hc _ _ _ Hrun) as [H1 H2]. destruct (Hk a _ _ _ H) as [H3 H4]. lia.
  - inversion H; subst. destruct (Hc _ _ _ Hrun) as [H1 H2]. lia.
Qed.

Lemma spends_tryCatch {A} (n1 m1 n2 m2 : nat) (c : M World A) (h : value -> M World A) :
  spends n1 m1 c -> (forall e, spends n2 m2 (h e)) ->
  spends (n1 + n2) (m1 + m2) (tryCatch c h).
Proof.
  intros Hc Hh w r w' H. unfold tryCatch in H.
  destruct (c w) as [[[a|e] w1]|] eqn:Hrun; [| |discriminate].
  - inversion H; subst. destruct (Hc _ _ _ Hrun) as [H1 H2]. lia.
  - destruct (Hc _ _ _ Hrun) as [H1 H2]. destruct (Hh e _ _ _ H) as [H3 H4]. lia.
Qed.

(** The loop over the request to the model: one request per iteration,
    one timer between two iterations. *)
Lemma retryLoop_spends (imageUrl : string) (cacheKey : option string) (maxRetries : Z) :
  forall fuel retries,
    spends (S (Z.to_nat (maxRetries - Z.of_nat retries)))
           (Z.to_nat (maxRetries - Z.of_nat retries))
           (retryLoop env fuel (createCompletion env imageUrl) cacheKey maxRetries retries).
Proof.
  induction fuel as [|fuel IH]; intros retries w r w' Hrun; [discriminate|].
  cbn [retryLoop] in Hrun. unfold tryCatch, bind, createCompletion, request in Hrun.
  destruct (completionResult env (length (trace w)) imageUrl) as [v|e].
  - destruct (provided cacheKey); cbn in Hrun; inversion Hrun; subst; cbn; lia.
  - destruct (nullish e); [inversion Hrun; subst; cbn; lia|].
    cbn in Hrun. destruct (maxRetries <=? Z.of_nat retries)%Z eqn:Hmax; cbn in Hrun.
    + inversion Hrun; subst; cbn; lia.
    + apply Z.leb_gt in Hmax. apply IH in Hrun. cbn in Hrun. lia.
Qed.

Lemma withRetry_spends (imageUrl : string) (cacheKey : option string) (maxRetries : Z) :
  spends (S (Z.to_nat maxRetries)) (Z.to_nat maxRetries)
         (withRetry env (createCompletion env imageUrl) cacheKey maxRetries).
Proof.
  assert (Hloop : spends (S (Z.to_nat maxRetries)) (Z.to_nat maxRetries)
            (retryLoop env (S (Z.to_nat maxRetries)) (createCompletion env imageUrl)
               cacheKey maxRetries 0)).
  { pose proof (retryLoop_spends imageUrl cacheKey maxRetries (S (Z.to_nat maxRetries)) 0)
      as H. rewrite Z.sub_0_r in H. exact H. }
  unfold withRetry. destruct (provided cacheKey) as [key|]; [|exact Hloop].
  intros w r w' Hrun. unfold bind, getCachedResponse in Hrun.
  destruct (responseCache w !! key) as [cached|]; [|exact (Hloop _ _ _ Hrun)].
  destruct (now w - timestamp cached <? CACHE_EXPIRY)%Z; [|exact (Hloop _ _ _ Hrun)].
  destruct (truthy (response cached)).
  - inversion Hrun; subst; cbn. lia.
  - apply Hloop in Hrun. cbn in Hrun. exact Hrun.
Qed.

Lemma analyzeBody_spends (imageUri : string) : spends 6 5 (analyzeBody env imageUri).
Proof.
  unfold analyzeBody.
  apply (spends_bind 0 0 6 5).
  { apply aside_spends. destruct credentialAbsent.
    - apply aside_bind; [apply aside_console | intros _; apply aside_throw].
    - apply aside_ret. }
  intros _. apply (spends_bind 0 0 6 5); [apply aside_spends, aside_console|]. intros _.
  apply (spends_bind 0 0 6 5); [apply aside_spends, aside_uploadImageToFirebase|].
  intros imageUrl.
  apply (spends_bind 0 0 6 5); [apply aside_spends, aside_console|]. intros _.
  apply (spends_bind 6 5 0 0); [apply (withRetry_spends imageUrl _ 5)|]. intros response.
  apply aside_spends.
  apply aside_bind; [apply aside_responseContent|]. intros text.
  apply aside_bind; [apply aside_console | intros _; apply aside_ret].
Qed.

(** X10 (analyzeProductImage): one analysis asks the model at most six
    times and waits at most five times, however it ends. *)
Theorem analyzeProductImage_request_budget (imageUri : string) (w : World) :
  exists a w',
    analyzeProductImage env imageUri w = Some (Ok a, w') /\
    length (completions (trace w')) <= length (completions (trace w)) + 6 /\
    length (waits (trace w')) <= length (waits (trace w)) + 5.
Proof.
  destruct (analyzeBody_settles env imageUri w) as ([a|e] & w1 & Hrun);
    destruct (analyzeBody_spends imageUri _ _ _ Hrun) as [Hc Hw].
  - exists a, w1. unfold analyzeProductImage, tryCatch. rewrite Hrun. auto.
  - eexists _, _. rewrite (analyzeProductImage_catches env imageUri w w1 e Hrun).
    split; [reflexivity|]. cbn. auto.
Qed.

(** X11 (analyzeProductImage): when a truthy response for the image is
    cached and not yet a day old once the image is uploaded, the model
    is not asked: the analysis is read off the cached response.  The
    upload is made all the same. *)
Theorem analyzeProductImage_cached
        (imageUri imageUrl : string) (w w1 : World) (entry : CacheEntry) :
  credentialAbsent env = false ->
  uploadImageToFirebase env imageUri
    (emit (Console Log "Uploading image to Firebase Storage...") w) = Some (Ok imageUrl, w1) ->
  responseCache w !! generateCacheKey "analyzeProductImage" imageUri = Some entry ->
  truthy (response entry) = true ->
  (now w1 - timestamp entry < CACHE_EXPIRY)%Z ->
  exists a w',
    analyzeProductImage env imageUri w = Some (Ok a, w') /\
    completions (trace w') = completions (trace w) /\
    waits (trace w') = waits (trace w) /\
    responseCache w' = responseCache w /\
    (forall text, responseContent (response entry) w = Some (Ok text, w) ->
                  a = parseResponse text).
Proof.
  intros Hcred Hup Hentry Htruthy Hlive.
  destruct (aside_uploadImageToFirebase env imageUri _ _ _ Hup) as (Hc1 & Hm1 & Hw1).
  cbn in Hc1, Hm1, Hw1.
  unfold analyzeProductImage, tryCatch.
  rewrite (analyzeBody_with_credential env imageUri w Hcred).
  unfold bind at 1. rewrite Hup. unfold bind at 1. cbn [console effect].
  unfold bind at 1.
  erewrite withRetry_hit;
    [| apply generateCacheKey_nonEmpty
     | cbn; rewrite Hc1; exact Hentry
     | cbn; exact Hlive
     | exact Htruthy ].
  unfold bind at 1.
  destruct (responseContent_settles (response entry)
              (emit (Console Log "Using cached response for:")
                 (emit (Console Log "Sending image to OpenAI for analysis...") w1)))
    as (r & w2 & Hcontent).
  rewrite Hcontent. destruct (responseContent_pure _ _ _ _ Hcontent) as [-> Hpure].
  destruct r as [text|e]; cbn.
  - eexists _, _. split; [reflexivity|]. cbn.
    split; [exact Hm1|]. split; [exact Hw1|]. split; [exact Hc1|].
    intros text' Ht. rewrite (Hpure w) in Ht. congruence.
  - eexists _, _. split; [reflexivity|]. cbn.
    split; [exact Hm1|]. split; [exact Hw1|]. split; [exact Hc1|].
    intros text' Ht. rewrite (Hpure w) in Ht. congruence.
Qed.

End Spending.

Section WellFormed.
Import JsString Js Regex Extract OpenAI.
Variable env : Env.

Lemma bind_ok {S A B} (c : M S A) (k : A -> M S B) (s : S) (b : B) (s' : S) :
  bind c k s = Some (Ok b, s') ->
  exists a s1, c s = Some (Ok a, s1) /\ k a s1 = Some (Ok b, s').
Proof.
  unfold bind. destruct (c s) as [[[a|e] s1]|]; [eauto | discriminate | discriminate].
Qed.

(** The piece in the making opens the first piece [split] yields. *)
Lemma splitGo_head (r : regex) :
  forall s prev c piece,
    exists t l, splitGo r prev s (String c piece) 0 = String c t :: l.
Proof.
  induction s as [|d s' IH]; intros prev c piece; cbn [splitGo]; [eauto|].
  destruct (matchAt r _) as [p1|].
  - destruct (String.length (consumed _ p1)); eauto.
  - change (String c piece +:+ String d EmptyString)
      with (String c (piece +:+ String d EmptyString)).
    apply IH.
Qed.

Lemma split_head (r : regex) (c : ascii) (s : string) :
  nth 0 (split r (String c s)) EmptyString = EmptyString \/
  exists t, nth 0 (split r (String c s)) EmptyString = String c t.
Proof.
  unfold split. cbn [splitGo].
  destruct (matchAt r _) as [p1|].
  - destruct (String.length (consumed _ p1)).
    + destruct (splitGo_head r s (Some c) c EmptyString) as (t & l & ->). right. eauto.
    + left. reflexivity.
  - change (EmptyString +:+ String c EmptyString) with (String c EmptyString).
    destruct (splitGo_head r s (Some c) c EmptyString) as (t & l & ->). right. eauto.
Qed.

Lemma trim_ink (c : ascii) (s : string) :
  isWhiteSpace c = false -> trim (String c s) <> EmptyString.
Proof.
  intros Hc. unfold trim. cbn [trimStart]. rewrite Hc. apply trimEnd_ink, Hc.
Qed.

(** The name of last resort is never empty when the text is trimmed. *)
Lemma fallbackName_nonEmpty (x : string) : fallbackName (trim x) <> EmptyString.
Proof.
  unfold fallbackName.
  destruct (firstCaptured namePatterns (trim x)) as [name|] eqn:Hname.
  { eapply firstCaptured_nonEmpty, Hname. }
  unfold firstSentence.
  destruct (trim_head x) as [->|(c & t & -> & Hc)].
  - vm_compute. discriminate.
  - destruct (split_head (Char (oneOf ".!?")) c t) as [->|(t' & ->)]; [cbn; discriminate|].
    destruct (nonEmpty _ && _); [|discriminate]. apply trim_ink, Hc.
Qed.

Lemma orNotAvailable_nonEmpty (s : option string) : orNotAvailable s <> EmptyString.
Proof.
  unfold orNotAvailable. destruct s as [[|c v]|]; cbn; discriminate.
Qed.

Lemma parseResponse_empty : parseResponse EmptyString = emptyAnswer.
Proof. vm_compute. reflexivity. Qed.

Lemma parseResponse_wellformed (x : string) :
  productName (parseResponse (trim x)) <> EmptyString /\
  (exists n, nutritionalInfo (parseResponse (trim x)) = Some n /\ filledIn n) /\
  (description (parseResponse (trim x)) = EmptyString -> trim x = EmptyString).
Proof.
  unfold parseResponse. cbn [productName nutritionalInfo description]. split; [|split].
  - destruct (extractFromResponse (trim x) "product name" _) as [[|c name]|];
      cbn [nonEmpty]; try apply fallbackName_nonEmpty. discriminate.
  - eexists. split; [reflexivity|]. unfold filledIn. cbn.
    repeat split; apply orNotAvailable_nonEmpty.
  - assert (Hfb : fallbackDescription (trim x) = EmptyString -> trim x = EmptyString).
    { unfold fallbackDescription.
      match goal with |- match ?d0 with _ => _ end = _ -> _ => destruct d0 as [[|c d]|] end;
        cbn [nonEmpty]; auto. discriminate. }
    destruct (extractFromResponse (trim x) "description" _) as [[|c d]|];
      cbn [nonEmpty]; auto. discriminate.
Qed.

Lemma responseContent_trimmed (response : value) (w : World) (text : string) (w' : World) :
  responseContent response w = Some (Ok text, w') -> exists x, text = trim x.
Proof.
  unfold responseContent.
  repeat match goal with
         | |- context [match ?x with _ => _ end] => destruct x
         end; intros [= <-]; try (exists EmptyString; reflexivity); eauto.
Qed.

(** What the [try] block returns is the parse of a trimmed text. *)
Lemma analyzeBody_ok (imageUri : string) (w : World) (a : Analysis) (w' : World) :
  analyzeBody env imageUri w = Some (Ok a, w') -> exists x, a = parseResponse (trim x).
Proof.
  unfold analyzeBody. intros H.
  apply bind_ok in H. destruct H as (_ & w1 & _ & H).
  apply bind_ok in H. destruct H as (_ & w2 & _ & H).
  apply bind_ok in H. destruct H as (imageUrl & w3 & _ & H).
  apply bind_ok in H. destruct H as (_ & w4 & _ & H).
  apply bind_ok in H. destruct H as (response & w5 & _ & H).
  apply bind_ok in H. destruct H as (text & w6 & Htext & H).
  apply bind_ok in H. destruct H as (_ & w7 & _ & H).
  apply responseContent_trimmed in Htext. destruct Htext as (x & ->).
  exists x. unfold ret in H. congruence.
Qed.

(** The analysis names a product, and only the sentinel is without
    nutrition. *)
Lemma analyzeProductImage_shape (imageUri : string) (w : World) :
  exists a w',
    analyzeProductImage env imageUri w = Some (Ok a, w') /\
    productName a <> EmptyString /\
    (nutritionalInfo a = None -> a = sentinel).
Proof.
  destruct (analyzeBody_settles env imageUri w) as ([a|e] & w1 & Hrun).
  - exists a, w1. unfold analyzeProductImage, tryCatch. rewrite Hrun.
    split; [reflexivity|].
    apply analyzeBody_ok in Hrun. destruct Hrun as (x & ->).
    destruct (parseResponse_wellformed x) as (Hname & (n & Hn & _) & _).
    split; [exact Hname|]. rewrite Hn. discriminate.
  - eexists _, _. rewrite (analyzeProductImage_catches env imageUri w w1 e Hrun).
    split; [reflexivity|]. split; [discriminate | reflexivity].
Qed.

(** X12 (analyzeProductImage): whatever happens, the analysis names a
    product, and it either is the sentinel or carries the four
    nutrition fields, none of them empty; its description is empty only
    when the model answered with an empty text. *)
Theorem analyzeProductImage_wellformed (imageUri : string) (w : World) :
  exists a w',
    analyzeProductImage env imageUri w = Some (Ok a, w') /\
    productName a <> EmptyString /\
    (a = sentinel \/ exists n, nutritionalInfo a = Some n /\ filledIn n) /\
    (description a = EmptyString -> a = emptyAnswer).
Proof.
  destruct (analyzeBody_settles env imageUri w) as ([a|e] & w1 & Hrun).
  - exists a, w1. unfold analyzeProductImage, tryCatch. rewrite Hrun.
    split; [reflexivity|].
    apply analyzeBody_ok in Hrun. destruct Hrun as (x & ->).
    destruct (parseResponse_wellformed x) as (Hname & Hn & Hd).
    split; [exact Hname|]. split; [right; exact Hn|].
    intros H. rewrite (Hd H). apply parseResponse_empty.
  - eexists _, _. rewrite (analyzeProductImage_catches env imageUri w w1 e Hrun).
    split; [reflexivity|]. split; [discriminate|]. split; [left; reflexivity|].
    discriminate.
Qed.

End WellFormed.

Section PipelineCoverage.
Import JsString Js OpenAI.

Lemma analyzeProductImage_cached_witness :
  let env := storageDenied "AAAA" (Throw networkError) in
  let w := remembered "file:///a.jpg" "Product Name: Oat Milk" 1000 in
  let entry := {| timestamp := 0; response := completionOf "Product Name: Oat Milk" |} in
  exists w1,
    credentialAbsent env = false /\
    uploadImageToFirebase env "file:///a.jpg"
      (emit (Console Log "Uploading image to Firebase Storage...") w)
      = Some (Ok "data:image/jpeg;base64,AAAA", w1) /\
    responseCache w !! generateCacheKey "analyzeProductImage" "file:///a.jpg" = Some entry /\
    truthy (response entry) = true /\
    (now w1 - timestamp entry < CACHE_EXPIRY)%Z /\
    responseContent (response entry) w = Some (Ok "Product Name: Oat Milk", w) /\
    productName (parseResponse "Product Name: Oat Milk") = "Oat Milk" /\
    exists a w',
      analyzeProductImage env "file:///a.jpg" w = Some (Ok a, w') /\
      completions (trace w') = completions (trace w) /\
      waits (trace w') = waits (trace w) /\
      responseCache w' = responseCache w /\
      (forall text, responseContent (response entry) w = Some (Ok text, w) ->
                    a = parseResponse text).
Proof.
  intros env w entry. eexists.
  split; [reflexivity|].
  split; [vm_compute; reflexivity|].
  assert (Hentry : responseCache w !! generateCacheKey "analyzeProductImage" "file:///a.jpg"
                   = Some entry) by apply lookup_insert_eq.
  split; [exact Hentry|]. split; [reflexivity|]. split; [vm_compute; reflexivity|].
  split; [reflexivity|]. split; [vm_compute; reflexivity|].
  eapply (analyzeProductImage_cached env "file:///a.jpg" "data:image/jpeg;base64,AAAA" w _ entry
           eq_refl); [vm_compute; reflexivity | exact Hentry | reflexivity|].
  vm_compute. reflexivity.
Defined.

End PipelineCoverage.

(* ===================================================================== *)
(** * Further properties of the history store *)
(* ===================================================================== *)

Section StoreCoverage.
Import JsString Js History.
Variable env : Env.

Ltac run_save :=
  unfold saveScanHistory, tryCatch, bind, addDoc, request, reads, console, effect, ret;
  cbn -[saveLocally historyKey decimal lookup insert includes toLowerCase errorText].

(** What a save writes: nothing, or the document to the remote
    collection, or (the remote write having failed) the record at the
    end of the local list of the user. *)
Lemma saveScanHistory_writes (userId : string) (d : ProductDetails) (w : Stores) :
  exists w',
    saveScanHistory env userId d w = Some (Ok tt, w') /\
    ((scanHistory w' = scanHistory w /\ asyncStorage w' = asyncStorage w) \/
     (nonEmpty userId = true /\ addDocFails env (length (trace w)) = None /\
      scanHistory w' = (scanHistory w ++ [documentOf userId d (now w)])%list /\
      asyncStorage w' = asyncStorage w) \/
     (nonEmpty userId = true /\ addDocFails env (length (trace w)) <> None /\
      scanHistory w' = scanHistory w /\
      exists items t,
        localList (asyncStorage w !! historyKey userId) = Some items /\
        asyncStorage w' =
          <[historyKey userId :=
              HistoryJson (items ++ [localScanOf (documentOf userId d (now w)) t])]>
            (asyncStorage w))).
Proof.
  run_save. destruct (nonEmpty userId) eqn:Hu; run_save; [|eauto 6].
  destruct (addDocFails env (length (trace w))) as [err|] eqn:Hadd; run_save.
  - match goal with |- context [saveLocally env userId ?doc ?w0] =>
      destruct (saveLocally_effect env userId doc w0) as (w1 & Hrun & Hsh & Has); rewrite Hrun
    end.
    cbn -[historyKey decimal lookup insert] in Hsh, Has.
    destruct (includes _ _ || includes _ _); cbn -[historyKey decimal lookup insert];
      eexists; (split; [reflexivity|]);
      (destruct Has as [Has|(items & t & Hitems & Has)];
       [left; split; [exact Hsh | exact Has]
       |right; right; split; [reflexivity|]; split; [discriminate|]; split; [exact Hsh|];
        exists items, t; split; [exact Hitems | exact Has]]).
  - eexists. split; [reflexivity|]. right. left. auto.
Qed.


(** X13 (saveScanHistory): a save always resolves, and it writes one
    record to one store or nothing at all: the document goes to the
    remote collection, or a record goes to the end of the local list
    of the user, never both. *)
Theorem saveScanHistory_one_record (userId : string) (d : ProductDetails) (w : Stores) :
  exists w',
    saveScanHistory env userId d w = Some (Ok tt, w') /\
    ((scanHistory w' = scanHistory w /\ asyncStorage w' = asyncStorage w) \/
     (scanHistory w' = (scanHistory w ++ [documentOf userId d (now w)])%list /\
      asyncStorage w' = asyncStorage w) \/
     (scanHistory w' = scanHistory w /\
      exists items t,
        localList (localOf userId w) = Some items /\
        asyncStorage w' =
          <[historyKey userId :=
              HistoryJson (items ++ [localScanOf (documentOf userId d (now w)) t])]>
            (asyncStorage w))).
Proof.
  destruct (saveScanHistory_writes userId d w) as (w' & Hrun & Hw).
  exists w'. split; [exact Hrun|].
  destruct Hw as [Hw|[(_ & _ & Hr & Hl)|(_ & _ & Hr & Hl)]]; auto.
Qed.

Lemma remoteOf_app (userId : string) (w : Stores) (doc : ScanDoc) (w' : Stores) :
  scanHistory w' = (scanHistory w ++ [doc])%list ->
  remoteOf userId w' =
    (remoteOf userId w ++ if String.eqb (docUserId doc) userId then [doc] else [])%list.
Proof.
  intros H. unfold remoteOf. rewrite H, List.filter_app. cbn.
  destruct (String.eqb (docUserId doc) userId); reflexivity.
Qed.

(** Nothing stored is lost by a save: for every user the documents of
    the remote collection are kept, in order, a local list is kept as
    the front of the new list, and a local value that does not parse
    is left as it is. *)
Lemma saveScanHistory_append_only
        (userId : string) (d : ProductDetails) (w : Stores) (u : string) :
  exists w',
    saveScanHistory env userId d w = Some (Ok tt, w') /\ keepsHistory u w w'.
Proof.
  destruct (saveScanHistory_writes userId d w) as (w' & Hrun & Hw).
  exists w'. split; [exact Hrun|]. unfold keepsHistory, localOf.
  assert (Hsame : scanHistory w' = scanHistory w -> exists more : list ScanDoc,
                    remoteOf u w' = (remoteOf u w ++ more)%list).
  { intros H. exists []. unfold remoteOf. rewrite H, app_nil_r. reflexivity. }
  assert (Hkeep : asyncStorage w' = asyncStorage w ->
    (forall items,
        asyncStorage w !! historyKey u = Some (HistoryJson items) ->
        exists more, asyncStorage w' !! historyKey u = Some (HistoryJson (items ++ more)%list)) /\
    (asyncStorage w !! historyKey u = Some Malformed ->
     asyncStorage w' !! historyKey u = Some Malformed)).
  { intros ->. split; [|auto]. intros items H. exists []. rewrite app_nil_r. exact H. }
  destruct Hw as [[Hr Hl]|[(_ & _ & Hr & Hl)|(_ & _ & Hr & items & t & Hitems & Hl)]].
  - split; [exact (Hsame Hr) | exact (Hkeep Hl)].
  - split; [|exact (Hkeep Hl)]. rewrite (remoteOf_app u w _ w' Hr). eauto.
  - split; [exact (Hsame Hr)|]. rewrite Hl.
    destruct (decide (historyKey userId = historyKey u)) as [Heq|Hne].
    + rewrite <- Heq, lookup_insert_eq. split.
      * intros items' H. rewrite H in Hitems. cbn in Hitems. inversion Hitems; subst.
        eauto.
      * intros H. rewrite H in Hitems. discriminate.
    + rewrite lookup_insert_ne by exact Hne. split; [|auto].
      intros items' H. exists []. rewrite app_nil_r. exact H.
Qed.

(** X14 (saveScanHistory): a save of one user changes nothing of what
    the stores hold for another. *)
Theorem saveScanHistory_other_users
        (userId other : string) (d : ProductDetails) (w : Stores) :
  other <> userId ->
  exists w',
    saveScanHistory env other d w = Some (Ok tt, w') /\
    remoteOf userId w' = remoteOf userId w /\
    localOf userId w' = localOf userId w.
Proof.
  intros Hne.
  destruct (saveScanHistory_writes other d w) as (w' & Hrun & Hw).
  exists w'. split; [exact Hrun|]. unfold localOf.
  destruct Hw as [[Hr Hl]|[(_ & _ & Hr & Hl)|(_ & _ & Hr & items & t & _ & Hl)]].
  - unfold remoteOf. rewrite Hr, Hl. auto.
  - rewrite (remoteOf_app userId w _ w' Hr), Hl. cbn [docUserId documentOf].
    destruct (String.eqb other userId) eqn:E.
    + apply String.eqb_eq in E. contradiction.
    + rewrite app_nil_r. auto.
  - unfold remoteOf. rewrite Hr, Hl. split; [reflexivity|].
    apply lookup_insert_ne. intros H. apply historyKey_inj in H. contradiction.
Qed.

(** X15 (saveScanHistory): when the remote write fails and the local
    list cannot take the record (its text does not parse, or the local
    read or write fails), the save resolves all the same and both
    stores are as they were: the scan is lost and the caller is not
    told. *)
Theorem saveScanHistory_lost_silently
        (userId : string) (d : ProductDetails) (w : Stores) (err : value) :
  nonEmpty userId = true ->
  addDocFails env (length (trace w)) = Some err ->
  localOf userId w = Some Malformed \/
  getItemFails env (3 + length (trace w)) <> None \/
  setItemFails env (4 + length (trace w)) <> None ->
  exists w',
    saveScanHistory env userId d w = Some (Ok tt, w') /\
    scanHistory w' = scanHistory w /\ asyncStorage w' = asyncStorage w.
Proof.
  intros Hu Hadd Hbad. unfold localOf in Hbad.
  run_save. rewrite Hu. run_save. rewrite Hadd. run_save.
  unfold saveLocally, tryCatch, bind, getItem, writeItem, request, parseHistory, reads,
    console, effect, ret, throw.
  cbn -[historyKey decimal lookup insert includes toLowerCase errorText].
  destruct (getItemFails env _) as [e1|] eqn:Hget;
    cbn -[historyKey decimal lookup insert includes toLowerCase errorText].
  { destruct (includes _ _ || includes _ _); cbn; eauto. }
  destruct (asyncStorage w !! historyKey userId) as [[items|]|] eqn:Hitems;
    cbn -[historyKey decimal lookup insert includes toLowerCase errorText].
  - destruct (setItemFails env _) as [e2|] eqn:Hset;
      cbn -[historyKey decimal lookup insert includes toLowerCase errorText].
    + destruct (includes _ _ || includes _ _); cbn; eauto.
    + exfalso. destruct Hbad as [Hbad|[Hbad|Hbad]]; [discriminate | |]; auto.
  - destruct (includes _ _ || includes _ _); cbn; eauto.
  - destruct (setItemFails env _) as [e2|] eqn:Hset;
      cbn -[historyKey decimal lookup insert includes toLowerCase errorText].
    + destruct (includes _ _ || includes _ _); cbn; eauto.
    + exfalso. destruct Hbad as [Hbad|[Hbad|Hbad]]; [discriminate | |]; auto.
Qed.


Lemma keepsHistory_refl (u : string) (w : Stores) : keepsHistory u w w.
Proof.
  split; [exists []; rewrite app_nil_r; reflexivity|]. split; [|auto].
  intros items H. exists []. rewrite app_nil_r. exact H.
Qed.

Lemma keepsHistory_trans (u : string) (w1 w2 w3 : Stores) :
  keepsHistory u w1 w2 -> keepsHistory u w2 w3 -> keepsHistory u w1 w3.
Proof.
  intros ((m1 & Hr1) & Hl1 & Hb1) ((m2 & Hr2) & Hl2 & Hb2). split; [|split].
  - exists (m1 ++ m2)%list. rewrite Hr2, Hr1, <- app_assoc. reflexivity.
  - intros items H. destruct (Hl1 items H) as (n1 & H1).
    destruct (Hl2 _ H1) as (n2 & H2). exists (n1 ++ n2)%list.
    rewrite H2, <- app_assoc. reflexivity.
  - auto.
Qed.

Lemma step_keepsHistory (u : string) (w w' : Stores) :
  step env w w' -> keepsHistory u w w'.
Proof.
  intros [userId d w0 w1 Hsave|userId l w0 w1 Hlist].
  - destruct (saveScanHistory_append_only userId d w0 u) as (w2 & Hrun & Hkeep).
    rewrite Hrun in Hsave. inversion Hsave; subst. exact Hkeep.
  - destruct (getScanHistory_effect env userId w0) as (l' & w2 & Hrun & _ & Hr & Hl).
    rewrite Hrun in Hlist. inversion Hlist; subst.
    unfold keepsHistory, remoteOf, localOf. rewrite Hr, Hl.
    split; [exists []; rewrite app_nil_r; reflexivity|]. split; [|auto].
    intros items H. exists []. rewrite app_nil_r. exact H.
Qed.

(** Along a run of operations. *)
Lemma reaches_keepsHistory (u : string) (w w' : Stores) :
  reaches env w w' -> keepsHistory u w w'.
Proof.
  induction 1 as [w|w1 w2 w3 Hstep _ IH].
  - apply keepsHistory_refl.
  - eapply keepsHistory_trans; [apply step_keepsHistory, Hstep | exact IH].
Qed.

(** X16 (saveScanHistory, getScanHistory): the history only grows.  After
    any number of saves and lists, by any users, the documents the
    remote collection held for a user are still there, in order; a
    local list is the front of the list held now; a local value that
    does not parse is never repaired. *)
Theorem history_only_grows (u : string) (w w' : Stores) :
  reaches env w w' -> keepsHistory u w w'.
Proof.
  intros Hreach. induction Hreach as [w|w1 w2 w3 Hstep _ IH].
  - apply keepsHistory_refl.
  - apply (keepsHistory_trans u w1 w2 w3); [|exact IH].
    destruct Hstep as [userId d w0 w' Hsave|userId l w0 w' Hlist].
    + destruct (saveScanHistory_append_only userId d w0 u) as (w4 & Hrun & Hkeep).
      rewrite Hrun in Hsave. inversion Hsave; subst. exact Hkeep.
    + apply (step_keepsHistory u w0 w'). exact (step_list env userId l w0 w' Hlist).
Qed.

(** X17 (saveScanHistory, getScanHistory): a scan that was saved stays
    listed.  For a scan date a [Timestamp] can hold: after a save that
    reached the remote collection, and any number of later operations,
    a list served by the remote collection holds the scan; after a
    save that reached the local list, a list served by the local
    storage holds it.  The scan is listed with all its fields, an
    empty description or image URI read as absent. *)
Theorem saved_scan_stays_listed
        (userId : string) (d : ProductDetails) (w w1 w2 : Stores) :
  nonEmpty userId = true ->
  saveScanHistory env userId d w = Some (Ok tt, w1) ->
  reaches env w1 w2 ->
  (storable (scanDate d) = true ->
   addDocFails env (length (trace w)) = None ->
   getDocsFails env (length (trace w2)) = None ->
   exists l w3, getScanHistory env userId w2 = Some (Ok l, w3) /\ In (asListed d) l) /\
  (forall items,
      storable (scanDate d) = true ->
      addDocFails env (length (trace w)) <> None ->
      getItemFails env (3 + length (trace w)) = None ->
      localList (localOf userId w) = Some items ->
      setItemFails env (4 + length (trace w)) = None ->
      getDocsFails env (length (trace w2)) <> None ->
      getItemFails env (3 + length (trace w2)) = None ->
      exists l w3, getScanHistory env userId w2 = Some (Ok l, w3) /\ In (asListed d) l) /\
  (description d <> Some EmptyString -> imageUri d <> Some EmptyString -> asListed d = d).
Proof.
  intros Hu Hsave Hreach.
  destruct (reaches_keepsHistory userId w1 w2 Hreach) as ((more & Hr) & Hl & _).
  split; [|split].
  - intros _ Hadd Hq.
    destruct (saveScanHistory_remote env userId d w Hu Hadd) as (w' & Hrun & Hsh & _).
    rewrite Hrun in Hsave. inversion Hsave; subst w'.
    destruct (getScanHistory_remote env userId w2 Hq) as (w3 & Hlist & _).
    eexists. exists w3. split; [exact Hlist|].
    apply sortNewestFirst_In.
    apply (in_map toDetails _ (documentOf userId d (now w))).
    fold (remoteOf userId w2). rewrite Hr. apply in_or_app. left.
    unfold remoteOf. apply filter_In. split.
    + rewrite Hsh. apply in_or_app. right. left. reflexivity.
    + cbn. apply String.eqb_refl.
  - intros items _ Hadd Hget Hitems Hset Hq Hget2.
    destruct (addDocFails env (length (trace w))) as [err|] eqn:Hadd'; [|contradiction].
    destruct (getDocsFails env (length (trace w2))) as [err'|] eqn:Hq'; [|contradiction].
    destruct (saveScanHistory_local env userId d w err items Hu Hadd' Hget Hitems Hset)
      as (w' & t & Hrun & _ & Has).
    rewrite Hrun in Hsave. inversion Hsave; subst w'.
    destruct (Hl (items ++ [localScanOf (documentOf userId d (now w)) t])%list)
      as (more' & Hnow).
    { unfold localOf. rewrite Has. apply lookup_insert_eq. }
    destruct (getScanHistory_local env userId w2 err'
                ((items ++ [localScanOf (documentOf userId d (now w)) t]) ++ more')%list
                Hq' Hget2) as (w3 & Hlist & _).
    { unfold localOf in Hnow. rewrite Hnow. reflexivity. }
    eexists. exists w3. split; [exact Hlist|].
    apply sortNewestFirst_In.
    apply (in_map (fun item => toDetails (localDoc item)) _
             (localScanOf (documentOf userId d (now w)) t)).
    apply in_or_app. left. apply in_or_app. right. left. reflexivity.
  - intros Hd Hi. destruct d as [ri ni [[|c de]|] [[|c' im]|] sd]; cbn in *;
      try reflexivity; exfalso; auto.
Qed.

(** X18 (getScanHistory): a list served by the remote collection holds
    exactly the documents of the user, each once, newest first; a list
    served by the local storage holds exactly the records of the local
    list of the user.  Neither store is written. *)
Theorem getScanHistory_lists_exactly (userId : string) (w : Stores) :
  (getDocsFails env (length (trace w)) = None ->
   exists l w',
     getScanHistory env userId w = Some (Ok l, w') /\
     Permutation l (map toDetails (remoteOf userId w)) /\
     newestFirst l /\
     scanHistory w' = scanHistory w /\ asyncStorage w' = asyncStorage w) /\
  (forall items,
      getDocsFails env (length (trace w)) <> None ->
      getItemFails env (3 + length (trace w)) = None ->
      localList (localOf userId w) = Some items ->
      exists l w',
        getScanHistory env userId w = Some (Ok l, w') /\
        Permutation l (map (fun item => toDetails (localDoc item)) items) /\
        newestFirst l /\
        scanHistory w' = scanHistory w /\ asyncStorage w' = asyncStorage w).
Proof.
  split.
  - intros Hq. destruct (getScanHistory_remote env userId w Hq) as (w' & Hrun & Hs).
    eexists. exists w'. split; [exact Hrun|].
    split; [apply sortNewestFirst_perm|]. split; [apply sortNewestFirst_sorted | exact Hs].
  - intros items Hq Hget Hitems.
    destruct (getDocsFails env (length (trace w))) as [err|] eqn:Hq'; [|contradiction].
    destruct (getScanHistory_local env userId w err items Hq' Hget Hitems) as (w' & Hrun & Hs).
    eexists. exists w'. split; [exact Hrun|].
    split; [apply sortNewestFirst_perm|]. split; [apply sortNewestFirst_sorted | exact Hs].
Qed.

End StoreCoverage.

Section StoreCoverageScenarios.
Import JsString Js History.

Lemma saveScanHistory_other_users_witness :
  "u2" <> "u1" /\
  exists w',
    saveScanHistory allUp "u2" (scanOf "Juice" 7) oneRemoteScan = Some (Ok tt, w') /\
    remoteOf "u1" w' = remoteOf "u1" oneRemoteScan /\
    localOf "u1" w' = localOf "u1" oneRemoteScan.
Proof.
  assert (Hne : "u2" <> "u1") by discriminate.
  split; [exact Hne|].
  exact (saveScanHistory_other_users allUp "u1" "u2" (scanOf "Juice" 7) oneRemoteScan Hne).
Defined.

Lemma saveScanHistory_lost_silently_witness :
  nonEmpty "u1" = true /\
  addDocFails allDown (length (trace (emptyStores 0))) = Some permissionDenied /\
  getItemFails allDown (3 + length (trace (emptyStores 0))) <> None /\
  exists w',
    saveScanHistory allDown "u1" (scanOf "Milk" 5) (emptyStores 0) = Some (Ok tt, w') /\
    scanHistory w' = scanHistory (emptyStores 0) /\
    asyncStorage w' = asyncStorage (emptyStores 0).
Proof.
  assert (Hget : getItemFails allDown (3 + length (trace (emptyStores 0))) <> None)
    by discriminate.
  split; [reflexivity|]. split; [reflexivity|]. split; [exact Hget|].
  exact (saveScanHistory_lost_silently allDown "u1" (scanOf "Milk" 5) (emptyStores 0)
           permissionDenied eq_refl eq_refl (or_intror (or_introl Hget))).
Defined.

Lemma history_only_grows_witness :
  exists w1 l w2,
    saveScanHistory allUp "u2" (scanOf "Juice" 7) oneRemoteScan = Some (Ok tt, w1) /\
    getScanHistory allUp "u1" w1 = Some (Ok l, w2) /\
    reaches allUp oneRemoteScan w2 /\
    keepsHistory "u1" oneRemoteScan w2.
Proof.
  eexists. eexists. eexists.
  split; [vm_compute; reflexivity|]. split; [vm_compute; reflexivity|].
  match goal with |- reaches ?e ?a ?b /\ _ => assert (Hreach : reaches e a b) end.
  { eapply rtc_l; [eapply (step_save _ "u2" (scanOf "Juice" 7)); vm_compute; reflexivity|].
    eapply rtc_l; [eapply (step_list _ "u1"); vm_compute; reflexivity|].
    apply rtc_refl. }
  split; [exact Hreach|].
  exact (history_only_grows allUp "u1" _ _ Hreach).
Defined.

Lemma saved_scan_stays_listed_witness :
  nonEmpty "u1" = true /\
  storable (scanDate (scanOf "Milk" 5)) = true /\
  saveScanHistory allUp "u1" (scanOf "Milk" 5) (emptyStores 0) = Some (Ok tt, afterMilk) /\
  saveScanHistory allUp "u2" (scanOf "Juice" 7) afterMilk = Some (Ok tt, afterJuice) /\
  reaches allUp afterMilk afterJuice /\
  (exists l w3,
      getScanHistory allUp "u1" afterJuice = Some (Ok l, w3) /\
      In (asListed (scanOf "Milk" 5)) l) /\
  asListed (scanOf "Milk" 5) = scanOf "Milk" 5.
Proof.
  assert (Hmilk : saveScanHistory allUp "u1" (scanOf "Milk" 5) (emptyStores 0)
                  = Some (Ok tt, afterMilk)) by reflexivity.
  assert (Hjuice : saveScanHistory allUp "u2" (scanOf "Juice" 7) afterMilk
                   = Some (Ok tt, afterJuice)) by reflexivity.
  assert (Hreach : reaches allUp afterMilk afterJuice).
  { eapply rtc_l; [exact (step_save _ "u2" (scanOf "Juice" 7) _ _ Hjuice) | apply rtc_refl]. }
  split; [reflexivity|]. split; [reflexivity|]. split; [exact Hmilk|]. split; [exact Hjuice|].
  split; [exact Hreach|].
  destruct (saved_scan_stays_listed allUp "u1" (scanOf "Milk" 5) (emptyStores 0)
              afterMilk afterJuice eq_refl Hmilk Hreach) as (Hremote & _ & Hsame).
  split; [exact (Hremote eq_refl eq_refl eq_refl)|].
  apply Hsame; discriminate.
Defined.

End StoreCoverageScenarios.

(* ===================================================================== *)
(** * Properties of the recall check and of the screens *)
(* ===================================================================== *)

Section RecallProperties.
Import JsString Js History Recall.
Variable toISODate : Z -> string.

(** Whether an identifier names one of the mock products. *)
Lemma verifyProductRecall_run (productIdentifier : string) (st : Stores) :
  exists r,
    verifyProductRecall toISODate productIdentifier st = Some (Ok r, st) /\
    productName r = productIdentifier /\
    isRecalled r =
      existsb (fun product =>
                 includes (toLowerCase productIdentifier) (toLowerCase product))
              mockRecalledProducts.
Proof.
  unfold verifyProductRecall, tryCatch.
  destruct (existsb _ mockRecalledProducts); cbn; eauto.
Qed.


(** X19 (verifyProductRecall): the check always resolves and leaves the
    stores alone; it echoes the identifier, and it flags exactly the
    identifiers that contain one of the mock products, whatever the
    case of the letters.  So an identifier that is flagged stays
    flagged when text is put around it. *)
Theorem verifyProductRecall_flags (productIdentifier : string) (st : Stores) :
  exists r,
    verifyProductRecall toISODate productIdentifier st = Some (Ok r, st) /\
    productName r = productIdentifier /\
    (isRecalled r = true <->
     exists product,
       In product mockRecalledProducts /\
       occursIn (toLowerCase product) (toLowerCase productIdentifier)) /\
    (forall longer st' r',
        isRecalled r = true ->
        occursIn (toLowerCase productIdentifier) (toLowerCase longer) ->
        verifyProductRecall toISODate longer st' = Some (Ok r', st') ->
        isRecalled r' = true).
Proof.
  assert (Hflag : forall identifier,
    existsb (fun product => includes (toLowerCase identifier) (toLowerCase product))
            mockRecalledProducts = true <->
    exists product,
      In product mockRecalledProducts /\
      occursIn (toLowerCase product) (toLowerCase identifier)).
  { intros identifier. rewrite existsb_exists. split.
    - intros (product & Hin & Hinc). exists product. split; [exact Hin|].
      apply includes_spec, Hinc.
    - intros (product & Hin & Hocc). exists product. split; [exact Hin|].
      apply includes_spec, Hocc. }
  destruct (verifyProductRecall_run productIdentifier st) as (r & Hrun & Hname & Hr).
  exists r. split; [exact Hrun|]. split; [exact Hname|]. rewrite Hr.
  split; [apply Hflag|].
  intros longer st' r' Hyes Hocc Hrun'.
  destruct (verifyProductRecall_run longer st') as (r2 & Hrun2 & _ & Hr2).
  rewrite Hrun2 in Hrun'. inversion Hrun'; subst r2. rewrite Hr2.
  apply Hflag. apply Hflag in Hyes. destruct Hyes as (product & Hin & Hp).
  exists product. split; [exact Hin|]. eapply occursIn_trans; eassumption.
Qed.

End RecallProperties.

Section HomeProperties.
Import JsString Js Screens.
Variable env : OpenAI.Env.
Variable storeEnv : History.Env.
Variable toISODate : Z -> string.

Ltac run_screen :=
  unfold processImage, loadScanHistory, finally, tryCatch, bind, inWorld, inStores, console,
    setIsLoading, setProductName, setRecallInfo, setNutritionalInfo, setDescription, setError,
    setScanHistory, setHistoryLoading, setHistoryError, setHome, setHistoryView,
    effect, reads, ret;
  cbn -[OpenAI.analyzeProductImage Recall.verifyProductRecall History.saveScanHistory
        History.getScanHistory detailsOf].

(** [processImage] is the analysis, then the recall check, then the
    save: what each step returns decides the screen and the stores. *)
Lemma processImage_run (user : option string) (uri : string) (s : App) :
  exists a w1 recall st2 s',
    OpenAI.analyzeProductImage env uri (world s) = Some (Ok a, w1) /\
    Recall.verifyProductRecall toISODate (OpenAI.productName a)
      (setClock (OpenAI.now w1) (stores s))
      = Some (Ok recall, setClock (OpenAI.now w1) (stores s)) /\
    match user with
    | Some uid =>
        History.saveScanHistory storeEnv uid (detailsOf a recall uri (OpenAI.now w1))
          (setClock (OpenAI.now w1) (stores s)) = Some (Ok tt, st2)
    | None => st2 = setClock (OpenAI.now w1) (stores s)
    end /\
    processImage env storeEnv toISODate user uri s = Some (Ok tt, s') /\
    stores s' = st2 /\
    home s' = {| isLoading := false;
                 productName := OpenAI.productName a;
                 recallInfo := Some recall;
                 nutritionalInfo := OpenAI.nutritionalInfo a;
                 description := Some (OpenAI.description a);
                 error := None |} /\
    historyView s' = historyView s.
Proof.
  destruct (analyzeProductImage_shape env uri (world s)) as (a & w1 & Hrun & _).
  destruct (verifyProductRecall_run toISODate (OpenAI.productName a)
              (setClock (OpenAI.now w1) (stores s))) as (recall & Hrecall & _).
  exists a, w1, recall.
  assert (Hsave : exists st2,
    match user with
    | Some uid =>
        History.saveScanHistory storeEnv uid (detailsOf a recall uri (OpenAI.now w1))
          (setClock (OpenAI.now w1) (stores s)) = Some (Ok tt, st2)
    | None => st2 = setClock (OpenAI.now w1) (stores s)
    end).
  { destruct user as [uid|]; [|eauto].
    destruct (saveScanHistory_writes storeEnv uid (detailsOf a recall uri (OpenAI.now w1))
                (setClock (OpenAI.now w1) (stores s))) as (st2 & H & _).
    eauto. }
  destruct Hsave as (st2 & Hsave). exists st2.
  run_screen. rewrite Hrun. run_screen.
  destruct (OpenAI.nutritionalInfo a) as [n|] eqn:Hn; run_screen.
  - rewrite Hrecall. run_screen.
    destruct user as [uid|]; run_screen.
    + rewrite Hsave. run_screen. eexists. repeat (split; [reflexivity || eassumption|]).
      reflexivity.
    + subst st2. eexists. repeat (split; [reflexivity || eassumption|]). reflexivity.
  - rewrite Hrecall. run_screen.
    destruct user as [uid|]; run_screen.
    + rewrite Hsave. run_screen. eexists. repeat (split; [reflexivity || eassumption|]).
      reflexivity.
    + subst st2. eexists. repeat (split; [reflexivity || eassumption|]). reflexivity.
Qed.


(** X20 (processImage): whatever fails, [processImage] ends with a named
    product and its recall status on the screen, the spinner off and
    no error message: neither of its two error messages is ever shown.
    Only a failed analysis leaves the nutrition empty. *)
Theorem processImage_never_reports_error (user : option string) (uri : string) (s : App) :
  exists s' recall,
    processImage env storeEnv toISODate user uri s = Some (Ok tt, s') /\
    error (home s') = None /\
    isLoading (home s') = false /\
    productName (home s') <> EmptyString /\
    recallInfo (home s') = Some recall /\
    History.productName recall = productName (home s') /\
    (nutritionalInfo (home s') = None ->
     productName (home s') = "Unknown Product" /\ History.isRecalled recall = false).
Proof.
  destruct (processImage_run user uri s)
    as (a & w1 & recall & st2 & s' & Hrun & Hrecall & _ & Hp & _ & Hhome & _).
  exists s', recall. split; [exact Hp|]. rewrite Hhome. cbn.
  destruct (analyzeProductImage_shape env uri (world s)) as (a' & w1' & Hrun' & Hname & Hn).
  rewrite Hrun in Hrun'. inversion Hrun'; subst a' w1'.
  destruct (verifyProductRecall_run toISODate (OpenAI.productName a)
              (setClock (OpenAI.now w1) (stores s))) as (r & Hr & Hrn & Hflag).
  rewrite Hrecall in Hr. inversion Hr; subst r.
  split; [reflexivity|]. split; [reflexivity|]. split; [exact Hname|].
  split; [reflexivity|]. split; [exact Hrn|].
  intros Hnone. rewrite (Hn Hnone) in *.
  split; [reflexivity|]. rewrite Hflag. reflexivity.
Qed.

(** X21 (processImage): what a scan leaves in the history.  Without a
    signed-in user the stores are not written.  With one, one record
    at most is written, to one store, and it is the record of this
    scan: named as the screen names the product, with the image URI
    and a description that is never empty. *)
Theorem processImage_saves_the_scan (user : option string) (uri : string) (s : App) :
  exists s',
    processImage env storeEnv toISODate user uri s = Some (Ok tt, s') /\
    match user with
    | None =>
        History.scanHistory (stores s') = History.scanHistory (stores s) /\
        History.asyncStorage (stores s') = History.asyncStorage (stores s)
    | Some uid =>
        exists (d : History.ProductDetails) (t : Z) (text : string),
          History.productName (History.recallInfo d) = productName (home s') /\
          History.imageUri d = Some uri /\
          History.description d = Some text /\ text <> EmptyString /\
          ((History.scanHistory (stores s') = History.scanHistory (stores s) /\
            History.asyncStorage (stores s') = History.asyncStorage (stores s)) \/
           (History.scanHistory (stores s') =
              (History.scanHistory (stores s) ++ [History.documentOf uid d t])%list /\
            History.asyncStorage (stores s') = History.asyncStorage (stores s)) \/
           (History.scanHistory (stores s') = History.scanHistory (stores s) /\
            exists items t',
              History.localList (History.localOf uid (stores s)) = Some items /\
              History.asyncStorage (stores s') =
                <[History.historyKey uid :=
                    History.HistoryJson
                      (items ++ [History.localScanOf (History.documentOf uid d t) t'])]>
                  (History.asyncStorage (stores s))))
    end.
Proof.
  destruct (processImage_run user uri s)
    as (a & w1 & recall & st2 & s' & Hrun & Hrecall & Hsave & Hp & Hst & Hhome & _).
  exists s'. split; [exact Hp|]. rewrite Hst.
  destruct user as [uid|]; [|subst st2; cbn; auto].
  destruct (verifyProductRecall_run toISODate (OpenAI.productName a)
              (setClock (OpenAI.now w1) (stores s))) as (r & Hr & Hrn & _).
  rewrite Hrecall in Hr. inversion Hr; subst r.
  exists (detailsOf a recall uri (OpenAI.now w1)), (OpenAI.now w1),
         (orNoDescription (OpenAI.description a)).
  rewrite Hhome. cbn [productName detailsOf History.recallInfo History.imageUri
                      History.description].
  split; [exact Hrn|]. split; [reflexivity|]. split; [reflexivity|]. split.
  { unfold orNoDescription. destruct (OpenAI.description a); cbn; discriminate. }
  destruct (saveScanHistory_writes storeEnv uid (detailsOf a recall uri (OpenAI.now w1))
              (setClock (OpenAI.now w1) (stores s))) as (st & Hrun' & Hw).
  rewrite Hsave in Hrun'. inversion Hrun'; subst st.
  cbn [setClock History.scanHistory History.asyncStorage History.now] in Hw.
  destruct Hw as [Hw|[(_ & _ & Hr' & Hl)|(_ & _ & Hr' & Hl)]]; auto.
Qed.

(** X22 (processImage): a failed analysis is handled like a scan.  When
    the body of [analyzeProductImage] throws, the screen names an
    "Unknown Product" that is not recalled; and for a signed-in user
    whose write reaches the remote collection, a document of that name
    is added to the history. *)
Theorem processImage_failed_analysis
        (user : option string) (uri : string) (s : App) (e : value) (w1 : OpenAI.World) :
  OpenAI.analyzeBody env uri (world s) = Some (Throw e, w1) ->
  exists s' recall,
    processImage env storeEnv toISODate user uri s = Some (Ok tt, s') /\
    error (home s') = None /\
    productName (home s') = "Unknown Product" /\
    description (home s') = Some (OpenAI.description OpenAI.sentinel) /\
    nutritionalInfo (home s') = None /\
    recallInfo (home s') = Some recall /\
    recall = History.noRecall "Unknown Product" /\
    forall uid,
      user = Some uid ->
      nonEmpty uid = true ->
      History.addDocFails storeEnv (length (History.trace (stores s))) = None ->
      exists doc,
        History.scanHistory (stores s') = (History.scanHistory (stores s) ++ [doc])%list /\
        History.docUserId doc = uid /\
        History.docRecallInfo doc = History.noRecall "Unknown Product" /\
        History.docNutritionalInfo doc = None /\
        History.docImageUri doc = uri.
Proof.
  intros Hthrow.
  destruct (processImage_run user uri s)
    as (a & w2 & recall & st2 & s' & Hrun & Hrecall & Hsave & Hp & Hst & Hhome & _).
  rewrite (analyzeProductImage_catches env uri (world s) w1 e Hthrow) in Hrun.
  inversion Hrun; subst a w2. clear Hrun.
  exists s', recall. split; [exact Hp|]. rewrite Hhome, Hst. cbn [error productName
    description nutritionalInfo recallInfo home].
  assert (Hr : recall = History.noRecall "Unknown Product").
  { vm_compute in Hrecall. injection Hrecall as <-. reflexivity. }
  split; [reflexivity|]. split; [reflexivity|]. split; [reflexivity|].
  split; [reflexivity|]. split; [reflexivity|]. split; [exact Hr|].
  intros uid -> Hu Hadd.
  match type of Hsave with History.saveScanHistory _ _ ?d ?st = _ =>
    destruct (saveScanHistory_remote storeEnv uid d st Hu Hadd) as (st' & Hrun' & Hsh & _)
  end.
  rewrite Hsave in Hrun'. inversion Hrun'; subst st'.
  eexists. split; [exact Hsh|]. cbn. rewrite Hr. auto.
Qed.


(** X23 (loadScanHistory): the history screen shows what
    [getScanHistory] returned, newest first, with the spinner off and
    no error message: its error message is never shown, and when both
    stores fail the screen shows an empty history.  Neither store is
    written. *)
Theorem loadScanHistory_never_reports_error (uid : string) (s : App) :
  exists l s',
    loadScanHistory storeEnv (Some uid) s = Some (Ok tt, s') /\
    History.getScanHistory storeEnv uid (stores s) = Some (Ok l, stores s') /\
    scanHistory (historyView s') = l /\
    History.newestFirst l /\
    historyError (historyView s') = None /\
    historyLoading (historyView s') = false /\
    History.scanHistory (stores s') = History.scanHistory (stores s) /\
    History.asyncStorage (stores s') = History.asyncStorage (stores s) /\
    home s' = home s.
Proof.
  destruct (getScanHistory_effect storeEnv uid (stores s))
    as (l & st' & Hrun & Hsorted & Hr & Hl).
  exists l. run_screen. rewrite Hrun. run_screen.
  eexists. split; [reflexivity|]. cbn. auto 10.
Qed.

End HomeProperties.

Section ScreenScenarios.
Import JsString Js Screens.

Lemma processImage_failed_analysis_witness :
  let env := OpenAI.offline None 0 in
  let today := fun _ : Z => "2026-01-01" in
  let e := newError "OpenAI API key is missing. Please check your configuration." in
  let w1 := OpenAI.emit (OpenAI.Console OpenAI.Error "OpenAI API key is not configured")
              (OpenAI.freshWorld 0) in
  OpenAI.analyzeBody env "file:///a.jpg" (world (startApp 0)) = Some (Throw e, w1) /\
  exists s' recall doc,
    processImage env History.allUp today (Some "u1") "file:///a.jpg" (startApp 0)
      = Some (Ok tt, s') /\
    error (home s') = None /\
    productName (home s') = "Unknown Product" /\
    recallInfo (home s') = Some recall /\
    recall = History.noRecall "Unknown Product" /\
    History.scanHistory (stores s') = [doc] /\
    History.docUserId doc = "u1" /\
    History.docRecallInfo doc = History.noRecall "Unknown Product".
Proof.
  intros env today e w1.
  assert (Hthrow : OpenAI.analyzeBody env "file:///a.jpg" (world (startApp 0))
                   = Some (Throw e, w1)) by reflexivity.
  split; [exact Hthrow|].
  destruct (processImage_failed_analysis env History.allUp today (Some "u1") "file:///a.jpg"
              (startApp 0) e w1 Hthrow)
    as (s' & recall & Hp & Herr & Hname & _ & _ & Hrecall & Hr & Hsaved).
  destruct (Hsaved "u1" eq_refl eq_refl eq_refl) as (doc & Hdoc & Hu & Hri & _).
  exists s', recall, doc. auto 10.
Defined.

End ScreenScenarios.

(* ===================================================================== *)
(** * Further properties of the upload and of the backoff *)
(* ===================================================================== *)

Section UploadCoverage.
Import JsString Js OpenAI.
Variable env : Env.

(** X24 (uploadImageToFirebase): the upload keeps to itself.  It always
    settles; it does not touch the response cache, asks the model
    nothing and sets no timer; and when the remote upload succeeds its
    download URL is the result and nothing more is done: the local
    file is not read. *)
Theorem uploadImageToFirebase_keeps_to_itself (uri : string) (w : World) :
  exists r w',
    uploadImageToFirebase env uri w = Some (r, w') /\
    responseCache w' = responseCache w /\
    completions (trace w') = completions (trace w) /\
    waits (trace w') = waits (trace w) /\
    (forall url w1, remoteUpload env uri w = Some (Ok url, w1) -> r = Ok url /\ w' = w1).
Proof.
  destruct (uploadImageToFirebase_settles env uri w) as (r & w' & Hrun).
  exists r, w'. split; [exact Hrun|].
  destruct (aside_uploadImageToFirebase env uri w r w' Hrun) as (Hc & Hm & Hw).
  split; [exact Hc|]. split; [exact Hm|]. split; [exact Hw|].
  intros url w1 Hup. unfold uploadImageToFirebase, tryCatch in Hrun.
  rewrite Hup in Hrun. inversion Hrun; subst. auto.
Qed.

End UploadCoverage.

Section BackoffCoverage.
Import JsString Js OpenAI.
Local Open Scope Q_scope.

Lemma pow2_succ (n : nat) :
  inject_Z (2 ^ Z.of_nat (S n)) == 2 * inject_Z (2 ^ Z.of_nat n).
Proof.
  rewrite Nat2Z.inj_succ, Z.pow_succ_r by lia. rewrite inject_Z_mult. reflexivity.
Qed.

Lemma pow2_from_six (n : nat) : (6 <= n)%nat -> 64 <= inject_Z (2 ^ Z.of_nat n).
Proof.
  intros Hn. change 64 with (inject_Z (2 ^ 6)). rewrite <- Zle_Qle.
  apply Z.pow_le_mono_r; lia.
Qed.

(** X25 (getBackoffTime): for one draw the wait never shrinks from a
    retry to the next, and from the sixth retry on it is the cap of 30
    seconds whatever the draw. *)
Theorem backoff_grows_to_the_cap (n : nat) (u : Q) :
  0 <= u ->
  backoff n u <= backoff (S n) u /\
  ((6 <= n)%nat -> backoff n u == 30000).
Proof.
  intros Hu. unfold backoff. cbv zeta. pose proof (pow2_pos n) as Hp. split.
  - apply Q.min_le_compat_r. rewrite pow2_succ. nra.
  - intros Hn. apply Q.min_r. pose proof (pow2_from_six n Hn). nra.
Qed.

Lemma backoff_grows_to_the_cap_witness :
  0 <= 1 # 4 /\
  backoff 2 (1 # 4) == 3000 /\
  backoff 3 (1 # 4) == 6000 /\
  backoff 2 (1 # 4) <= backoff 3 (1 # 4) /\
  ((6 <= 7)%nat -> backoff 7 (1 # 4) == 30000).
Proof.
  assert (Hu : 0 <= 1 # 4) by discriminate.
  split; [exact Hu|]. split; [reflexivity|]. split; [reflexivity|].
  split; [exact (proj1 (backoff_grows_to_the_cap 2 (1 # 4) Hu))|].
  exact (proj2 (backoff_grows_to_the_cap 7 (1 # 4) Hu)).
Defined.

End BackoffCoverage.

(* ===================================================================== *)
(** * The extractor on a labelled line *)
(* ===================================================================== *)

Section LabelledLine.
Import JsString Regex Extract.

Lemma every_blank (s : string) : every isWhiteSpace s = blank s.
Proof. induction s as [|c s IH]; cbn; [reflexivity | rewrite IH; reflexivity]. Qed.

(** A literal under the [i] flag matches itself. *)
Lemma run_litI_self (key : string) :
  forall b r g k,
    run (litI key) (Pos b (key +:+ r) g) k = k (Pos (beforeAfter b key) r g).
Proof.
  induction key as [|c key IH]; intros b r g k; [reflexivity|].
  destruct key as [|d key].
  - cbn [litI]. unfold chrI. cbn [run rest group1 beforeAfter].
    rewrite append_cons. rewrite Ascii.eqb_refl. reflexivity.
  - change (litI (String c (String d key))) with (Cat (chrI c) (litI (String d key))).
    cbn [run]. unfold chrI at 1. cbn [run rest group1].
    rewrite append_cons. rewrite Ascii.eqb_refl.
    rewrite IH. reflexivity.
Qed.

(** A greedy repetition of a class reads a run of the class to its
    end, when the match goes on from there. *)
Lemma iterate_class (cls : ascii -> bool) (k : pos -> option pos) (q : pos) :
  forall w fuel b r g,
    every cls w = true ->
    stopsAt cls r ->
    String.length w <= fuel ->
    k (Pos (beforeAfter b w) r g) = Some q ->
    iterate (run (Char cls)) true k fuel (Pos b (w +:+ r) g) = Some q.
Proof.
  remember (run (Char cls)) as step eqn:Hstep.
  assert (Hrun : forall p k0,
    step p k0 =
      match rest p with
      | String c s' => if cls c then k0 (Pos (Some c) s' (group1 p)) else None
      | EmptyString => None
      end) by (intros; subst step; reflexivity).
  clear Hstep.
  induction w as [|c w IH]; intros fuel b r g Hw Hstop Hfuel Hk.
  - cbn [beforeAfter] in Hk. change (EmptyString +:+ r) with r.
    destruct fuel as [|fuel]; cbn [iterate]; [exact Hk|].
    rewrite Hrun. cbn [rest]. destruct r as [|c r]; cbn in Hstop |- *; [exact Hk|].
    rewrite Hstop. cbn. exact Hk.
  - cbn in Hw. apply andb_prop in Hw. destruct Hw as [Hc Hw].
    destruct fuel as [|fuel]; [cbn in Hfuel; lia|].
    cbn [iterate]. rewrite Hrun. rewrite append_cons. cbn [rest group1]. rewrite Hc.
    cbn [rest String.length].
    replace (Nat.ltb (String.length (w +:+ r)) (S (String.length (w +:+ r)))) with true
      by (symmetry; apply Nat.ltb_lt; lia).
    rewrite (IH fuel (Some c) r g Hw Hstop); [reflexivity | cbn in Hfuel; lia | exact Hk].
Qed.

Lemma run_star_class (cls : ascii -> bool) (k : pos -> option pos) (q : pos)
      (w : string) (b : option ascii) (r : string) (g : option string) :
  every cls w = true ->
  stopsAt cls r ->
  k (Pos (beforeAfter b w) r g) = Some q ->
  run (star (Char cls)) (Pos b (w +:+ r) g) k = Some q.
Proof.
  intros Hw Hstop Hk. unfold star. cbn [run rest].
  apply iterate_class; try assumption. rewrite append_length. lia.
Qed.

(** What is left of a string with ink once the leading white space is
    dropped. *)
Lemma trimStart_ink (s : string) :
  blank s = false ->
  exists w c t,
    s = w +:+ String c t /\ every isWhiteSpace w = true /\ isWhiteSpace c = false /\
    trimStart s = String c t.
Proof.
  induction s as [|c s IH]; cbn [blank trimStart]; [discriminate|].
  destruct (isWhiteSpace c) eqn:Hc; cbn [andb].
  - intros Hs. destruct (IH Hs) as (w & c' & t & -> & Hw & Hc' & Ht).
    exists (String c w), c', t. cbn. rewrite Hc, Hw. auto.
  - intros _. exists EmptyString, c, s. auto.
Qed.

Lemma every_append (cls : ascii -> bool) (a b : string) :
  every cls (a +:+ b) = every cls a && every cls b.
Proof.
  induction a as [|c a IH]; [reflexivity|]. rewrite append_cons. cbn. rewrite IH.
  apply andb_assoc.
Qed.

Lemma whiteSpace_stops (c : ascii) (t : string) :
  isWhiteSpace c = false -> stopsAt isWhiteSpace (String c t).
Proof. intros H. exact H. Qed.

Lemma trimStart_idem (s : string) : trimStart (trimStart s) = trimStart s.
Proof.
  induction s as [|c s IH]; [reflexivity|]. cbn [trimStart].
  destruct (isWhiteSpace c) eqn:Hc; [exact IH|]. cbn [trimStart]. rewrite Hc. reflexivity.
Qed.


Lemma notLineFeed_ink (c : ascii) : isWhiteSpace c = false -> notLineFeed c = true.
Proof.
  intros Hc. unfold notLineFeed. destruct (Ascii.eqb c LF) eqn:E; [|reflexivity].
  apply Ascii.eqb_eq in E. subst c. discriminate.
Qed.

(** The first pattern of a key on a line that starts with the key, a
    colon and a value. *)
Lemma labelled_line_match (key gap value tail : string) :
  blank gap = true ->
  every notLineFeed value = true ->
  blank value = false ->
  stopsAt notLineFeed tail ->
  exists m,
    exec (seq [litI key; sp; chr ":"; sp; toEndOfLine])
         (key +:+ gap +:+ ":" +:+ value +:+ tail) = Some m /\
    group m = Some (trimStart value).
Proof.
  intros Hgap Hline Hink Htail.
  destruct (trimStart_ink value Hink) as (w & c & t & -> & Hw & Hc & ->).
  rewrite every_append in Hline. apply andb_prop in Hline. destruct Hline as [_ Hline].
  cbn [every] in Hline. apply andb_prop in Hline. destruct Hline as [_ Ht].
  unfold exec. 
  assert (Hrun : exists b,
    matchAt (seq [litI key; sp; chr ":"; sp; toEndOfLine])
      (Pos None (key +:+ gap +:+ ":" +:+ (w +:+ String c t) +:+ tail) None)
    = Some (Pos b tail (Some (String c t)))).
  { unfold matchAt. cbn [seq run]. rewrite run_litI_self.
    eexists. unfold sp at 1.
    apply run_star_class; [rewrite every_blank; exact Hgap | reflexivity |].
    cbn [run rest group1]. unfold chr at 1. cbn [run rest group1].
    change (":" +:+ (w +:+ String c t) +:+ tail)
      with (String ":" ((w +:+ String c t) +:+ tail)).
    cbn [rest]. rewrite Ascii.eqb_refl. rewrite append_assoc, append_cons.
    unfold sp. apply run_star_class; [exact Hw | exact Hc |].
    unfold toEndOfLine, plus. cbn [run rest group1]. unfold notLF at 1. cbn [run rest group1].
    fold (notLineFeed c). rewrite (notLineFeed_ink c Hc).
    apply (run_star_class notLineFeed); [exact Ht | exact Htail |].
    cbn [before rest]. f_equal. f_equal. f_equal.
    apply (consumed_ahead _ _ (String c t)). reflexivity. }
  destruct Hrun as (b & Hrun).
  destruct (key +:+ gap +:+ ":" +:+ (w +:+ String c t) +:+ tail) eqn:Htext;
    cbn [searchFrom]; rewrite Hrun; eexists; split; reflexivity.
Qed.

(** X26 (extractFromResponse): a text that starts with the key, a colon
    and a value on the same line yields that value, trimmed, whatever
    the alternate keys and whatever follows on later lines.  (The key
    is free of regular-expression syntax, as at every call site.) *)
Theorem extractFromResponse_labelled_line
        (key gap value tail : string) (alternateKeys : list string) :
  plainKey key = true ->
  blank gap = true ->
  every notLineFeed value = true ->
  blank value = false ->
  stopsAt notLineFeed tail ->
  extractFromResponse (key +:+ gap +:+ ":" +:+ value +:+ tail) key alternateKeys
    = Some (trim value).
Proof.
  intros _ Hgap Hline Hink Htail.
  destruct (labelled_line_match key gap value tail Hgap Hline Hink Htail) as (m & Hm & Hg).
  unfold extractFromResponse. cbn [extractKeys]. unfold extractKey, structural, patterns.
  cbn [firstCaptured]. rewrite Hm. destruct m as [wh g]. cbn [group] in Hg. subst g.
  cbn [captured]. unfold trim at 1 2. rewrite trimStart_idem. fold (trim value).
  destruct (nonEmpty (trim value)) eqn:Hne; [reflexivity|].
  exfalso. apply (trim_blank value Hink). destruct (trim value); [reflexivity | discriminate].
Qed.

Lemma extractFromResponse_labelled_line_witness :
  plainKey "Calories" = true /\
  blank " " = true /\
  every notLineFeed "  250 kcal " = true /\
  blank "  250 kcal " = false /\
  stopsAt notLineFeed (String LF "Fats: 12 g") /\
  extractFromResponse ("Calories" +:+ " " +:+ ":" +:+ "  250 kcal " +:+ String LF "Fats: 12 g")
    "Calories" ["energy"] = Some "250 kcal" /\
  trim "  250 kcal " = "250 kcal".
Proof.
  split; [reflexivity|]. split; [reflexivity|]. split; [reflexivity|].
  split; [reflexivity|]. split; [reflexivity|].
  split; [|reflexivity].
  exact (extractFromResponse_labelled_line "Calories" " " "  250 kcal "
           (String LF "Fats: 12 g") ["energy"] eq_refl eq_refl eq_refl eq_refl eq_refl).
Defined.

End LabelledLine.
